(** * The view document and the toolbar view of the editing engine

    A shallow embedding of [packages/ckeditor5-engine/src/view/document.js]:
    the [Document] class (observer registry, root registry, render bracket)
    and the [ToolbarView] class with its two behaviours, [StaticLayout] and
    [DynamicGrouping].

    JavaScript objects are mutable and methods may throw.  A method is a
    function from the state of the receiver to a completion, which is either
    a normal return or a thrown exception; both carry the state that the
    method left behind, because a JavaScript exception does not roll back
    the assignments made before it. *)

From stdpp Require Import gmap strings list.
From Stdlib Require Import Ascii ZArith Lia.

(** ** Completions *)

Inductive JsError : Type :=
| TypeError (msg : string)
| CKEditorError (msg : string)
| HostError (msg : string).

(** [Diverge] is the outcome of a loop that still wants to run when its
    fuel is used up; no JavaScript program returns it. *)
Inductive Completion (S A : Type) : Type :=
| Normal (a : A) (s : S)
| Throw (e : JsError) (s : S)
| Diverge.

Arguments Normal {S A} a s.
Arguments Throw {S A} e s.
Arguments Diverge {S A}.

Definition Js (S A : Type) : Type := S -> Completion S A.

Definition ret {S A} (a : A) : Js S A := fun s => Normal a s.

Definition bind {S A B} (m : Js S A) (k : A -> Js S B) : Js S B :=
  fun s =>
    match m s with
    | Normal a s' => k a s'
    | Throw e s' => Throw e s'
    | Diverge => Diverge
    end.

Definition throw {S A} (e : JsError) : Js S A := fun s => Throw e s.

Definition modify {S} (f : S -> S) : Js S unit := fun s => Normal tt (f s).

Definition gets {S A} (f : S -> A) : Js S A := fun s => Normal (f s) s.

Declare Scope js_scope.
Delimit Scope js_scope with js.
Notation "x <- m ;; k" := (bind m (fun x => k))
  (at level 100, m at next level, right associativity) : js_scope.
Notation "m ;;; k" := (bind m (fun _ => k))
  (at level 100, right associativity) : js_scope.

(** [m] returns [a] from [s] and leaves [s']. *)
Definition runs {S A} (m : Js S A) (s : S) (a : A) (s' : S) : Prop :=
  m s = Normal a s'.

(** [m] does not loop from [s], and when it returns, [Q] holds of what it
    returns and leaves. *)
Definition post {S A} (m : Js S A) (s : S) (Q : A -> S -> Prop) : Prop :=
  match m s with
  | Normal a s' => Q a s'
  | Throw _ _ => True
  | Diverge => False
  end.

(** [m] keeps [P]: whatever state [m] leaves, by returning or by throwing,
    satisfies [P] when the state it started from did. *)
Definition keeps {S A} (P : S -> Prop) (m : Js S A) : Prop :=
  forall s, P s ->
    match m s with
    | Normal _ s' => P s'
    | Throw _ s' => P s'
    | Diverge => True
    end.

(** The state a completion leaves behind, when there is one. *)
Definition final_state {S A} (c : Completion S A) : option S :=
  match c with
  | Normal _ s => Some s
  | Throw _ s => Some s
  | Diverge => None
  end.

Definition returns {S A} (c : Completion S A) : bool :=
  match c with Normal _ _ => true | _ => false end.

Definition throws {S A} (c : Completion S A) : bool :=
  match c with Throw _ _ => true | _ => false end.

(** ** A JavaScript [Map]

    [Map] iterates in insertion order and [set] on a present key keeps the
    key in place, so the map is an association list. *)

Module JsMap.
Section JsMap.
Context {K V : Type} `{EqDecision K}.

Fixpoint get (k : K) (m : list (K * V)) : option V :=
  match m with
  | [] => None
  | (k', v) :: m' => if decide (k = k') then Some v else get k m'
  end.

Fixpoint set (k : K) (v : V) (m : list (K * V)) : list (K * V) :=
  match m with
  | [] => [(k, v)]
  | (k', v') :: m' =>
      if decide (k = k') then (k, v) :: m' else (k', v') :: set k v m'
  end.

Definition values (m : list (K * V)) : list V := snd <$> m.

Definition map_values (f : V -> V) (m : list (K * V)) : list (K * V) :=
  prod_map id f <$> m.

End JsMap.
End JsMap.

(** ** The view document ([class Document]) *)

Module Document.

(** A DOM element, as far as the document looks at it: its tag name and its
    identity. *)
Record HTMLElement : Type := { tagName : string; domId : nat }.

(** A view root made by [new ContainerElement( rootTag )]. *)
Record ContainerElement : Type := { name : string; viewId : nat }.

Inductive ChangeType : Type := CHILDREN | ATTRIBUTES | TEXT.

#[global] Instance HTMLElement_eq_dec : EqDecision HTMLElement.
Proof. solve_decision. Defined.
#[global] Instance ContainerElement_eq_dec : EqDecision ContainerElement.
Proof. solve_decision. Defined.

(** The first argument of [createRoot]: a tag name, or a DOM element that is
    attached at once ([domRoot instanceof HTMLElement]). *)
Inductive RootArgument : Type :=
| TagName (tag : string)
| DomElement (el : HTMLElement).

(** Modelled from the spec: the observer classes are supplied from outside
    and are not in the sources.  An observer has the capability
    [{observe(domElement, rootName), enable(), disable()}] of section 4.5:
    [observe] attaches it to one more DOM root, [enable] and [disable] set
    its enablement.  [instanceId] is the identity of the object that
    [new Observer( this )] made. *)
Record Observer : Type := {
  observerClass : nat;
  instanceId : nat;
  isEnabled : bool;
  observedRoots : list (HTMLElement * string)
}.

#[global] Instance Observer_eq_dec : EqDecision Observer.
Proof. solve_decision. Defined.

Definition new_Observer (cls id : nat) : Observer :=
  {| observerClass := cls; instanceId := id; isEnabled := false;
     observedRoots := [] |}.

Definition observe (domElement : HTMLElement) (rootName : string)
    (o : Observer) : Observer :=
  {| observerClass := observerClass o; instanceId := instanceId o;
     isEnabled := isEnabled o;
     observedRoots := observedRoots o ++ [(domElement, rootName)] |}.

Definition enable (o : Observer) : Observer :=
  {| observerClass := observerClass o; instanceId := instanceId o;
     isEnabled := true; observedRoots := observedRoots o |}.

Definition disable (o : Observer) : Observer :=
  {| observerClass := observerClass o; instanceId := instanceId o;
     isEnabled := false; observedRoots := observedRoots o |}.

(** The collaborators that the document only calls: the renderer and the DOM
    converter it shares with the renderer.  Their sources are not part of
    the file, so their state is abstract and each call either returns or
    throws, leaving a new state behind. *)
Class ViewEngine : Type := {
  Engine : Type;
  newEngine : Engine;
  bindElements :
    HTMLElement -> option ContainerElement -> Engine -> option JsError * Engine;
  markToSync :
    ChangeType -> option ContainerElement -> Engine -> option JsError * Engine;
  rendererRender : Engine -> option JsError * Engine
}.

Section WithEngine.
Context `{VE : ViewEngine}.

Record Document : Type := {
  domRoots : list (string * HTMLElement);
  viewRoots : gmap string ContainerElement;
  _observers : list (nat * Observer);
  engine : Engine;
  (** number of objects made so far; the next one gets this identity *)
  allocated : nat
}.

Definition newDocument : Document :=
  {| domRoots := []; viewRoots := ∅; _observers := [];
     engine := newEngine; allocated := 0 |}.

Definition set_domRoots (f : list (string * HTMLElement) -> list (string * HTMLElement))
    (d : Document) : Document :=
  {| domRoots := f (domRoots d); viewRoots := viewRoots d;
     _observers := _observers d; engine := engine d; allocated := allocated d |}.

Definition set_viewRoots
    (f : gmap string ContainerElement -> gmap string ContainerElement)
    (d : Document) : Document :=
  {| domRoots := domRoots d; viewRoots := f (viewRoots d);
     _observers := _observers d; engine := engine d; allocated := allocated d |}.

Definition set_observers (f : list (nat * Observer) -> list (nat * Observer))
    (d : Document) : Document :=
  {| domRoots := domRoots d; viewRoots := viewRoots d;
     _observers := f (_observers d); engine := engine d;
     allocated := allocated d |}.

Definition set_engine (e : Engine) (d : Document) : Document :=
  {| domRoots := domRoots d; viewRoots := viewRoots d;
     _observers := _observers d; engine := e; allocated := allocated d |}.

Definition allocate (d : Document) : Document :=
  {| domRoots := domRoots d; viewRoots := viewRoots d;
     _observers := _observers d; engine := engine d;
     allocated := S (allocated d) |}.

(** A call into the renderer or the converter. *)
Definition call (f : Engine -> option JsError * Engine) : Js Document unit :=
  fun d =>
    match f (engine d) with
    | (None, e) => Normal tt (set_engine e d)
    | (Some err, e) => Throw err (set_engine e d)
    end.

(** [name = 'main'] in a parameter list: the default is taken when the
    argument is left out. *)
Definition rootName (name : option string) : string := default "main"%string name.

Local Open Scope js_scope.

(** [addObserver( Observer )].  The observer is an object, so the value found
    in the map is always truthy; the calls on the new observer after
    [_observers.set] change the object that the map holds. *)
Definition addObserver (Observer_ : nat) : Js Document Observer :=
  fun d =>
    match JsMap.get Observer_ (_observers d) with
    | Some observer => Normal observer d
    | None =>
        let observer := new_Observer Observer_ (allocated d) in
        let d := set_observers (JsMap.set Observer_ observer) (allocate d) in
        let observer :=
          foldl (fun o '(name, domElement) => observe domElement name o)
                observer (domRoots d) in
        let observer := enable observer in
        Normal observer (set_observers (JsMap.set Observer_ observer) d)
    end.

(** [getObserver( Observer )]; [None] is [undefined]. *)
Definition getObserver (Observer_ : nat) (d : Document) : option Observer :=
  JsMap.get Observer_ (_observers d).

Definition getRoot (name : option string) (d : Document) : option ContainerElement :=
  viewRoots d !! rootName name.

Definition getDomRoot (name : option string) (d : Document) : option HTMLElement :=
  JsMap.get (rootName name) (domRoots d).

Definition attachDomRoot (domRoot : HTMLElement) (name : option string)
    : Js Document unit :=
  viewRoot <- gets (getRoot name);;
  modify (set_domRoots (JsMap.set (rootName name) domRoot));;;
  call (bindElements domRoot viewRoot);;;
  call (markToSync CHILDREN viewRoot);;;
  modify (set_observers (JsMap.map_values (observe domRoot (rootName name)))).

(** The listener that [createRoot] puts on the new root:
    [( evt, type, node ) => this.renderer.markToSync( type, node )]. *)
Definition onChange (type : ChangeType) (node : ContainerElement) : Js Document unit :=
  call (markToSync type (Some node)).

Definition createRoot (domRoot : RootArgument) (name : option string)
    : Js Document ContainerElement :=
  let rootTag :=
    match domRoot with TagName tag => tag | DomElement el => tagName el end in
  id <- gets allocated;;
  let viewRoot := {| name := rootTag; viewId := id |} in
  modify allocate;;;
  modify (set_viewRoots (insert (rootName name) viewRoot));;;
  match domRoot with
  | DomElement el => attachDomRoot el name
  | TagName _ => ret tt
  end;;;
  ret viewRoot.

(** [render()]: three statements, no [try]. *)
Definition render : Js Document unit :=
  modify (set_observers (JsMap.map_values disable));;;
  call rendererRender;;;
  modify (set_observers (JsMap.map_values enable)).

(** The observers of a document, in the order of [_observers.values()]. *)
Definition observers (d : Document) : list Observer := JsMap.values (_observers d).

(** What a caller can do with a document, for statements about every
    history of calls.  A caller may catch an exception and go on, so the
    next call starts from the state the previous one left. *)
Inductive Call : Type :=
| CallAddObserver (Observer_ : nat)
| CallCreateRoot (domRoot : RootArgument) (name : option string)
| CallAttachDomRoot (domRoot : HTMLElement) (name : option string)
| CallRender.

Definition after {A} (c : Completion Document A) (d : Document) : Document :=
  default d (final_state c).

Definition perform (d : Document) (c : Call) : Document :=
  match c with
  | CallAddObserver o => after (addObserver o d) d
  | CallCreateRoot r n => after (createRoot r n d) d
  | CallAttachDomRoot r n => after (attachDomRoot r n d) d
  | CallRender => after (render d) d
  end.

Definition history (cs : list Call) : Document := foldl perform newDocument cs.

End WithEngine.

Arguments Document {VE}.

(** The calls that register a view root, and those that record a DOM root,
    under the name [n]. *)
Definition creates (n : string) (c : Call) : Prop :=
  match c with
  | CallCreateRoot _ name => rootName name = n
  | _ => False
  end.

Definition attaches (n : string) (c : Call) : Prop :=
  match c with
  | CallCreateRoot (DomElement _) name | CallAttachDomRoot _ name =>
      rootName name = n
  | _ => False
  end.

(** Engines to run the document on: one whose calls all return, one whose
    converter refuses [undefined], and one whose reconciliation throws. *)
Definition quietEngine : ViewEngine :=
  {| Engine := unit; newEngine := tt;
     bindElements := fun _ _ e => (None, e);
     markToSync := fun _ _ e => (None, e);
     rendererRender := fun e => (None, e) |}.


Definition throwingRenderer : ViewEngine :=
  {| Engine := unit; newEngine := tt;
     bindElements := fun _ _ e => (None, e);
     markToSync := fun _ _ e => (None, e);
     rendererRender := fun e => (Some (HostError "reconciliation failed"), e) |}.

End Document.

(** ** The toolbar view ([class ToolbarView]) *)

Module ToolbarView.

(** The views a toolbar holds.  A view is an object: [viewUid] is its
    identity, [kind] is what it shows. *)
Inductive ViewKind : Type :=
| ItemsView
| ToolbarSeparatorView
| DropdownView
| Component (name : string).

Record View : Type := { viewUid : nat; kind : ViewKind }.

#[global] Instance ViewKind_eq_dec : EqDecision ViewKind.
Proof. solve_decision. Defined.
#[global] Instance View_eq_dec : EqDecision View.
Proof. solve_decision. Defined.

(** [view.element] of the toolbar. *)
Inductive HTMLElement : Type := ToolbarElement.

(** A JavaScript number that [Number.parseInt] can return. *)
Inductive JsNumber : Type := NaN | Num (z : Z).

(** [!x] for [x] that is [null] or a number. *)
Definition falsy (x : option JsNumber) : bool :=
  match x with
  | None | Some NaN | Some (Num 0) => true
  | Some (Num _) => false
  end.

(** [a - b], [a + b], [a > b] and [a < b] with a number that may be [NaN]
    on the right; a comparison with [NaN] is [false]. *)
Definition minus (a : Z) (b : JsNumber) : JsNumber :=
  match b with NaN => NaN | Num z => Num (a - z) end.

Definition plus (a : Z) (b : JsNumber) : JsNumber :=
  match b with NaN => NaN | Num z => Num (a + z) end.

Definition greater (a : Z) (b : JsNumber) : bool :=
  match b with NaN => false | Num z => (z <? a)%Z end.

Definition less (a : Z) (b : JsNumber) : bool :=
  match b with NaN => false | Num z => (a <? z)%Z end.

(** The two edges of a [Rect] that the toolbar compares. *)
Record Rect : Type := { left : Z; right : Z }.

(** What the browser answers when the toolbar measures itself.  The answers
    depend on the rendered toolbar: on the kinds of the views in
    [ToolbarView#children], which are the child nodes of the toolbar
    element, and on the kinds of the views in the items view.  Two
    separators are laid out alike, so the identity of a view does not
    count.  Edges are whole numbers of layout units. *)
Record Layout : Type := {
  uiLanguageDirection : string;
  (** [viewElement.ownerDocument.body.contains( viewElement )] *)
  bodyContains : bool;
  (** [Number.parseInt( computedStyle.paddingRight )] and [paddingLeft] *)
  paddingRight : JsNumber;
  paddingLeft : JsNumber;
  (** [new Rect( element.lastChild )] *)
  lastChildRect : list ViewKind -> list ViewKind -> Rect;
  (** [new Rect( element )] *)
  toolbarRect : list ViewKind -> list ViewKind -> Rect
}.

(** The observer that [getResizeObserver( callback )] returns, with the
    [previousWidth] that the callback closes over. *)
Record ResizeObserver : Type := {
  observed : list HTMLElement;
  previousWidth : option Z
}.

Record Warning : Type := { message : string; name : string }.

(** The component factory, as far as [fillFromConfig] asks it. *)
Record ComponentFactory : Type := { has : string -> bool }.

(** *** Errors and events of the framework

    [attachLinkToDocumentation], [CKEditorError] and [EmitterMixin#fire]
    are imported from [@ckeditor/ckeditor5-utils] and are not in the
    sources; the toolbar depends on them in two places, the text of the
    warning of [fillFromConfig] and the exception that a caller of
    [items.add] gets when a listener throws.

    [attachLinkToDocumentation( message )] looks for the name of the error
    with [message.match( /^([^:]+):/ )], the text before the first colon
    when that text is not empty, and appends a link to the description of
    the error. *)
Definition DOCUMENTATION_URL : string :=
  "https://ckeditor.com/docs/ckeditor5/latest/framework/guides/support/error-codes.html".

Definition newline : string := String "010"%char EmptyString.

Fixpoint beforeColon (message : string) : option string :=
  match message with
  | EmptyString => None
  | String c rest =>
      if decide (c = ":"%char) then Some EmptyString
      else String c <$> beforeColon rest
  end.

Definition matchedErrorName (message : string) : option string :=
  match beforeColon message with
  | Some (String c rest) => Some (String c rest)
  | _ => None
  end.

Definition attachLinkToDocumentation (message : string) : string :=
  match matchedErrorName message with
  | None => message
  | Some errorName =>
      message +:+ " Read more: " +:+ DOCUMENTATION_URL +:+ "#error-" +:+
      errorName +:+ newline
  end.

(** [CKEditorError.rethrowUnexpectedError( err, context )]: a
    [CKEditorError] is thrown again as it is, anything else as
    [new CKEditorError( err.message, context )], whose constructor passes
    the message through [attachLinkToDocumentation]. *)
Definition rethrowUnexpectedError (err : JsError) : JsError :=
  match err with
  | CKEditorError _ => err
  | TypeError message | HostError message =>
      CKEditorError (attachLinkToDocumentation message)
  end.

(** [emitter.fire( name, ...args )] runs the listeners inside
    [try { ... } catch ( err ) { CKEditorError.rethrowUnexpectedError( err, this ) }].
    The assignments that the listeners made before the exception stay. *)
Definition fire {S A} (listeners : Js S A) : Js S A :=
  fun s =>
    match listeners s with
    | Normal a s' => Normal a s'
    | Throw err s' => Throw (rethrowUnexpectedError err) s'
    | Diverge => Diverge
    end.

(** *** Collections *)

(** Modelled from the spec: [Collection] and [ViewCollection] are imported
    from other packages and are not in the sources.  Section 3 has the
    toolbar collections as ordered sequences: [add( item, index )] puts the
    item at the index, at the end when no index is given, and throws when
    the index is past the end; [remove( item )] takes the item with that
    identity out and returns it, and throws when the collection does not
    hold it ([first] and [last] of an empty collection are [null], which no
    collection holds). *)
Fixpoint indexOf (item : View) (c : list View) : option nat :=
  match c with
  | [] => None
  | x :: c' =>
      if decide (viewUid x = viewUid item) then Some 0
      else S <$> indexOf item c'
  end.

Definition Collection_add (item : View) (index : option nat) (c : list View)
    : JsError + (nat * list View) :=
  let index := default (length c) index in
  if decide (length c < index)
  then inl (CKEditorError "collection-add-item-bad-index")
  else inr (index, take index c ++ item :: drop index c).

Definition Collection_remove (subject : option View) (c : list View)
    : JsError + (View * nat * list View) :=
  match subject with
  | None => inl (CKEditorError "collection-remove-404")
  | Some item =>
      match indexOf item c with
      | None => inl (CKEditorError "collection-remove-404")
      | Some index => inr (item, index, take index c ++ drop (S index) c)
      end
  end.

(** *** The state of a toolbar

    One record for the toolbar and its behaviour.  The behaviour object
    keeps references to collections of the toolbar ([viewChildren] is
    [view.children], [viewFocusables] is [view.focusables],
    [viewFocusTracker] is [view.focusTracker]); a shared collection is one
    field here.  The fields from [ungroupedItems] to [cachedPadding] belong
    to [DynamicGrouping] and are used when [shouldGroupWhenFull] is set. *)
Record ToolbarView : Type := {
  shouldGroupWhenFull : bool;
  items : list View;
  itemsViewChildren : list View;
  children : list View;
  focusables : list View;
  focusTracker : list View;
  isRendered : bool;
  isDestroyed : bool;
  ungroupedItems : list View;
  groupedItems : list View;
  groupedItemsDropdown : View;
  (** [undefined] until [DynamicGrouping#render] *)
  viewElement : option HTMLElement;
  (** [null] until [_enableGroupingOnResize] *)
  resizeObserver : option ResizeObserver;
  cachedPadding : option JsNumber;
  (** the identity of the next view that [new] makes *)
  nextUid : nat;
  console : list Warning
}.

Definition set_items (x : list View) (v : ToolbarView) : ToolbarView :=
  {| shouldGroupWhenFull := shouldGroupWhenFull v; items := x;
     itemsViewChildren := itemsViewChildren v; children := children v;
     focusables := focusables v; focusTracker := focusTracker v;
     isRendered := isRendered v; isDestroyed := isDestroyed v;
     ungroupedItems := ungroupedItems v; groupedItems := groupedItems v;
     groupedItemsDropdown := groupedItemsDropdown v;
     viewElement := viewElement v; resizeObserver := resizeObserver v;
     cachedPadding := cachedPadding v; nextUid := nextUid v;
     console := console v |}.

Definition set_itemsViewChildren (x : list View) (v : ToolbarView) : ToolbarView :=
  {| shouldGroupWhenFull := shouldGroupWhenFull v; items := items v;
     itemsViewChildren := x; children := children v;
     focusables := focusables v; focusTracker := focusTracker v;
     isRendered := isRendered v; isDestroyed := isDestroyed v;
     ungroupedItems := ungroupedItems v; groupedItems := groupedItems v;
     groupedItemsDropdown := groupedItemsDropdown v;
     viewElement := viewElement v; resizeObserver := resizeObserver v;
     cachedPadding := cachedPadding v; nextUid := nextUid v;
     console := console v |}.

Definition set_children (x : list View) (v : ToolbarView) : ToolbarView :=
  {| shouldGroupWhenFull := shouldGroupWhenFull v; items := items v;
     itemsViewChildren := itemsViewChildren v; children := x;
     focusables := focusables v; focusTracker := focusTracker v;
     isRendered := isRendered v; isDestroyed := isDestroyed v;
     ungroupedItems := ungroupedItems v; groupedItems := groupedItems v;
     groupedItemsDropdown := groupedItemsDropdown v;
     viewElement := viewElement v; resizeObserver := resizeObserver v;
     cachedPadding := cachedPadding v; nextUid := nextUid v;
     console := console v |}.

Definition set_focusables (x : list View) (v : ToolbarView) : ToolbarView :=
  {| shouldGroupWhenFull := shouldGroupWhenFull v; items := items v;
     itemsViewChildren := itemsViewChildren v; children := children v;
     focusables := x; focusTracker := focusTracker v;
     isRendered := isRendered v; isDestroyed := isDestroyed v;
     ungroupedItems := ungroupedItems v; groupedItems := groupedItems v;
     groupedItemsDropdown := groupedItemsDropdown v;
     viewElement := viewElement v; resizeObserver := resizeObserver v;
     cachedPadding := cachedPadding v; nextUid := nextUid v;
     console := console v |}.

Definition set_focusTracker (x : list View) (v : ToolbarView) : ToolbarView :=
  {| shouldGroupWhenFull := shouldGroupWhenFull v; items := items v;
     itemsViewChildren := itemsViewChildren v; children := children v;
     focusables := focusables v; focusTracker := x;
     isRendered := isRendered v; isDestroyed := isDestroyed v;
     ungroupedItems := ungroupedItems v; groupedItems := groupedItems v;
     groupedItemsDropdown := groupedItemsDropdown v;
     viewElement := viewElement v; resizeObserver := resizeObserver v;
     cachedPadding := cachedPadding v; nextUid := nextUid v;
     console := console v |}.

Definition set_isRendered (x : bool) (v : ToolbarView) : ToolbarView :=
  {| shouldGroupWhenFull := shouldGroupWhenFull v; items := items v;
     itemsViewChildren := itemsViewChildren v; children := children v;
     focusables := focusables v; focusTracker := focusTracker v;
     isRendered := x; isDestroyed := isDestroyed v;
     ungroupedItems := ungroupedItems v; groupedItems := groupedItems v;
     groupedItemsDropdown := groupedItemsDropdown v;
     viewElement := viewElement v; resizeObserver := resizeObserver v;
     cachedPadding := cachedPadding v; nextUid := nextUid v;
     console := console v |}.

Definition set_isDestroyed (x : bool) (v : ToolbarView) : ToolbarView :=
  {| shouldGroupWhenFull := shouldGroupWhenFull v; items := items v;
     itemsViewChildren := itemsViewChildren v; children := children v;
     focusables := focusables v; focusTracker := focusTracker v;
     isRendered := isRendered v; isDestroyed := x;
     ungroupedItems := ungroupedItems v; groupedItems := groupedItems v;
     groupedItemsDropdown := groupedItemsDropdown v;
     viewElement := viewElement v; resizeObserver := resizeObserver v;
     cachedPadding := cachedPadding v; nextUid := nextUid v;
     console := console v |}.

Definition set_ungroupedItems (x : list View) (v : ToolbarView) : ToolbarView :=
  {| shouldGroupWhenFull := shouldGroupWhenFull v; items := items v;
     itemsViewChildren := itemsViewChildren v; children := children v;
     focusables := focusables v; focusTracker := focusTracker v;
     isRendered := isRendered v; isDestroyed := isDestroyed v;
     ungroupedItems := x; groupedItems := groupedItems v;
     groupedItemsDropdown := groupedItemsDropdown v;
     viewElement := viewElement v; resizeObserver := resizeObserver v;
     cachedPadding := cachedPadding v; nextUid := nextUid v;
     console := console v |}.

Definition set_groupedItems (x : list View) (v : ToolbarView) : ToolbarView :=
  {| shouldGroupWhenFull := shouldGroupWhenFull v; items := items v;
     itemsViewChildren := itemsViewChildren v; children := children v;
     focusables := focusables v; focusTracker := focusTracker v;
     isRendered := isRendered v; isDestroyed := isDestroyed v;
     ungroupedItems := ungroupedItems v; groupedItems := x;
     groupedItemsDropdown := groupedItemsDropdown v;
     viewElement := viewElement v; resizeObserver := resizeObserver v;
     cachedPadding := cachedPadding v; nextUid := nextUid v;
     console := console v |}.

Definition set_viewElement (x : option HTMLElement) (v : ToolbarView) : ToolbarView :=
  {| shouldGroupWhenFull := shouldGroupWhenFull v; items := items v;
     itemsViewChildren := itemsViewChildren v; children := children v;
     focusables := focusables v; focusTracker := focusTracker v;
     isRendered := isRendered v; isDestroyed := isDestroyed v;
     ungroupedItems := ungroupedItems v; groupedItems := groupedItems v;
     groupedItemsDropdown := groupedItemsDropdown v; viewElement := x;
     resizeObserver := resizeObserver v; cachedPadding := cachedPadding v;
     nextUid := nextUid v; console := console v |}.

Definition set_resizeObserver (x : option ResizeObserver) (v : ToolbarView) : ToolbarView :=
  {| shouldGroupWhenFull := shouldGroupWhenFull v; items := items v;
     itemsViewChildren := itemsViewChildren v; children := children v;
     focusables := focusables v; focusTracker := focusTracker v;
     isRendered := isRendered v; isDestroyed := isDestroyed v;
     ungroupedItems := ungroupedItems v; groupedItems := groupedItems v;
     groupedItemsDropdown := groupedItemsDropdown v;
     viewElement := viewElement v; resizeObserver := x;
     cachedPadding := cachedPadding v; nextUid := nextUid v;
     console := console v |}.

Definition set_cachedPadding (x : option JsNumber) (v : ToolbarView) : ToolbarView :=
  {| shouldGroupWhenFull := shouldGroupWhenFull v; items := items v;
     itemsViewChildren := itemsViewChildren v; children := children v;
     focusables := focusables v; focusTracker := focusTracker v;
     isRendered := isRendered v; isDestroyed := isDestroyed v;
     ungroupedItems := ungroupedItems v; groupedItems := groupedItems v;
     groupedItemsDropdown := groupedItemsDropdown v;
     viewElement := viewElement v; resizeObserver := resizeObserver v;
     cachedPadding := x; nextUid := nextUid v; console := console v |}.

Definition set_nextUid (x : nat) (v : ToolbarView) : ToolbarView :=
  {| shouldGroupWhenFull := shouldGroupWhenFull v; items := items v;
     itemsViewChildren := itemsViewChildren v; children := children v;
     focusables := focusables v; focusTracker := focusTracker v;
     isRendered := isRendered v; isDestroyed := isDestroyed v;
     ungroupedItems := ungroupedItems v; groupedItems := groupedItems v;
     groupedItemsDropdown := groupedItemsDropdown v;
     viewElement := viewElement v; resizeObserver := resizeObserver v;
     cachedPadding := cachedPadding v; nextUid := x; console := console v |}.

Definition set_console (x : list Warning) (v : ToolbarView) : ToolbarView :=
  {| shouldGroupWhenFull := shouldGroupWhenFull v; items := items v;
     itemsViewChildren := itemsViewChildren v; children := children v;
     focusables := focusables v; focusTracker := focusTracker v;
     isRendered := isRendered v; isDestroyed := isDestroyed v;
     ungroupedItems := ungroupedItems v; groupedItems := groupedItems v;
     groupedItemsDropdown := groupedItemsDropdown v;
     viewElement := viewElement v; resizeObserver := resizeObserver v;
     cachedPadding := cachedPadding v; nextUid := nextUid v; console := x |}.

(** The items view is made first, the grouped items dropdown second; both
    exist for the whole life of the toolbar. *)
Definition itemsView : View := {| viewUid := 0; kind := ItemsView |}.

(** [new ToolbarView( locale, options )], followed by the constructor of
    the behaviour that [options.shouldGroupWhenFull] selects. *)
Definition newToolbarView (options_shouldGroupWhenFull : bool) : ToolbarView :=
  {| shouldGroupWhenFull := options_shouldGroupWhenFull;
     items := []; itemsViewChildren := []; children := [itemsView];
     focusables := []; focusTracker := [];
     isRendered := false; isDestroyed := false;
     ungroupedItems := []; groupedItems := [];
     groupedItemsDropdown := {| viewUid := 1; kind := DropdownView |};
     viewElement := None; resizeObserver := None; cachedPadding := None;
     nextUid := 2; console := [] |}.

Local Open Scope js_scope.

Definition new_View (k : ViewKind) : Js ToolbarView View :=
  fun v =>
    Normal {| viewUid := nextUid v; kind := k |} (set_nextUid (S (nextUid v)) v).

(** [collection.add( item, index )] and [collection.remove( subject )] on the
    collection that a field of the toolbar holds, before any listener. *)
Definition add_to (get : ToolbarView -> list View)
    (set : list View -> ToolbarView -> ToolbarView)
    (item : View) (index : option nat) : Js ToolbarView nat :=
  fun v =>
    match Collection_add item index (get v) with
    | inl e => Throw e v
    | inr (i, c) => Normal i (set c v)
    end.

Definition remove_from (get : ToolbarView -> list View)
    (set : list View -> ToolbarView -> ToolbarView)
    (subject : option View) : Js ToolbarView (View * nat) :=
  fun v =>
    match Collection_remove subject (get v) with
    | inl e => Throw e v
    | inr (item, i, c) => Normal (item, i) (set c v)
    end.

Fixpoint forEach {A} (l : list A) (f : A -> Js ToolbarView unit)
    : Js ToolbarView unit :=
  match l with
  | [] => ret tt
  | x :: l' => f x;;; forEach l' f
  end.

Definition focusTracker_add (item : View) : Js ToolbarView unit :=
  modify (fun v => set_focusTracker (focusTracker v ++ [item]) v).

Definition focusTracker_remove (item : View) : Js ToolbarView unit :=
  modify (fun v =>
    set_focusTracker
      (filter (fun x => viewUid x <> viewUid item) (focusTracker v)) v).

(** *** [DynamicGrouping] *)

Definition _updateFocusCycleableItems : Js ToolbarView unit :=
  modify (set_focusables []);;;
  ungrouped <- gets ungroupedItems;;
  forEach ungrouped
    (fun item => add_to focusables set_focusables item None;;; ret tt);;;
  grouped <- gets groupedItems;;
  if decide (length grouped = 0) then ret tt
  else
    dropdown <- gets groupedItemsDropdown;;
    add_to focusables set_focusables dropdown None;;; ret tt.

(** The collections that have listeners, each with its listeners in the
    order of their registration.  [ungroupedItems] drives the children of
    the items view ([bindTo]) and the focus cycle; [view.children] drives
    the focus cycle; the only listener of [groupedItems] is the toolbar
    inside the dropdown, which is not part of this state.  These listeners
    work on collections only, and what a collection throws is a
    [CKEditorError], which [fire] throws again as it is
    ([fire_collection_listeners]). *)
Definition ungroupedItems_add (item : View) (index : option nat)
    : Js ToolbarView unit :=
  i <- add_to ungroupedItems set_ungroupedItems item index;;
  add_to itemsViewChildren set_itemsViewChildren item (Some i);;;
  _updateFocusCycleableItems.

Definition ungroupedItems_remove (subject : option View) : Js ToolbarView View :=
  r <- remove_from ungroupedItems set_ungroupedItems subject;;
  remove_from itemsViewChildren set_itemsViewChildren (Some r.1);;;
  _updateFocusCycleableItems;;;
  ret r.1.

Definition groupedItems_add (item : View) (index : option nat)
    : Js ToolbarView unit :=
  add_to groupedItems set_groupedItems item index;;; ret tt.

Definition groupedItems_remove (subject : option View) : Js ToolbarView View :=
  r <- remove_from groupedItems set_groupedItems subject;;
  ret r.1.

Definition viewChildren_add (item : View) : Js ToolbarView unit :=
  add_to children set_children item None;;;
  _updateFocusCycleableItems.

Definition viewChildren_remove (subject : option View) : Js ToolbarView unit :=
  remove_from children set_children subject;;;
  _updateFocusCycleableItems.

Section WithLayout.
Context (L : Layout).

(** [get _areItemsOverflowing()] *)
Definition _areItemsOverflowing : Js ToolbarView bool :=
  ungrouped <- gets ungroupedItems;;
  if decide (length ungrouped = 0) then ret false
  else
    element <- gets viewElement;;
    match element with
    | None => throw (TypeError "Cannot read property 'lastChild' of undefined")
    | Some _ =>
        shown <- gets (fun v => kind <$> children v);;
        inside <- gets (fun v => kind <$> itemsViewChildren v);;
        let lastChildRect := lastChildRect L shown inside in
        let toolbarRect := toolbarRect L shown inside in
        cached <- gets cachedPadding;;
        (if falsy cached then
           let padding :=
             if decide (uiLanguageDirection L = "ltr"%string)
             then paddingRight L else paddingLeft L in
           modify (set_cachedPadding (Some padding))
         else ret tt);;;
        cached <- gets cachedPadding;;
        let cachedPadding := default (Num 0) cached in
        if decide (uiLanguageDirection L = "ltr"%string)
        then ret (greater (right lastChildRect)
                          (minus (right toolbarRect) cachedPadding))
        else ret (less (left lastChildRect)
                       (plus (left toolbarRect) cachedPadding))
    end.

Definition _groupLastItem : Js ToolbarView unit :=
  grouped <- gets groupedItems;;
  (if decide (length grouped = 0) then
     separator <- new_View ToolbarSeparatorView;;
     viewChildren_add separator;;;
     dropdown <- gets groupedItemsDropdown;;
     viewChildren_add dropdown;;;
     focusTracker_add dropdown
   else ret tt);;;
  lastItem <- gets (fun v => last (ungroupedItems v));;
  item <- ungroupedItems_remove lastItem;;
  groupedItems_add item (Some 0).

Definition _ungroupFirstItem : Js ToolbarView unit :=
  firstItem <- gets (fun v => head (groupedItems v));;
  item <- groupedItems_remove firstItem;;
  ungroupedItems_add item None;;;
  grouped <- gets groupedItems;;
  if decide (length grouped = 0) then
    dropdown <- gets groupedItemsDropdown;;
    viewChildren_remove (Some dropdown);;;
    lastChild <- gets (fun v => last (children v));;
    viewChildren_remove lastChild;;;
    focusTracker_remove dropdown
  else ret tt.

(** [while ( this._areItemsOverflowing ) { this._groupLastItem();
    wereItemsGrouped = true; }].  A unit of fuel pays for one run of the
    body. *)
Fixpoint groupWhileOverflowing (fuel : nat) (wereItemsGrouped : bool)
    : Js ToolbarView bool :=
  overflowing <- _areItemsOverflowing;;
  if overflowing : bool then
    match fuel with
    | 0 => fun _ => Diverge
    | S fuel' => _groupLastItem;;; groupWhileOverflowing fuel' true
    end
  else ret wereItemsGrouped.

(** [while ( this.groupedItems.length && !this._areItemsOverflowing )
    { this._ungroupFirstItem(); }] *)
Fixpoint ungroupWhileFitting (fuel : nat) : Js ToolbarView unit :=
  grouped <- gets groupedItems;;
  if decide (length grouped = 0) then ret tt
  else
    overflowing <- _areItemsOverflowing;;
    if overflowing : bool then ret tt
    else
      match fuel with
      | 0 => fun _ => Diverge
      | S fuel' => _ungroupFirstItem;;; ungroupWhileFitting fuel'
      end.

Definition _updateGrouping (fuel : nat) : Js ToolbarView unit :=
  element <- gets viewElement;;
  match element with
  | None =>
      throw (TypeError "Cannot read property 'ownerDocument' of undefined")
  | Some _ =>
      if negb (bodyContains L) then ret tt
      else
        wereItemsGrouped <- groupWhileOverflowing fuel false;;
        grouped <- gets groupedItems;;
        if negb wereItemsGrouped && negb (bool_decide (length grouped = 0))
        then
          ungroupWhileFitting fuel;;;
          overflowing <- _areItemsOverflowing;;
          if overflowing : bool then _groupLastItem else ret tt
        else ret tt
  end.

Definition _enableGroupingOnResize (fuel : nat) : Js ToolbarView unit :=
  modify (set_resizeObserver (Some {| observed := []; previousWidth := None |}));;;
  element <- gets viewElement;;
  match element with
  | None => throw (TypeError "parameter 1 is not of type 'Element'")
  | Some el =>
      modify (set_resizeObserver
                (Some {| observed := [el]; previousWidth := None |}));;;
      _updateGrouping fuel
  end.

(** The callback given to [getResizeObserver], called with
    [entry.contentRect.width]. *)
Definition onResize (fuel : nat) (width : Z) : Js ToolbarView unit :=
  observer <- gets resizeObserver;;
  match observer with
  | None => ret tt
  | Some o =>
      let unchanged :=
        match previousWidth o with
        | None | Some 0%Z => false
        | Some w => bool_decide (w = width)
        end in
      if unchanged then ret tt
      else
        _updateGrouping fuel;;;
        modify (fun v =>
          match resizeObserver v with
          | Some o' =>
              set_resizeObserver
                (Some {| observed := observed o'; previousWidth := Some width |}) v
          | None => v
          end)
  end.

(** The listeners that the constructor of [DynamicGrouping] puts on
    [view.items]. *)
Definition DynamicGrouping_onAdd (fuel : nat) (item : View) (index : nat)
    : Js ToolbarView unit :=
  ungrouped <- gets ungroupedItems;;
  (if decide (length ungrouped < index)
   then groupedItems_add item (Some (index - length ungrouped))
   else ungroupedItems_add item (Some index));;;
  _updateGrouping fuel.

Definition DynamicGrouping_onRemove (fuel : nat) (item : View) (index : nat)
    : Js ToolbarView unit :=
  ungrouped <- gets ungroupedItems;;
  (if decide (length ungrouped < index)
   then groupedItems_remove (Some item);;; ret tt
   else ungroupedItems_remove (Some item);;; ret tt);;;
  _updateGrouping fuel.

Definition DynamicGrouping_render (fuel : nat) : Js ToolbarView unit :=
  modify (set_viewElement (Some ToolbarElement));;;
  _enableGroupingOnResize fuel.

Definition DynamicGrouping_destroy : Js ToolbarView unit :=
  (* this.groupedItemsDropdown.destroy() changes nothing in this state *)
  observer <- gets resizeObserver;;
  match observer with
  | None => throw (TypeError "Cannot read property 'disconnect' of null")
  | Some o =>
      modify (set_resizeObserver
                (Some {| observed := []; previousWidth := previousWidth o |}))
  end.

(** *** [StaticLayout]: the two [bindTo( view.items )] of its constructor *)

Definition StaticLayout_onAdd (item : View) (index : nat) : Js ToolbarView unit :=
  add_to itemsViewChildren set_itemsViewChildren item (Some index);;;
  add_to focusables set_focusables item (Some index);;;
  ret tt.

Definition StaticLayout_onRemove (item : View) : Js ToolbarView unit :=
  remove_from itemsViewChildren set_itemsViewChildren (Some item);;;
  remove_from focusables set_focusables (Some item);;;
  ret tt.

(** *** [ToolbarView] *)

(** [this.items.add( item, index )] with its listeners: the one of the
    behaviour, registered by the constructor, then the one that [render]
    registers.  The collection changes first and then fires the event, so
    what a listener throws reaches the caller through [fire]: the
    [TypeError] of [_updateGrouping] arrives as a [CKEditorError]. *)
Definition items_add (fuel : nat) (item : View) (index : option nat)
    : Js ToolbarView unit :=
  i <- add_to items set_items item index;;
  fire (grouping <- gets shouldGroupWhenFull;;
        (if grouping : bool then DynamicGrouping_onAdd fuel item i
         else StaticLayout_onAdd item i);;;
        rendered <- gets isRendered;;
        if rendered : bool then focusTracker_add item else ret tt).

Definition items_remove (fuel : nat) (subject : option View)
    : Js ToolbarView View :=
  r <- remove_from items set_items subject;;
  fire (grouping <- gets shouldGroupWhenFull;;
        (if grouping : bool then DynamicGrouping_onRemove fuel r.1 r.2
         else StaticLayout_onRemove r.1);;;
        rendered <- gets isRendered;;
        if rendered : bool then focusTracker_remove r.1 else ret tt);;;
  ret r.1.

(** [render()]; [View#render] refuses a second call. *)
Definition render (fuel : nat) : Js ToolbarView unit :=
  rendered <- gets isRendered;;
  if rendered : bool then throw (CKEditorError "ui-view-render-already-rendered")
  else
    modify (set_isRendered true);;;
    its <- gets items;;
    forEach its focusTracker_add;;;
    grouping <- gets shouldGroupWhenFull;;
    if grouping : bool then DynamicGrouping_render fuel else ret tt.

Definition destroy : Js ToolbarView unit :=
  grouping <- gets shouldGroupWhenFull;;
  (if grouping : bool then DynamicGrouping_destroy else ret tt);;;
  modify (set_isDestroyed true).

(** The text that [fillFromConfig] hands to [console.warn]. *)
Definition unavailable : string :=
  attachLinkToDocumentation
    "toolbarview-item-unavailable: The requested toolbar item is unavailable.".

Definition console_warn (w : Warning) : Js ToolbarView unit :=
  modify (fun v => set_console (console v ++ [w]) v).

Definition fillFromConfig (fuel : nat) (config : list string)
    (factory : ComponentFactory) : Js ToolbarView unit :=
  forEach config (fun name =>
    if decide (name = "|"%string) then
      separator <- new_View ToolbarSeparatorView;;
      items_add fuel separator None
    else if has factory name then
      item <- new_View (Component name);;
      items_add fuel item None
    else console_warn {| message := unavailable; name := name |}).

End WithLayout.

(** *** The listeners of the focus cycle, by the change that fires them *)

Inductive StructuralChange : Type :=
| UngroupedAdd (item : View) (index : option nat)
| UngroupedRemove (subject : option View)
| ChildrenAdd (item : View)
| ChildrenRemove (subject : option View).

Definition change (c : StructuralChange) : Js ToolbarView unit :=
  match c with
  | UngroupedAdd item index => ungroupedItems_add item index
  | UngroupedRemove subject => ungroupedItems_remove subject;;; ret tt
  | ChildrenAdd item => viewChildren_add item
  | ChildrenRemove subject => viewChildren_remove subject
  end.

(** What the focus cycle should hold, given the two item collections. *)
Definition focusCycle (v : ToolbarView) : list View :=
  ungroupedItems v ++
  (if decide (groupedItems v = []) then [] else [groupedItemsDropdown v]).

(** *** The grouping pass in the words of the specification

    Section 4.4 describes [_updateGrouping] on the two item sequences
    alone, given an answer to "do the ungrouped items overflow".  A grouping
    is the pair of the ungrouped and the grouped items. *)

Definition Grouping : Type := list View * list View.

Section Regroup.
Context (overflow : Grouping -> bool).

(** "move the last ungrouped item into the front of the grouped
    collection" *)
Definition group_last (s : Grouping) : Grouping :=
  match reverse s.1 with
  | [] => s
  | x :: r => (reverse r, x :: s.2)
  end.

(** "moving the first grouped item back to the end of the ungrouped
    collection" *)
Definition ungroup_first (s : Grouping) : Grouping :=
  match s.2 with
  | [] => s
  | x :: g => (s.1 ++ [x], g)
  end.

(** Step 1, on the ungrouped items in reverse. *)
Fixpoint group_from (ru g : list View) : Grouping :=
  match ru with
  | [] => ([], g)
  | x :: ru' =>
      if overflow (reverse ru, g) then group_from ru' (x :: g)
      else (reverse ru, g)
  end.

(** Step 2: the move is made first and measured afterwards. *)
Fixpoint ungroup_from (u g : list View) : Grouping :=
  match g with
  | [] => (u, [])
  | x :: g' =>
      if overflow (u, g) then (u, g) else ungroup_from (u ++ [x]) g'
  end.

(** Steps 1 to 3. *)
Definition regroup (s : Grouping) : Grouping :=
  if overflow s then group_from (reverse s.1) s.2
  else
    match s.2 with
    | [] => s
    | _ :: _ =>
        let s' := ungroup_from s.1 s.2 in
        if overflow s' then group_last s' else s'
    end.

End Regroup.

(** The padding that [_areItemsOverflowing] compares with: the cached one
    when there is one, else the one it reads and caches. *)
Definition padding_in_use (L : Layout) (v : ToolbarView) : JsNumber :=
  if falsy (cachedPadding v) then
    if decide (uiLanguageDirection L = "ltr"%string)
    then paddingRight L else paddingLeft L
  else default (Num 0) (cachedPadding v).

(** The answer of the layout for a grouping: the toolbar shows the views
    [base] (the items view among them), followed by a separator and the
    dropdown when something is grouped. *)
Definition overflows (L : Layout) (base : list ViewKind) (padding : JsNumber)
    (s : Grouping) : bool :=
  match s.1 with
  | [] => false
  | _ :: _ =>
      let shown :=
        base ++ (match s.2 with
                 | [] => []
                 | _ :: _ => [ToolbarSeparatorView; DropdownView]
                 end) in
      let inside := kind <$> s.1 in
      if decide (uiLanguageDirection L = "ltr"%string)
      then greater (right (lastChildRect L shown inside))
                   (minus (right (toolbarRect L shown inside)) padding)
      else less (left (lastChildRect L shown inside))
                (plus (left (toolbarRect L shown inside)) padding)
  end.

(** *** States that the grouping keeps

    The items view shows the ungrouped items; no view is in the item
    collections twice; the toolbar shows [base], and behind it a separator
    and the dropdown exactly when something is grouped; [nextUid] is above
    every identity in use. *)
Record grouping_ok (base : list View) (v : ToolbarView) : Prop := {
  ok_bound : itemsViewChildren v = ungroupedItems v;
  ok_items : NoDup (viewUid <$> (ungroupedItems v ++ groupedItems v));
  ok_dropdown : kind (groupedItemsDropdown v) = DropdownView;
  ok_base : NoDup (viewUid <$> (base ++ [groupedItemsDropdown v]));
  ok_fresh :
    Forall (fun c => viewUid c < nextUid v) (base ++ [groupedItemsDropdown v]);
  ok_items_fresh :
    Forall (fun c => viewUid c < nextUid v) (ungroupedItems v ++ groupedItems v);
  ok_children :
    match groupedItems v with
    | [] => children v = base
    | _ :: _ =>
        exists separator,
          kind separator = ToolbarSeparatorView /\
          (viewUid separator ∉ viewUid <$> (base ++ [groupedItemsDropdown v])) /\
          viewUid separator < nextUid v /\
          children v = base ++ [separator; groupedItemsDropdown v]
    end
}.

(** The toolbar is rendered and its element is in the document. *)
Definition attached (L : Layout) (v : ToolbarView) : Prop :=
  viewElement v = Some ToolbarElement /\ bodyContains L = true.

(** The fields that no grouping step writes. *)
Definition same_frame (v v' : ToolbarView) : Prop :=
  shouldGroupWhenFull v' = shouldGroupWhenFull v /\
  items v' = items v /\
  isRendered v' = isRendered v /\
  isDestroyed v' = isDestroyed v /\
  groupedItemsDropdown v' = groupedItemsDropdown v /\
  viewElement v' = viewElement v /\
  resizeObserver v' = resizeObserver v /\
  console v' = console v.

(** A property of the toolbar that does not depend on the collections, the
    padding cache, the identity counter and the console. *)
Record Untouched (P : ToolbarView -> Prop) : Prop := {
  by_items : forall c v, P v -> P (set_items c v);
  by_itemsViewChildren : forall c v, P v -> P (set_itemsViewChildren c v);
  by_children : forall c v, P v -> P (set_children c v);
  by_focusables : forall c v, P v -> P (set_focusables c v);
  by_focusTracker : forall c v, P v -> P (set_focusTracker c v);
  by_ungroupedItems : forall c v, P v -> P (set_ungroupedItems c v);
  by_groupedItems : forall c v, P v -> P (set_groupedItems c v);
  by_cachedPadding : forall c v, P v -> P (set_cachedPadding c v);
  by_nextUid : forall n v, P v -> P (set_nextUid n v);
  by_console : forall c v, P v -> P (set_console c v)
}.

(** A toolbar with dynamic grouping on which [render] has not run. *)
Definition unrendered (v : ToolbarView) : Prop :=
  shouldGroupWhenFull v = true /\ viewElement v = None /\
  resizeObserver v = None.

(** What a caller can do with a toolbar.  A caller may catch an exception
    and go on with the toolbar as the call left it.  [CallResize] is the
    browser calling the callback of the resize observer. *)
Inductive Call : Type :=
| CallItemsAdd (item : View) (index : option nat)
| CallItemsRemove (subject : option View)
| CallFillFromConfig (config : list string) (factory : ComponentFactory)
| CallResize (width : Z)
| CallRender
| CallDestroy.

Definition after {A} (c : Completion ToolbarView A) (v : ToolbarView)
    : ToolbarView :=
  default v (final_state c).

Definition perform (L : Layout) (fuel : nat) (v : ToolbarView) (c : Call)
    : ToolbarView :=
  match c with
  | CallItemsAdd item index => after (items_add L fuel item index v) v
  | CallItemsRemove subject => after (items_remove L fuel subject v) v
  | CallFillFromConfig config factory =>
      after (fillFromConfig L fuel config factory v) v
  | CallResize width => after (onResize L fuel width v) v
  | CallRender => after (render L fuel v) v
  | CallDestroy => after (destroy v) v
  end.

(** A call meets the page as it is at the time of the call: between two
    calls the window may be resized, the styles may change and the toolbar
    may be put into the document or taken out of it.  A history is a list
    of calls, each with the layout of its time. *)
Definition performAt (fuel : nat) (v : ToolbarView) (call : Layout * Call)
    : ToolbarView :=
  perform call.1 fuel v call.2.

Definition history (fuel : nat) (options_shouldGroupWhenFull : bool)
    (cs : list (Layout * Call)) : ToolbarView :=
  foldl (performAt fuel) (newToolbarView options_shouldGroupWhenFull) cs.

(** The calls [cs], all of them under the layout [L]. *)
Definition under (L : Layout) (cs : list Call) : list (Layout * Call) :=
  (fun c => (L, c)) <$> cs.

(** *** What [fillFromConfig] adds, in the words of the specification

    A separator for each ["|"], the component for each name that the
    factory has, nothing for the other names. *)
Definition configured (factory : ComponentFactory) (config : list string)
    : list ViewKind :=
  omap (fun name =>
          if decide (name = "|"%string) then Some ToolbarSeparatorView
          else if has factory name then Some (Component name)
          else None) config.

Definition unavailableNames (factory : ComponentFactory) (config : list string)
    : list string :=
  filter (fun name => name <> "|"%string /\ has factory name = false) config.

(** The toolbars whose [items] take a new item at the end: a static one
    whose two bindings are in place, and a rendered one with dynamic
    grouping whose items are the ungrouped ones followed by the grouped
    ones, in a state that the grouping keeps, with fuel for the passes that
    [n] more items start. *)
Definition static_ready (v : ToolbarView) : Prop :=
  shouldGroupWhenFull v = false /\
  itemsViewChildren v = items v /\ focusables v = items v.

Definition dynamic_ready (fuel n : nat) (v : ToolbarView) : Prop :=
  shouldGroupWhenFull v = true /\
  viewElement v = Some ToolbarElement /\
  items v = ungroupedItems v ++ groupedItems v /\
  (exists base, grouping_ok base v) /\
  length (items v) + n <= fuel.

Definition ready (fuel n : nat) (v : ToolbarView) : Prop :=
  static_ready v \/ dynamic_ready fuel n v.

(** The calls after [render] that add items or report a new width, and the
    number of items that a call may add. *)
Definition fills_or_resizes (c : Call) : Prop :=
  match c with
  | CallFillFromConfig _ _ | CallResize _ => True
  | _ => False
  end.

Definition mayAdd (c : Call) : nat :=
  match c with
  | CallFillFromConfig config _ => length config
  | _ => 0
  end.

(** *** States of a toolbar that the calls keep *)

(** The items that are shown and can be focused are the items, one to one:
    what the two bindings of [StaticLayout] keep, and what a toolbar with
    dynamic grouping keeps while nothing is grouped. *)
Definition mirrors_items (v : ToolbarView) : Prop :=
  itemsViewChildren v = items v /\ focusables v = items v.

Definition nothing_grouped (v : ToolbarView) : Prop :=
  groupedItems v = [] /\ ungroupedItems v = items v /\ children v = [itemsView].

(** A static toolbar as its constructor leaves it and as every call keeps
    it. *)
Definition static_layout (v : ToolbarView) : Prop :=
  shouldGroupWhenFull v = false /\ mirrors_items v /\
  ungroupedItems v = [] /\ groupedItems v = [] /\
  children v = [itemsView] /\ resizeObserver v = None.

(** A toolbar with dynamic grouping on which a grouping pass moves nothing:
    it has no element yet, or its element is not in the document. *)
Definition unmeasured (L : Layout) (v : ToolbarView) : Prop :=
  shouldGroupWhenFull v = true /\ mirrors_items v /\ nothing_grouped v /\
  (viewElement v = None \/ bodyContains L = false).

(** The focus tracker of a static toolbar knows the items from [render]
    on; [rendered] says whether [render] has run. *)
Definition tracks_items (rendered : bool) (v : ToolbarView) : Prop :=
  static_layout v /\ isRendered v = rendered /\
  focusTracker v = if rendered then items v else [].

(** The warnings that [fillFromConfig] writes for names that the factory
    does not have. *)
Definition warnings (names : list string) : list Warning :=
  (fun name => {| message := unavailable; name := name |}) <$> names.

(** A rendered toolbar with dynamic grouping whose items are the ungrouped
    ones followed by the grouped ones, in a state that the grouping keeps
    around the views [base]. *)
Definition arranged (base : list View) (v : ToolbarView) : Prop :=
  shouldGroupWhenFull v = true /\
  viewElement v = Some ToolbarElement /\
  items v = ungroupedItems v ++ groupedItems v /\
  grouping_ok base v.

(** An arranged toolbar that does not overflow where it is measured. *)
Definition settled (L : Layout) (base : list View) (v : ToolbarView) : Prop :=
  arranged base v /\
  (bodyContains L = true ->
   overflows L (kind <$> base) (padding_in_use L v)
     (ungroupedItems v, groupedItems v) = false).

(** The calls that start a grouping pass on a rendered toolbar: [render],
    a [fillFromConfig] that adds an item, and a callback of the resize
    observer unless it is told the width that it remembers, other than 0. *)
Definition measures (v : ToolbarView) (c : Call) : Prop :=
  match c with
  | CallRender => True
  | CallFillFromConfig config factory => configured factory config <> []
  | CallResize width =>
      exists o, resizeObserver v = Some o /\
                ~ (previousWidth o = Some width /\ width <> 0%Z)
  | _ => False
  end.

(** The identities that the focus tracker knows. *)
Definition tracked_ids (v : ToolbarView) : list nat := viewUid <$> focusTracker v.

(** The focus tracker knows the dropdown exactly while something is
    grouped. *)
Definition tracker_follows_grouping (v : ToolbarView) : Prop :=
  viewUid (groupedItemsDropdown v) ∈ tracked_ids v <-> groupedItems v <> [].

(** [v'] differs from [v] in the focus tracker by the dropdown at most, and
    has the same dropdown. *)
Definition same_tracking (v v' : ToolbarView) : Prop :=
  groupedItemsDropdown v' = groupedItemsDropdown v /\
  forall n, n <> viewUid (groupedItemsDropdown v) ->
            n ∈ tracked_ids v' <-> n ∈ tracked_ids v.

(** After [render], the focus tracker knows every item, and the dropdown
    exactly while something is grouped; no item has the identity of the
    dropdown. *)
Definition focus_follows (v : ToolbarView) : Prop :=
  isRendered v = true /\ tracker_follows_grouping v /\
  Forall (fun x => viewUid x ∈ tracked_ids v /\
                   viewUid x <> viewUid (groupedItemsDropdown v)) (items v).

End ToolbarView.

(** ** Toolbars and documents for the examples *)

Module Examples.
Import ToolbarView.

(** A toolbar in one row, left to right and without padding.  A component
    takes ten units for each letter of its name, a separator two, the
    dropdown eight; the last child of the toolbar ends where the row
    ends. *)
Definition widthOf (k : ViewKind) : Z :=
  match k with
  | ItemsView => 0
  | ToolbarSeparatorView => 2
  | DropdownView => 8
  | Component name => 10 * Z.of_nat (String.length name)
  end.

Definition rowWidth (ks : list ViewKind) : Z :=
  foldr (fun k w => (widthOf k + w)%Z) 0%Z ks.

Definition row (width : Z) (inDocument : bool) : Layout :=
  {| uiLanguageDirection := "ltr"; bodyContains := inDocument;
     paddingRight := Num 0; paddingLeft := Num 0;
     lastChildRect := fun shown inside =>
       {| left := 0; right := rowWidth shown + rowWidth inside |};
     toolbarRect := fun _ _ => {| left := 0; right := width |} |}.

(** A factory that knows three components. *)
Definition basicStyles : ComponentFactory :=
  {| has := fun name =>
       bool_decide (name ∈ ["Bold"; "Italic"; "Link"]%string) |}.

Definition bold : View := {| viewUid := 2; kind := Component "Bold" |}.
Definition italic : View := {| viewUid := 3; kind := Component "Italic" |}.
Definition separator : View := {| viewUid := 4; kind := ToolbarSeparatorView |}.
Definition link : View := {| viewUid := 6; kind := Component "Link" |}.
Definition dropdown : View := {| viewUid := 1; kind := DropdownView |}.

(** A toolbar with dynamic grouping, rendered into a row of 100 units and
    filled: only [bold] fits beside the dropdown. *)
Definition narrow : ToolbarView :=
  Eval vm_compute in
    history 8 true
      (under (row 100 true)
         [CallRender;
          CallFillFromConfig ["Bold"; "Italic"; "|"; "Link"]%string
            basicStyles]).

(** The same config in another order, in a row of 100 units: [italic] is
    the only item that had to be grouped. *)
Definition oneGrouped : ToolbarView :=
  Eval vm_compute in
    history 8 true
      (under (row 100 true)
         [CallRender;
          CallFillFromConfig ["Bold"; "Link"; "Italic"]%string basicStyles]).

Definition editable : Document.HTMLElement :=
  {| Document.tagName := "DIV"; Document.domId := 1 |}.

Definition cachedObserver (enabled : bool)
    (roots : list (Document.HTMLElement * string)) : Document.Observer :=
  {| Document.observerClass := 7; Document.instanceId := 0;
     Document.isEnabled := enabled; Document.observedRoots := roots |}.

(** A row whose padding cannot be read: [Number.parseInt] of the computed
    style is [NaN]. *)
Definition unstyledRow (width : Z) : Layout :=
  {| uiLanguageDirection := "ltr"; bodyContains := true;
     paddingRight := NaN; paddingLeft := NaN;
     lastChildRect := fun shown inside =>
       {| left := 0; right := rowWidth shown + rowWidth inside |};
     toolbarRect := fun _ _ => {| left := 0; right := width |} |}.

(** The toolbar of [narrow] in a row of 200 units, with two items:
    everything fits. *)
Definition wide : ToolbarView :=
  Eval vm_compute in
    history 8 true
      (under (row 200 true)
         [CallRender; CallFillFromConfig ["Bold"; "Italic"]%string basicStyles]).

Definition undo : View := {| viewUid := 7; kind := Component "Undo" |}.

End Examples.

(** * Proofs *)

(** ** Facts about [JsMap] *)

Section JsMapFacts.
Context {K V : Type} `{EqDecision K}.
Implicit Types (m : list (K * V)) (k : K) (v : V).
Import JsMap.

Lemma get_set_eq k v m : get k (set k v m) = Some v.
Proof.
  induction m as [|[k' v'] m IH]; simpl.
  - by rewrite decide_True.
  - destruct (decide (k = k')); simpl.
    + by rewrite decide_True.
    + by rewrite decide_False.
Qed.

Lemma get_set_ne k k' v m : k ≠ k' -> get k' (set k v m) = get k' m.
Proof.
  intros Hne. induction m as [|[k0 v0] m IH]; simpl.
  - rewrite decide_False; [done|congruence].
  - destruct (decide (k = k0)) as [->|]; simpl.
    + rewrite !decide_False; [done|congruence|congruence].
    + destruct (decide (k' = k0)); [done|apply IH].
Qed.

Lemma get_map_values f k m : get k (map_values f m) = f <$> get k m.
Proof.
  induction m as [|[k' v'] m IH]; simpl; [done|].
  destruct (decide (k = k')); [done|apply IH].
Qed.

Lemma values_map_values f m : values (map_values f m) = f <$> values m.
Proof.
  unfold values, map_values. rewrite <- !list_fmap_compose.
  apply list_fmap_ext. by intros ? [??].
Qed.

Lemma get_Some_values k v m : get k m = Some v -> v ∈ values m.
Proof.
  induction m as [|[k' v'] m IH]; simpl; [done|].
  destruct (decide (k = k')).
  - intros [= ->]. apply list_elem_of_here.
  - intros H. apply list_elem_of_further, IH, H.
Qed.

Lemma values_set_fresh k v m :
  get k m = None -> values (set k v m) = values m ++ [v].
Proof.
  induction m as [|[k' v'] m IH]; simpl; [done|].
  destruct (decide (k = k')); [done|].
  intros H. unfold values. cbn. f_equal. by apply IH.
Qed.

End JsMapFacts.

(** ** The document *)

Section DocumentFacts.
Import Document.
Context `{VE : ViewEngine}.
Implicit Types (d : Document) (o : Observer).

Ltac js_unfold :=
  unfold render, createRoot, attachDomRoot, onChange, call, bind, modify,
    gets, ret, throw in *; simpl in *.

Lemma observers_map_values f d :
  observers (set_observers (JsMap.map_values f) d) = f <$> observers d.
Proof. unfold observers. simpl. apply values_map_values. Qed.

Lemma Forall_fmap_enable (l : list Observer) :
  Forall (fun o => isEnabled o = true) (enable <$> l).
Proof. induction l; constructor; auto. Qed.

Lemma Forall_fmap_disable (l : list Observer) :
  Forall (fun o => isEnabled o = false) (disable <$> l).
Proof. induction l; constructor; auto. Qed.

Lemma enable_disable o : enable (disable o) = enable o.
Proof. by destruct o. Qed.

(** What [render] does, by the outcome of the reconciliation. *)
Lemma render_outcome d :
  render d =
  match rendererRender (engine d) with
  | (None, e) =>
      Normal tt (set_engine e (set_observers (JsMap.map_values enable) d))
  | (Some err, e) =>
      Throw err (set_engine e (set_observers (JsMap.map_values disable) d))
  end.
Proof.
  js_unfold. destruct (rendererRender (engine d)) as [[err|] e]; simpl.
  - reflexivity.
  - f_equal. unfold set_observers, set_engine. simpl. f_equal.
    unfold JsMap.map_values. rewrite <- list_fmap_compose.
    apply list_fmap_ext. intros ? [k o]. simpl. unfold prod_map. simpl.
    by rewrite enable_disable.
Qed.

(** Every method leaves a state behind: no call into a collaborator loops
    in the model. *)
Lemma attachDomRoot_final el name d :
  exists e,
    final_state (attachDomRoot el name d) =
    Some (set_engine e
            (set_observers
               (if returns (attachDomRoot el name d)
                then JsMap.map_values (observe el (rootName name)) else id)
               (set_domRoots (JsMap.set (rootName name) el) d))).
Proof.
  js_unfold.
  destruct (bindElements el (getRoot name d) (engine d)) as [[err|] e1]; simpl.
  { eexists. reflexivity. }
  destruct (markToSync CHILDREN (getRoot name d) e1) as [[err|] e2]; simpl.
  { eexists. reflexivity. }
  eexists. reflexivity.
Qed.

Lemma createRoot_final r name d :
  exists d',
    final_state (createRoot r name d) = Some d' /\
    viewRoots d' =
      <[rootName name :=
          {| name := match r with TagName t => t | DomElement el => tagName el end;
             viewId := allocated d |}]> (viewRoots d) /\
    (forall k, JsMap.get k (_observers d) = None ->
               JsMap.get k (_observers d') = None).
Proof.
  destruct r as [tag|el].
  - js_unfold. eexists. split; [reflexivity|]. split; [reflexivity|]. auto.
  - unfold createRoot, bind at 1 2 3 4, gets at 1, modify at 1 2. simpl.
    set (d1 := set_viewRoots _ _).
    destruct (attachDomRoot_final el name d1) as [e He].
    destruct (attachDomRoot el name d1) as [[] d2|err d2|] eqn:Hat;
      simpl in He; inversion He; subst; simpl.
    + eexists. split; [reflexivity|]. split; [reflexivity|].
      intros k Hk. subst d1. simpl. rewrite get_map_values, Hk. reflexivity.
    + eexists. split; [reflexivity|]. split; [reflexivity|]. auto.
Qed.

Lemma perform_keeps_unregistered T c d :
  c <> CallAddObserver T ->
  getObserver T d = None -> getObserver T (perform d c) = None.
Proof.
  unfold getObserver. intros Hc Hd. destruct c as [T'|r n|el n|]; simpl.
  - unfold addObserver.
    destruct (JsMap.get T' (_observers d)) eqn:HT'; simpl; [done|].
    rewrite get_set_ne by congruence. rewrite get_set_ne by congruence. done.
  - destruct (createRoot_final r n d) as (d' & Hf & _ & Hobs).
    unfold after. rewrite Hf. simpl. auto.
  - destruct (attachDomRoot_final el n d) as [e Hf].
    unfold after. rewrite Hf. simpl.
    destruct (returns _); simpl; [|done].
    by rewrite get_map_values, Hd.
  - unfold after. rewrite render_outcome.
    destruct (rendererRender (engine d)) as [[err|] e]; simpl;
      by rewrite get_map_values, Hd.
Qed.

Lemma never_registered_from T cs : forall d,
  CallAddObserver T ∉ cs ->
  getObserver T d = None -> getObserver T (foldl perform d cs) = None.
Proof.
  induction cs as [|c cs IH]; intros d Hnot Hd; simpl; [done|].
  apply IH.
  - intros Hin. apply Hnot. by apply list_elem_of_further.
  - apply perform_keeps_unregistered; [|done].
    intros ->. apply Hnot. apply list_elem_of_here.
Qed.

Lemma foldl_observe_roots (roots : list (string * HTMLElement)) o :
  observedRoots
    (foldl (fun o '(name, domElement) => observe domElement name o) o roots) =
  observedRoots o ++ ((fun p => (p.2, p.1)) <$> roots).
Proof.
  revert o. induction roots as [|[n el] roots IH]; intros o; simpl.
  - by rewrite app_nil_r.
  - rewrite IH. simpl. by rewrite <- app_assoc.
Qed.

Lemma foldl_observe_fields (roots : list (string * HTMLElement)) o :
  let o' := foldl (fun o '(name, domElement) => observe domElement name o) o roots in
  observerClass o' = observerClass o /\ instanceId o' = instanceId o /\
  isEnabled o' = isEnabled o.
Proof.
  revert o. induction roots as [|[n el] roots IH]; intros o; simpl; [done|].
  destruct (IH (observe el n o)) as (H1 & H2 & H3). simpl in *. auto.
Qed.

End DocumentFacts.

Section DocumentClaims.
Import Document.
Context `{VE : ViewEngine}.
Implicit Types (d : Document) (o : Observer).

(** C1, as amended.  [render] disables every observer, then calls the
    renderer.  When the reconciliation returns, [render] returns and every
    observer is enabled.  When the reconciliation throws, the exception
    leaves [render] at once: the third statement is not reached and every
    observer stays disabled. *)
Theorem render_bracket_by_outcome d :
  match rendererRender (engine d) with
  | (None, e) =>
      exists d', render d = Normal tt d' /\ engine d' = e /\
        observers d' = enable <$> observers d /\
        Forall (fun o => isEnabled o = true) (observers d')
  | (Some err, e) =>
      exists d', render d = Throw err d' /\ engine d' = e /\
        observers d' = disable <$> observers d /\
        Forall (fun o => isEnabled o = false) (observers d')
  end.
Proof.
  rewrite render_outcome.
  destruct (rendererRender (engine d)) as [[err|] e].
  - eexists. split; [reflexivity|]. split; [reflexivity|].
    assert (Hobs : observers
              (set_engine e (set_observers (JsMap.map_values disable) d)) =
            disable <$> observers d) by apply observers_map_values.
    split; [exact Hobs|]. rewrite Hobs. apply Forall_fmap_disable.
  - eexists. split; [reflexivity|]. split; [reflexivity|].
    assert (Hobs : observers
              (set_engine e (set_observers (JsMap.map_values enable) d)) =
            enable <$> observers d) by apply observers_map_values.
    split; [exact Hobs|]. rewrite Hobs. apply Forall_fmap_enable.
Qed.

(** C4, as amended.  [createRoot] does not look at the registry before it
    writes to it.  Whether or not the name is registered, the new root
    takes the place under that name, every other name keeps its root, and
    with a tag name as first argument the call returns the new root. *)
Theorem createRoot_replaces_registered_root (r : RootArgument) name d :
  let viewRoot :=
    {| name := match r with TagName t => t | DomElement el => tagName el end;
       viewId := allocated d |} in
  exists d',
    final_state (createRoot r name d) = Some d' /\
    getRoot name d' = Some viewRoot /\
    (forall other, rootName other <> rootName name ->
                   getRoot other d' = getRoot other d) /\
    (forall tag, r = TagName tag -> createRoot r name d = Normal viewRoot d').
Proof.
  intros viewRoot.
  destruct (createRoot_final r name d) as (d' & Hf & Hroots & _).
  exists d'. split; [exact Hf|]. unfold getRoot. rewrite Hroots.
  split; [apply lookup_insert_eq|]. split.
  - intros other Hne. by rewrite lookup_insert_ne.
  - intros tag ->. unfold createRoot, bind, gets, modify, ret in *.
    simpl in *. by inversion Hf.
Qed.


(** C6.  The first [addObserver( T )] makes one new observer, attaches it to
    every DOM root the document has, in their order, enables it and caches
    it under [T], leaving the other observers alone.  Once an observer is
    cached under [T], [addObserver( T )] returns that very observer and
    changes nothing in the document: nothing is made, attached or enabled,
    also when the cached observer is disabled at that time.
    [getObserver( T )] is [undefined] after every history of calls in which
    [T] was never added. *)
Theorem addObserver_once_per_class (T : nat) d :
  (getObserver T d = None ->
   exists o d',
     addObserver T d = Normal o d' /\
     getObserver T d' = Some o /\
     observerClass o = T /\ instanceId o = allocated d /\
     allocated d' = S (allocated d) /\
     isEnabled o = true /\
     observedRoots o = (fun p => (p.2, p.1)) <$> domRoots d /\
     (forall T', T' <> T -> getObserver T' d' = getObserver T' d) /\
     addObserver T d' = Normal o d') /\
  (forall o, getObserver T d = Some o -> addObserver T d = Normal o d) /\
  (forall cs, CallAddObserver T ∉ cs -> getObserver T (history cs) = None).
Proof.
  split; [|split].
  - unfold getObserver, addObserver. intros Hnone. rewrite Hnone.
    eexists _, _. split; [reflexivity|]. simpl.
    rewrite !get_set_eq.
    destruct (foldl_observe_fields (domRoots d) (new_Observer T (allocated d)))
      as (Hc & Hi & _). simpl in Hc, Hi.
    repeat split; try done.
    + by rewrite foldl_observe_roots.
    + intros T' Hne. rewrite !get_set_ne by congruence. done.
  - unfold getObserver, addObserver. intros o Ho. by rewrite Ho.
  - intros cs Hcs. apply never_registered_from; [exact Hcs|reflexivity].
Qed.

End DocumentClaims.

(** *** The document on concrete engines *)

Module DocumentExamples.
Import Document Examples.

(** C1, counterexample.  A document with one observer on an engine whose
    reconciliation throws: [render] throws, and the observer that was
    enabled before the call is disabled after it. *)
Lemma render_throw_leaves_observer_disabled :
  let d := history (VE := throwingRenderer) [CallAddObserver 7] in
  observers d = [cachedObserver true []] /\
  exists d',
    render d = Throw (HostError "reconciliation failed") d' /\
    observers d' = [cachedObserver false []].
Proof. split; [reflexivity|]. eexists. split; reflexivity. Qed.

(** C4, counterexample.  The name ["main"] holds a [div] root; a second
    [createRoot] under the same name returns a [p] root without an error
    and ["main"] now names the [p] root. *)
Lemma createRoot_twice_overwrites :
  let d := history (VE := quietEngine) [CallCreateRoot (TagName "div") None] in
  let p := {| name := "p"; viewId := 1 |} in
  getRoot None d = Some {| name := "div"; viewId := 0 |} /\
  exists d',
    createRoot (TagName "p") (Some "main"%string) d = Normal p d' /\
    getRoot None d' = Some p.
Proof.
  split; [reflexivity|]. eexists. split; [vm_compute; reflexivity|].
  vm_compute. reflexivity.
Qed.


(** On an engine that accepts [undefined] the call returns, with the same
    pairing. *)
Lemma attachDomRoot_without_view_root_returns :
  exists d',
    attachDomRoot editable None (newDocument (VE := quietEngine)) =
      Normal tt d' /\
    getDomRoot None d' = Some editable /\
    getRoot None d' = None.
Proof. eexists. split; [reflexivity|]. split; reflexivity. Qed.


Lemma addObserver_once_per_class_witness :
  let d := history (VE := quietEngine)
             [CallCreateRoot (DomElement editable) None] in
  getObserver 7 d = None /\
  exists o d',
    addObserver 7 d = Normal o d' /\
    observedRoots o = [(editable, "main"%string)] /\
    addObserver 7 d' = Normal o d'.
Proof.
  intros d. split; [reflexivity|].
  destruct (addObserver_once_per_class (VE := quietEngine) 7 d) as [Hfirst _].
  destruct Hfirst as (o & d' & Hadd & _ & _ & _ & _ & _ & Hroots & _ & Hagain);
    [reflexivity|].
  exists o, d'. split; [exact Hadd|]. split; [exact Hroots|exact Hagain].
Defined.

End DocumentExamples.

(** ** The document over histories of calls *)

Section DocumentHistories.
Import Document.
Context `{VE : ViewEngine}.
Implicit Types (d : Document) (o : Observer).

(** What [attachDomRoot] does, by the answers of the converter and of the
    renderer. *)
Lemma attachDomRoot_outcome el name d :
  attachDomRoot el name d =
  let d1 := set_domRoots (JsMap.set (rootName name) el) d in
  match bindElements el (getRoot name d) (engine d) with
  | (Some err, e1) => Throw err (set_engine e1 d1)
  | (None, e1) =>
      match markToSync CHILDREN (getRoot name d) e1 with
      | (Some err, e2) => Throw err (set_engine e2 d1)
      | (None, e2) =>
          Normal tt
            (set_observers (JsMap.map_values (observe el (rootName name)))
               (set_engine e2 d1))
      end
  end.
Proof.
  unfold attachDomRoot, call, bind, modify, gets, ret. simpl.
  destruct (bindElements el (getRoot name d) (engine d)) as [[err|] e1];
    simpl; [done|].
  by destruct (markToSync CHILDREN (getRoot name d) e1) as [[err|] e2].
Qed.

Lemma createRoot_DomElement el name d :
  createRoot (DomElement el) name d =
  let viewRoot := {| name := tagName el; viewId := allocated d |} in
  match attachDomRoot el name
          (set_viewRoots (insert (rootName name) viewRoot) (allocate d)) with
  | Normal _ d' => Normal viewRoot d'
  | Throw e d' => Throw e d'
  | Diverge => Diverge
  end.
Proof. reflexivity. Qed.

(** X1.  [attachDomRoot( domRoot, name )] on any document.  The call ends,
    by a return or by an exception, and either way the DOM root is recorded
    under the name, the DOM roots under other names and all view roots are
    as before.  It returns exactly when the converter and the renderer
    accept the view root of that name (or [undefined], when there is
    none).  When it returns, every registered observer has been attached to
    the new DOM root; when it throws, no observer has been attached to the
    root that is now recorded. *)
Theorem attachDomRoot_attaches_observers_on_return (domRoot : HTMLElement) name d :
  let viewRoot := getRoot name d in
  let bound := bindElements domRoot viewRoot (engine d) in
  let marked := markToSync CHILDREN viewRoot bound.2 in
  exists d',
    final_state (attachDomRoot domRoot name d) = Some d' /\
    getDomRoot name d' = Some domRoot /\
    (forall other, rootName other <> rootName name ->
                   getDomRoot other d' = getDomRoot other d) /\
    (forall other, getRoot other d' = getRoot other d) /\
    (returns (attachDomRoot domRoot name d) = true <->
     bound.1 = None /\ marked.1 = None) /\
    observers d' =
      (if returns (attachDomRoot domRoot name d)
       then observe domRoot (rootName name) <$> observers d
       else observers d).
Proof.
  intros viewRoot bound marked. subst viewRoot bound marked.
  rewrite attachDomRoot_outcome. cbv zeta.
  destruct (bindElements domRoot (getRoot name d) (engine d)) as [[err|] e1];
    simpl.
  { eexists. split; [reflexivity|]. unfold getDomRoot, getRoot. simpl.
    rewrite get_set_eq. split; [done|]. split.
    { intros other Hne. by rewrite get_set_ne. }
    split; [done|]. split; [|done]. split; [done|]. by intros [? _]. }
  destruct (markToSync CHILDREN (getRoot name d) e1) as [[err|] e2]; simpl.
  { eexists. split; [reflexivity|]. unfold getDomRoot, getRoot. simpl.
    rewrite get_set_eq. split; [done|]. split.
    { intros other Hne. by rewrite get_set_ne. }
    split; [done|]. split; [|done]. split; [done|]. by intros [_ ?]. }
  eexists. split; [reflexivity|]. unfold getDomRoot, getRoot. simpl.
  rewrite get_set_eq. split; [done|]. split.
  { intros other Hne. by rewrite get_set_ne. }
  split; [done|]. split; [done|].
  unfold observers. simpl. apply values_map_values.
Qed.

(** X2.  [createRoot( domRoot, name )] with a DOM element.  The converter
    and the renderer are handed the root that this call has made, also
    when the name held another root before.  The call ends with the new
    view root and the DOM element both registered under the name; it
    returns the new root exactly when the converter and the renderer accept
    it, and then every registered observer is attached to the element. *)
Theorem createRoot_attaches_new_root (el : HTMLElement) name d :
  let viewRoot := {| name := tagName el; viewId := allocated d |} in
  let bound := bindElements el (Some viewRoot) (engine d) in
  let marked := markToSync CHILDREN (Some viewRoot) bound.2 in
  exists d',
    final_state (createRoot (DomElement el) name d) = Some d' /\
    getRoot name d' = Some viewRoot /\
    getDomRoot name d' = Some el /\
    (returns (createRoot (DomElement el) name d) = true <->
     bound.1 = None /\ marked.1 = None) /\
    (bound.1 = None -> marked.1 = None ->
     createRoot (DomElement el) name d = Normal viewRoot d' /\
     engine d' = marked.2 /\
     observers d' = observe el (rootName name) <$> observers d).
Proof.
  intros viewRoot bound marked. subst bound marked.
  rewrite createRoot_DomElement. cbv zeta. rewrite attachDomRoot_outcome. cbv zeta.
  fold viewRoot.
  replace (getRoot name
             (set_viewRoots <[rootName name:=viewRoot]> (allocate d)))
    with (Some viewRoot) by (unfold getRoot; simpl; by rewrite lookup_insert_eq).
  change (engine (set_viewRoots <[rootName name:=viewRoot]> (allocate d)))
    with (engine d).
  destruct (bindElements el (Some viewRoot) (engine d)) as [[err|] e1]; simpl.
  { eexists. split; [reflexivity|]. unfold getDomRoot, getRoot. simpl.
    rewrite get_set_eq, lookup_insert_eq. split; [done|]. split; [done|].
    split; [|done]. split; [done|]. by intros [? _]. }
  destruct (markToSync CHILDREN (Some viewRoot) e1) as [[err|] e2]; simpl.
  { eexists. split; [reflexivity|]. unfold getDomRoot, getRoot. simpl.
    rewrite get_set_eq, lookup_insert_eq. split; [done|]. split; [done|].
    split; [|done]. split; [done|]. by intros [_ ?]. }
  eexists. split; [reflexivity|]. unfold getDomRoot, getRoot. simpl.
  rewrite get_set_eq, lookup_insert_eq. split; [done|]. split; [done|].
  split; [done|]. intros _ _. split; [done|]. split; [done|].
  unfold observers. simpl. apply values_map_values.
Qed.

Lemma values_set_again (T : nat) o o' (m : list (nat * Observer)) :
  JsMap.values (JsMap.set T o' (JsMap.set T o m)) =
  JsMap.values (JsMap.set T o' m).
Proof.
  induction m as [|[k x] m IH]; simpl.
  - by rewrite decide_True.
  - destruct (decide (T = k)); simpl.
    + by rewrite decide_True.
    + rewrite decide_False by done. unfold JsMap.values in *. cbn.
      by rewrite IH.
Qed.

Lemma addObserver_observers T d :
  getObserver T d = None ->
  exists o d',
    addObserver T d = Normal o d' /\ isEnabled o = true /\
    observedRoots o = (fun p => (p.2, p.1)) <$> domRoots d /\
    domRoots d' = domRoots d /\
    observers d' = observers d ++ [o] /\
    getObserver T d' = Some o /\
    (forall T', T' <> T -> getObserver T' d' = getObserver T' d).
Proof.
  unfold getObserver, addObserver. intros Hnone. rewrite Hnone.
  eexists _, _. split; [reflexivity|]. simpl.
  split; [done|]. split; [by rewrite foldl_observe_roots|]. split; [done|].
  split.
  { unfold observers. simpl. rewrite values_set_again.
    by apply values_set_fresh. }
  split; [by rewrite get_set_eq|].
  intros T' Hne. rewrite !get_set_ne by congruence. done.
Qed.

(** The observers and the DOM roots after one call. *)
Lemma perform_cases d (c : Call) :
  let d' := perform d c in
  match c with
  | CallAddObserver T =>
      match getObserver T d with
      | Some _ => d' = d
      | None =>
          exists o,
            isEnabled o = true /\
            observedRoots o = (fun p => (p.2, p.1)) <$> domRoots d /\
            domRoots d' = domRoots d /\
            observers d' = observers d ++ [o] /\
            getObserver T d' = Some o /\
            (forall T', T' <> T -> getObserver T' d' = getObserver T' d)
      end
  | CallCreateRoot (TagName _) _ =>
      domRoots d' = domRoots d /\ _observers d' = _observers d
  | CallCreateRoot (DomElement el) name | CallAttachDomRoot el name =>
      domRoots d' = JsMap.set (rootName name) el (domRoots d) /\
      (_observers d' = _observers d \/
       _observers d' =
         JsMap.map_values (observe el (rootName name)) (_observers d))
  | CallRender =>
      domRoots d' = domRoots d /\
      _observers d' =
        JsMap.map_values
          (match (rendererRender (engine d)).1 with
           | Some _ => disable
           | None => enable
           end)
          (_observers d)
  end.
Proof.
  destruct c as [T|[tag|el] name|el name|]; simpl.
  - destruct (getObserver T d) as [o|] eqn:Hget.
    + unfold addObserver. unfold getObserver in Hget. by rewrite Hget.
    + destruct (addObserver_observers T d Hget) as (o & d' & -> & H).
      by exists o.
  - done.
  - rewrite createRoot_DomElement. cbv zeta. rewrite attachDomRoot_outcome.
    cbv zeta.
    destruct (bindElements _ _ _) as [[err|] e1]; simpl; [by auto|].
    destruct (markToSync _ _ _) as [[err|] e2]; simpl; by auto.
  - rewrite attachDomRoot_outcome. cbv zeta.
    destruct (bindElements _ _ _) as [[err|] e1]; simpl; [by auto|].
    destruct (markToSync _ _ _) as [[err|] e2]; simpl; by auto.
  - rewrite render_outcome.
    by destruct (rendererRender (engine d)) as [[err|] e].
Qed.

Lemma Forall_values_map_values (P : Observer -> Prop) f (m : list (nat * Observer)) :
  (forall o, P o -> P (f o)) ->
  Forall P (JsMap.values m) -> Forall P (JsMap.values (JsMap.map_values f m)).
Proof.
  intros Hf Hm. rewrite values_map_values. rewrite Forall_fmap.
  eapply Forall_impl; [exact Hm|]. exact Hf.
Qed.

Lemma get_Some_elem {V} (k : string) (x : V) (m : list (string * V)) :
  JsMap.get k m = Some x -> (k, x) ∈ m.
Proof.
  induction m as [|[k' x'] m IH]; simpl; [done|].
  destruct (decide (k = k')) as [->|].
  - intros [= ->]. apply list_elem_of_here.
  - intros H. apply list_elem_of_further, IH, H.
Qed.

(** X3.  Enablement over histories of calls.  An observer is enabled when
    it is added, and nothing but [render] changes enablement.  So after any
    calls in which no [render] threw (here: none ran, or the renderer never
    throws), every registered observer is enabled. *)
Theorem observers_enabled_unless_render_throws (cs : list Call) :
  (CallRender ∈ cs -> forall e, (rendererRender e).1 = None) ->
  Forall (fun o => isEnabled o = true) (observers (history cs)).
Proof.
  unfold history.
  assert (Hgen : forall d,
    (CallRender ∈ cs -> forall e, (rendererRender e).1 = None) ->
    Forall (fun o => isEnabled o = true) (observers d) ->
    Forall (fun o => isEnabled o = true) (observers (foldl perform d cs))).
  { induction cs as [|c cs IH]; intros d Hr Hd; simpl; [done|].
    apply IH.
    { intros Hin. apply Hr. by apply list_elem_of_further. }
    pose proof (perform_cases d c) as Hc. cbv zeta in Hc.
    destruct c as [T|[tag|el] name|el name|].
    - destruct (getObserver T d); [by rewrite Hc|].
      destruct Hc as (o & Ho & _ & _ & -> & _).
      apply Forall_app. split; [done|]. by constructor.
    - destruct Hc as [_ Hobs]. unfold observers. by rewrite Hobs.
    - destruct Hc as [_ [Hobs|Hobs]]; unfold observers; rewrite Hobs; [done|].
      by apply Forall_values_map_values.
    - destruct Hc as [_ [Hobs|Hobs]]; unfold observers; rewrite Hobs; [done|].
      by apply Forall_values_map_values.
    - destruct Hc as [_ Hobs]. unfold observers. rewrite Hobs.
      rewrite (Hr (list_elem_of_here _ _) (engine d)).
      rewrite values_map_values. apply Forall_fmap_enable. }
  intros Hr. apply Hgen; [exact Hr|]. constructor.
Qed.

(** X4.  "Attaches to all existing and future DOM roots."  When the
    converter and the renderer never throw, then after any calls every
    registered observer has been attached to every DOM root that the
    document holds, under the name the root is held under. *)
Theorem observers_cover_dom_roots (cs : list Call) T o name el :
  (forall el r e, (bindElements el r e).1 = None) ->
  (forall t r e, (markToSync t r e).1 = None) ->
  getObserver T (history cs) = Some o ->
  getDomRoot (Some name) (history cs) = Some el ->
  (el, name) ∈ observedRoots o.
Proof.
  intros Hbind Hmark. unfold history, getObserver, getDomRoot. simpl.
  assert (Hattach : forall el0 n0 d,
    attachDomRoot el0 n0 d =
    Normal tt
      (set_observers (JsMap.map_values (observe el0 (rootName n0)))
         (set_engine
            (markToSync CHILDREN (getRoot n0 d)
               (bindElements el0 (getRoot n0 d) (engine d)).2).2
            (set_domRoots (JsMap.set (rootName n0) el0) d)))).
  { intros el0 n0 d. rewrite attachDomRoot_outcome. cbv zeta.
    pose proof (Hbind el0 (getRoot n0 d) (engine d)) as Hb.
    destruct (bindElements el0 (getRoot n0 d) (engine d)) as [b e1].
    simpl in Hb. subst b. simpl.
    pose proof (Hmark CHILDREN (getRoot n0 d) e1) as Hm.
    destruct (markToSync CHILDREN (getRoot n0 d) e1) as [b e2].
    simpl in Hm. by subst b. }
  set (Inv := fun d : Document => forall T o name el,
    JsMap.get T (_observers d) = Some o ->
    JsMap.get name (domRoots d) = Some el -> (el, name) ∈ observedRoots o).
  assert (Hattached : forall el0 n0 d (f : Document -> Document),
    _observers (f d) = _observers d -> domRoots (f d) = domRoots d ->
    Inv d ->
    Inv (set_observers (JsMap.map_values (observe el0 n0))
           (set_domRoots (JsMap.set n0 el0) (f d)))).
  { intros el0 n0 d f Hfo Hfd Hd T1 o1 name1 el1. simpl.
    rewrite Hfo, Hfd, get_map_values.
    destruct (JsMap.get T1 (_observers d)) as [o0|] eqn:Ho0; [|done].
    intros [= <-]. simpl. intros Hroot. apply elem_of_app.
    destruct (decide (n0 = name1)) as [->|Hne].
    - rewrite get_set_eq in Hroot. injection Hroot as ->. right.
      apply list_elem_of_here.
    - rewrite get_set_ne in Hroot by done. left. by eapply Hd. }
  assert (Hgen : forall d, Inv d -> Inv (foldl perform d cs)).
  { induction cs as [|c cs IH]; intros d Hd; simpl; [done|].
    apply IH.
    destruct c as [T0|[tag|el0] n0|el0 n0|]; simpl.
    - pose proof (perform_cases d (CallAddObserver T0)) as Hc.
      cbv zeta in Hc. simpl in Hc.
      destruct (getObserver T0 d) as [o0|] eqn:Hget; [by rewrite Hc|].
      destruct Hc as (o0 & _ & Hroots & Hdom & _ & Hnew & Hother).
      intros T1 o1 name1 el1 Ho1 Hroot. rewrite Hdom in Hroot.
      destruct (decide (T1 = T0)) as [->|Hne].
      + unfold getObserver in Hnew. rewrite Hnew in Ho1. injection Ho1 as <-.
        rewrite Hroots. apply list_elem_of_fmap.
        exists (name1, el1). split; [done|]. by apply get_Some_elem.
      + specialize (Hother T1 Hne). unfold getObserver in Hother.
        rewrite Hother in Ho1. by eapply Hd.
    - exact Hd.
    - rewrite createRoot_DomElement. cbv zeta. rewrite Hattach. simpl.
      apply (Hattached el0 (rootName n0) d
               (fun d => set_engine _
                  (set_viewRoots _ (allocate d)))); done.
    - rewrite Hattach. simpl.
      apply (Hattached el0 (rootName n0) d (fun d => set_engine _ d)); done.
    - rewrite render_outcome.
      destruct (rendererRender (engine d)) as [[err|] e]; simpl.
      all: intros T1 o1 name1 el1; simpl; rewrite get_map_values.
      all: destruct (JsMap.get T1 (_observers d)) as [o0|] eqn:Ho0; [|done].
      all: intros [= <-]; simpl; by eapply Hd. }
  intros Ho Hroot. eapply Hgen; [|exact Ho|exact Hroot].
  by intros ? ? ? ? ?.
Qed.

Lemma perform_viewRoots d (c : Call) :
  viewRoots (perform d c) =
  match c with
  | CallCreateRoot r name =>
      <[rootName name :=
          {| name := match r with TagName t => t | DomElement el => tagName el end;
             viewId := allocated d |}]> (viewRoots d)
  | _ => viewRoots d
  end.
Proof.
  destruct c as [T|r name|el name|]; simpl.
  - unfold addObserver. by destruct (JsMap.get T (_observers d)).
  - destruct (createRoot_final r name d) as (d' & Hf & Hroots & _).
    unfold after. by rewrite Hf.
  - rewrite attachDomRoot_outcome. cbv zeta.
    destruct (bindElements _ _ _) as [[err|] e1]; simpl; [done|].
    by destruct (markToSync _ _ _) as [[err|] e2].
  - rewrite render_outcome.
    by destruct (rendererRender (engine d)) as [[err|] e].
Qed.

(** X5.  [getRoot( name )] is [undefined] as long as no [createRoot] has
    been called with that name, and [getDomRoot( name )] is [undefined] as
    long as neither [attachDomRoot] nor [createRoot] with a DOM element has
    been called with it; a call left without a name counts as ["main"]. *)
Theorem roots_unknown_until_registered (cs : list Call) n :
  (Forall (fun c => ~ creates n c) cs ->
   getRoot (Some n) (history cs) = None) /\
  (Forall (fun c => ~ attaches n c) cs ->
   getDomRoot (Some n) (history cs) = None).
Proof.
  unfold history, getRoot, getDomRoot. simpl. split.
  - assert (Hgen : forall d,
      Forall (fun c => ~ creates n c) cs ->
      viewRoots d !! n = None -> viewRoots (foldl perform d cs) !! n = None).
    { induction cs as [|c cs IH]; intros d Hcs Hd; simpl; [done|].
      apply Forall_cons in Hcs as [Hc Hcs]. apply IH; [done|].
      rewrite perform_viewRoots.
      destruct c as [T|r name|el name|]; try done.
      rewrite lookup_insert_ne; [done|]. exact Hc. }
    intros Hcs. by apply Hgen.
  - assert (Hgen : forall d,
      Forall (fun c => ~ attaches n c) cs ->
      JsMap.get n (domRoots d) = None ->
      JsMap.get n (domRoots (foldl perform d cs)) = None).
    { induction cs as [|c cs IH]; intros d Hcs Hd; simpl; [done|].
      apply Forall_cons in Hcs as [Hc Hcs]. apply IH; [done|].
      pose proof (perform_cases d c) as Hp. cbv zeta in Hp.
      destruct c as [T|[tag|el] name|el name|].
      - destruct (getObserver T d); [by rewrite Hp|].
        destruct Hp as (o & _ & _ & -> & _). done.
      - by destruct Hp as [-> _].
      - destruct Hp as [-> _]. by rewrite get_set_ne.
      - destruct Hp as [-> _]. by rewrite get_set_ne.
      - by destruct Hp as [-> _]. }
    intros Hcs. by apply Hgen.
Qed.

Lemma get_set_is_Some {V} (k k' : string) (x : V) (m : list (string * V)) :
  is_Some (JsMap.get k' m) -> is_Some (JsMap.get k' (JsMap.set k x m)).
Proof.
  intros Hm. destruct (decide (k = k')) as [->|Hne].
  - rewrite get_set_eq. by eexists.
  - by rewrite get_set_ne.
Qed.

(** X6.  Nothing is ever unregistered.  Whatever calls follow: a name that
    has a view root keeps one, a name that has a DOM root keeps one, and an
    observer class that has an observer keeps that very instance, which
    keeps every root that it has been attached to. *)
Theorem registrations_are_permanent (cs : list Call) d :
  let d' := foldl perform d cs in
  (forall n, is_Some (getRoot n d) -> is_Some (getRoot n d')) /\
  (forall n, is_Some (getDomRoot n d) -> is_Some (getDomRoot n d')) /\
  (forall T o, getObserver T d = Some o ->
     exists o',
       getObserver T d' = Some o' /\
       observerClass o' = observerClass o /\
       instanceId o' = instanceId o /\
       observedRoots o `prefix_of` observedRoots o').
Proof.
  revert d. induction cs as [|c cs IH]; intros d; simpl.
  { split; [done|]. split; [done|]. intros T o Ho. by exists o. }
  destruct (IH (perform d c)) as (Hroots & Hdom & Hobs).
  split; [|split].
  - intros n Hn. apply Hroots. unfold getRoot. rewrite perform_viewRoots.
    destruct c as [T|r name|el name|]; try done.
    destruct (decide (rootName name = rootName n)) as [->|Hne].
    + rewrite lookup_insert_eq. by eexists.
    + by rewrite lookup_insert_ne.
  - intros n Hn. apply Hdom. unfold getDomRoot in *.
    pose proof (perform_cases d c) as Hp. cbv zeta in Hp.
    destruct c as [T|[tag|el] name|el name|].
    + destruct (getObserver T d); [by rewrite Hp|].
      destruct Hp as (o & _ & _ & -> & _). done.
    + by destruct Hp as [-> _].
    + destruct Hp as [-> _]. by apply get_set_is_Some.
    + destruct Hp as [-> _]. by apply get_set_is_Some.
    + by destruct Hp as [-> _].
  - intros T o Ho.
    assert (Hstep : exists o1,
      getObserver T (perform d c) = Some o1 /\
      observerClass o1 = observerClass o /\ instanceId o1 = instanceId o /\
      observedRoots o `prefix_of` observedRoots o1).
    { unfold getObserver in Ho |- *.
      pose proof (perform_cases d c) as Hp. cbv zeta in Hp.
      assert (Hmap : forall f : Observer -> Observer,
        (forall o, observerClass (f o) = observerClass o /\
                   instanceId (f o) = instanceId o /\
                   observedRoots o `prefix_of` observedRoots (f o)) ->
        _observers (perform d c) = JsMap.map_values f (_observers d) ->
        exists o1,
          JsMap.get T (_observers (perform d c)) = Some o1 /\
          observerClass o1 = observerClass o /\ instanceId o1 = instanceId o /\
          observedRoots o `prefix_of` observedRoots o1).
      { intros f Hf ->. rewrite get_map_values, Ho. simpl.
        exists (f o). split; [done|]. apply Hf. }
      assert (Hsame : _observers (perform d c) = _observers d ->
        exists o1,
          JsMap.get T (_observers (perform d c)) = Some o1 /\
          observerClass o1 = observerClass o /\ instanceId o1 = instanceId o /\
          observedRoots o `prefix_of` observedRoots o1).
      { intros ->. by exists o. }
      assert (Hobserve : forall el n o,
        observerClass (observe el n o) = observerClass o /\
        instanceId (observe el n o) = instanceId o /\
        observedRoots o `prefix_of` observedRoots (observe el n o)).
      { intros el n o0. split; [done|]. split; [done|]. simpl.
        by apply prefix_app_r. }
      destruct c as [T0|[tag|el] name|el name|].
      - destruct (getObserver T0 d) as [o0|] eqn:Hget.
        { apply Hsame. by rewrite Hp. }
        destruct Hp as (o0 & _ & _ & _ & _ & _ & Hother).
        destruct (decide (T = T0)) as [->|Hne].
        { unfold getObserver in Hget. congruence. }
        specialize (Hother T Hne). unfold getObserver in Hother.
        rewrite Hother, Ho. by exists o.
      - destruct Hp as [_ Hp]. by apply Hsame.
      - destruct Hp as [_ [Hp|Hp]]; [by apply Hsame|].
        by apply (Hmap (observe el (rootName name))).
      - destruct Hp as [_ [Hp|Hp]]; [by apply Hsame|].
        by apply (Hmap (observe el (rootName name))).
      - destruct Hp as [_ Hp].
        destruct (rendererRender (engine d)).1.
        + by apply (Hmap disable).
        + by apply (Hmap enable). }
    destruct Hstep as (o1 & Ho1 & Hc1 & Hi1 & Hp1).
    destruct (Hobs T o1 Ho1) as (o' & Ho' & Hc' & Hi' & Hp').
    exists o'. split; [done|]. split; [congruence|]. split; [congruence|].
    by etrans.
Qed.

End DocumentHistories.

(** *** Histories on concrete engines *)

Module DocumentScenarios.
Import Document Examples.

Lemma observers_enabled_witness :
  Forall (fun o => isEnabled o = true)
    (observers (history (VE := quietEngine)
                  [CallAddObserver 7; CallRender; CallAddObserver 8])).
Proof.
  apply (observers_enabled_unless_render_throws (VE := quietEngine)).
  intros _ e. reflexivity.
Defined.

Lemma observers_cover_dom_roots_witness :
  let d := history (VE := quietEngine)
             [CallAddObserver 7; CallCreateRoot (DomElement editable) None] in
  let o := cachedObserver true [(editable, "main"%string)] in
  getObserver 7 d = Some o /\ (editable, "main"%string) ∈ observedRoots o.
Proof.
  split; [reflexivity|].
  apply (observers_cover_dom_roots (VE := quietEngine)
           [CallAddObserver 7; CallCreateRoot (DomElement editable) None]
           7 _ "main" editable).
  - intros; reflexivity.
  - intros; reflexivity.
  - reflexivity.
  - reflexivity.
Defined.

Lemma roots_unknown_witness :
  getRoot (Some "footer"%string)
    (history (VE := quietEngine) [CallCreateRoot (TagName "div") None]) = None.
Proof.
  apply (roots_unknown_until_registered (VE := quietEngine)).
  repeat constructor. simpl. done.
Defined.

End DocumentScenarios.

(** ** The toolbar: collections and listeners *)

Section ToolbarFacts.
Import ToolbarView.
Implicit Types (v : ToolbarView) (c u g base : list View) (x item : View).

Lemma runs_ret {A} (a : A) v : runs (ret a) v a v.
Proof. reflexivity. Qed.

Lemma runs_gets {A} (f : ToolbarView -> A) v : runs (gets f) v (f v) v.
Proof. reflexivity. Qed.

Lemma runs_modify (f : ToolbarView -> ToolbarView) v : runs (modify f) v tt (f v).
Proof. reflexivity. Qed.

Lemma runs_bind {A B} (m : Js ToolbarView A) (k : A -> Js ToolbarView B)
    v a v1 b v2 :
  runs m v a v1 -> runs (k a) v1 b v2 -> runs (bind m k) v b v2.
Proof. unfold runs, bind. by intros ->. Qed.

(** [fire] changes what the listeners throw and nothing else. *)
Lemma runs_fire {A} (m : Js ToolbarView A) v a v' :
  runs m v a v' -> runs (fire m) v a v'.
Proof. unfold runs, fire. by intros ->. Qed.

Lemma indexOf_app_last u x :
  viewUid x ∉ viewUid <$> u -> indexOf x (u ++ [x]) = Some (length u).
Proof.
  induction u as [|y u IH]; simpl; intros Hnot.
  - by rewrite decide_True.
  - rewrite decide_False.
    + rewrite IH; [done|]. intros Hin. apply Hnot. by apply list_elem_of_further.
    + intros Heq. apply Hnot. rewrite Heq. apply list_elem_of_here.
Qed.

Lemma indexOf_lt item c i : indexOf item c = Some i -> i < length c.
Proof.
  revert i. induction c as [|y c IH]; simpl; intros i; [done|].
  destruct (decide (viewUid y = viewUid item)).
  - intros [= <-]. lia.
  - destruct (indexOf item c) as [j|]; simpl; [|done].
    intros [= <-]. specialize (IH j eq_refl). lia.
Qed.

Lemma Collection_add_end item c :
  Collection_add item None c = inr (length c, c ++ [item]).
Proof.
  unfold Collection_add. simpl. rewrite decide_False by lia.
  by rewrite take_ge, drop_ge by lia.
Qed.

Lemma Collection_add_at item i c :
  i <= length c ->
  Collection_add item (Some i) c = inr (i, take i c ++ item :: drop i c).
Proof. intros Hi. unfold Collection_add. simpl. by rewrite decide_False by lia. Qed.

Lemma Collection_add_length item index c i c' :
  Collection_add item index c = inr (i, c') ->
  length c' = S (length c) /\ i <= length c.
Proof.
  unfold Collection_add. case_decide; [done|]. intros [= <- <-].
  rewrite length_app. simpl. rewrite length_take, length_drop. lia.
Qed.

Lemma Collection_remove_length subject c item i c' :
  Collection_remove subject c = inr (item, i, c') ->
  S (length c') = length c /\ subject = Some item.
Proof.
  unfold Collection_remove. destruct subject as [y|]; [|done].
  destruct (indexOf y c) as [j|] eqn:Hj; [|done]. intros [= <- <- <-].
  apply indexOf_lt in Hj.
  rewrite length_app, length_take, length_drop. split; [lia|done].
Qed.

Lemma Collection_remove_last u x :
  viewUid x ∉ viewUid <$> u ->
  Collection_remove (Some x) (u ++ [x]) = inr (x, length u, u).
Proof.
  intros Hnot. unfold Collection_remove. rewrite indexOf_app_last by done.
  rewrite take_app_length.
  rewrite drop_app_ge by lia.
  replace (S (length u) - length u) with 1 by lia. simpl.
  by rewrite app_nil_r.
Qed.

Lemma Collection_remove_first x c :
  Collection_remove (Some x) (x :: c) = inr (x, 0, c).
Proof. unfold Collection_remove. simpl. by rewrite decide_True. Qed.

Lemma runs_add_to_end get set item v :
  runs (add_to get set item None) v (length (get v)) (set (get v ++ [item]) v).
Proof. unfold runs, add_to. by rewrite Collection_add_end. Qed.

Lemma runs_add_to_at get set item i v :
  i <= length (get v) ->
  runs (add_to get set item (Some i)) v i
       (set (take i (get v) ++ item :: drop i (get v)) v).
Proof. intros Hi. unfold runs, add_to. by rewrite Collection_add_at. Qed.

Lemma runs_remove_last get set u x v :
  get v = u ++ [x] -> viewUid x ∉ viewUid <$> u ->
  runs (remove_from get set (Some x)) v (x, length u) (set u v).
Proof.
  intros Hget Hnot. unfold runs, remove_from.
  by rewrite Hget, Collection_remove_last.
Qed.

Lemma runs_remove_first get set x c v :
  get v = x :: c ->
  runs (remove_from get set (Some x)) v (x, 0) (set c v).
Proof.
  intros Hget. unfold runs, remove_from.
  by rewrite Hget, Collection_remove_first.
Qed.

Lemma forEach_focusables_add l v :
  runs (forEach l (fun item =>
          bind (add_to focusables set_focusables item None) (fun _ => ret tt)))
       v tt (set_focusables (focusables v ++ l) v).
Proof.
  revert v. induction l as [|x l IH]; intros v; simpl.
  - unfold runs, ret. rewrite app_nil_r. by destruct v.
  - eapply runs_bind.
    + eapply runs_bind; [apply runs_add_to_end|apply runs_ret].
    + specialize (IH (set_focusables (focusables v ++ [x]) v)).
      simpl in IH. rewrite <- app_assoc in IH. exact IH.
Qed.

(** The focus cycle is computed from the two item collections and from
    nothing else. *)
Lemma runs_updateFocusCycleableItems v :
  runs _updateFocusCycleableItems v tt (set_focusables (focusCycle v) v).
Proof.
  unfold _updateFocusCycleableItems.
  eapply runs_bind; [apply runs_modify|].
  eapply runs_bind; [apply runs_gets|]. simpl.
  eapply runs_bind; [apply forEach_focusables_add|]. simpl.
  eapply runs_bind; [apply runs_gets|]. simpl.
  unfold focusCycle.
  destruct (groupedItems v) as [|y g] eqn:Hg; simpl.
  - unfold runs, ret. by rewrite app_nil_r.
  - eapply runs_bind; [apply runs_gets|]. simpl.
    eapply runs_bind; [apply runs_add_to_end|]. simpl.
    apply runs_ret.
Qed.

(** The listeners of [ungroupedItems] and of [view.children] inside
    [fire]: what they throw is the [CKEditorError] of a collection, so
    [fire] changes nothing. *)
Lemma fire_collection_listeners item i subject v :
  fire _updateFocusCycleableItems v = _updateFocusCycleableItems v /\
  fire (add_to itemsViewChildren set_itemsViewChildren item (Some i);;;
        _updateFocusCycleableItems)%js v =
    (add_to itemsViewChildren set_itemsViewChildren item (Some i);;;
     _updateFocusCycleableItems)%js v /\
  fire (remove_from itemsViewChildren set_itemsViewChildren subject;;;
        _updateFocusCycleableItems)%js v =
    (remove_from itemsViewChildren set_itemsViewChildren subject;;;
     _updateFocusCycleableItems)%js v.
Proof.
  split; [|split].
  - unfold fire. by rewrite runs_updateFocusCycleableItems.
  - unfold fire, bind, add_to, Collection_add. simpl.
    case_decide; [done|]. by rewrite runs_updateFocusCycleableItems.
  - unfold fire, bind, remove_from, Collection_remove.
    destruct subject as [y|]; [|done].
    destruct (indexOf y (itemsViewChildren v)); [|done].
    by rewrite runs_updateFocusCycleableItems.
Qed.

End ToolbarFacts.

(** ** The toolbar: the steps of a grouping pass *)

Section GroupingSteps.
Import ToolbarView.
Context (L : Layout).
Implicit Types (v : ToolbarView) (c u g base : list View) (x item : View).

Lemma runs_new_View k v :
  runs (new_View k) v {| viewUid := nextUid v; kind := k |}
       (set_nextUid (S (nextUid v)) v).
Proof. reflexivity. Qed.

Lemma runs_viewChildren_add item v :
  let v1 := set_children (children v ++ [item]) v in
  runs (viewChildren_add item) v tt (set_focusables (focusCycle v1) v1).
Proof.
  intros v1. unfold viewChildren_add.
  eapply runs_bind; [apply runs_add_to_end|]. apply runs_updateFocusCycleableItems.
Qed.

Lemma runs_viewChildren_remove_last c x v :
  children v = c ++ [x] -> viewUid x ∉ viewUid <$> c ->
  let v1 := set_children c v in
  runs (viewChildren_remove (Some x)) v tt (set_focusables (focusCycle v1) v1).
Proof.
  intros Hc Hx v1. unfold viewChildren_remove.
  eapply runs_bind; [by apply (runs_remove_last children set_children c x)|].
  apply runs_updateFocusCycleableItems.
Qed.

Lemma runs_ungroupedItems_remove_last u x v :
  ungroupedItems v = u ++ [x] -> itemsViewChildren v = u ++ [x] ->
  viewUid x ∉ viewUid <$> u ->
  let v1 := set_itemsViewChildren u (set_ungroupedItems u v) in
  runs (ungroupedItems_remove (Some x)) v x (set_focusables (focusCycle v1) v1).
Proof.
  intros Hu Hi Hx v1. unfold ungroupedItems_remove.
  eapply runs_bind;
    [by apply (runs_remove_last ungroupedItems set_ungroupedItems u x)|].
  simpl.
  eapply runs_bind;
    [by apply (runs_remove_last itemsViewChildren set_itemsViewChildren u x)|].
  eapply runs_bind; [apply runs_updateFocusCycleableItems|]. apply runs_ret.
Qed.

Lemma runs_ungroupedItems_add_end item v :
  itemsViewChildren v = ungroupedItems v ->
  let u := ungroupedItems v ++ [item] in
  let v1 := set_itemsViewChildren u (set_ungroupedItems u v) in
  runs (ungroupedItems_add item None) v tt (set_focusables (focusCycle v1) v1).
Proof.
  intros Hi u v1. unfold ungroupedItems_add.
  eapply runs_bind; [apply runs_add_to_end|].
  eapply runs_bind.
  { apply runs_add_to_at. simpl. rewrite Hi. lia. }
  simpl. rewrite Hi, take_ge, drop_ge by lia.
  apply runs_updateFocusCycleableItems.
Qed.

Lemma grouping_ok_set_cachedPadding base cp v :
  grouping_ok base v -> grouping_ok base (set_cachedPadding cp v).
Proof. intros [? ? ? ? ? ? ?]. by constructor. Qed.

Lemma grouping_ok_set_focusables base f v :
  grouping_ok base v -> grouping_ok base (set_focusables f v).
Proof. intros [? ? ? ? ? ? ?]. by constructor. Qed.

Lemma same_frame_refl v : same_frame v v.
Proof. by repeat split. Qed.

Lemma same_frame_trans v1 v2 v3 :
  same_frame v1 v2 -> same_frame v2 v3 -> same_frame v1 v3.
Proof.
  unfold same_frame. intros (?&?&?&?&?&?&?&?) (?&?&?&?&?&?&?&?).
  repeat split; congruence.
Qed.

(** The kinds that the toolbar shows in a state that the grouping keeps. *)
Lemma shown_kinds base v :
  grouping_ok base v ->
  kind <$> children v =
  (kind <$> base) ++
  match groupedItems v with
  | [] => []
  | _ :: _ => [ToolbarSeparatorView; DropdownView]
  end.
Proof.
  intros [_ _ Hdd _ _ _ Hch]. destruct (groupedItems v).
  - by rewrite Hch, app_nil_r.
  - destruct Hch as (s & Hs & _ & _ & ->).
    rewrite fmap_app. simpl. by rewrite Hs, Hdd.
Qed.

(** The getter on any state: it returns or throws, writes nothing but the
    padding cache, and answers [true] only when something is ungrouped. *)
Lemma areItemsOverflowing_cases v :
  match _areItemsOverflowing L v with
  | Normal b v' =>
      (exists cp, v' = set_cachedPadding cp v) /\
      (b = true -> ungroupedItems v <> [])
  | Throw e v' => v' = v
  | Diverge => False
  end.
Proof.
  unfold _areItemsOverflowing, bind, gets, modify, ret, throw. simpl.
  destruct (ungroupedItems v) as [|x u] eqn:Hu; simpl.
  { split; [|done]. exists (cachedPadding v). by destruct v. }
  destruct (viewElement v); [|done].
  destruct (falsy (cachedPadding v)); simpl;
    destruct (decide (uiLanguageDirection L = "ltr"%string)); simpl;
    (split; [|done]); eauto.
  all: exists (cachedPadding v); by destruct v.
Qed.

Lemma falsy_or_self (n : JsNumber) :
  (if falsy (Some n) then n else default (Num 0) (Some n)) = n.
Proof. by destruct n as [|[]]. Qed.

Lemma padding_in_use_cached v :
  padding_in_use L (set_cachedPadding (Some (padding_in_use L v)) v) =
  padding_in_use L v.
Proof.
  unfold padding_in_use, set_cachedPadding. cbn [cachedPadding].
  destruct (falsy (cachedPadding v)) eqn:Hf.
  - apply falsy_or_self.
  - destruct (cachedPadding v) as [n|]; [|done].
    change (default (Num 0) (Some n)) with n. by rewrite Hf.
Qed.

(** The getter on a state that the grouping keeps: it answers what the
    layout says for the grouping, with the padding in use, and leaves that
    padding in the cache. *)
Lemma runs_areItemsOverflowing base v :
  grouping_ok base v -> viewElement v = Some ToolbarElement ->
  exists v',
    runs (_areItemsOverflowing L) v
         (overflows L (kind <$> base) (padding_in_use L v)
                    (ungroupedItems v, groupedItems v)) v' /\
    (exists cp, v' = set_cachedPadding cp v) /\
    padding_in_use L v' = padding_in_use L v.
Proof.
  intros Hok Hel.
  pose proof (shown_kinds base v Hok) as Hshown.
  destruct Hok as [Hb _ _ _ _ _ _].
  unfold runs, _areItemsOverflowing, overflows, bind, gets, modify, ret. simpl.
  destruct (ungroupedItems v) as [|x u] eqn:Hu; simpl.
  { eexists. split; [reflexivity|]. split; [|done].
    exists (cachedPadding v). by destruct v. }
  rewrite Hel. simpl. rewrite Hshown, Hb.
  assert (Hp : padding_in_use L v =
               if falsy (cachedPadding v) then
                 if decide (uiLanguageDirection L = "ltr"%string)
                 then paddingRight L else paddingLeft L
               else default (Num 0) (cachedPadding v)) by done.
  destruct (falsy (cachedPadding v)) eqn:Hf; simpl;
    destruct (decide (uiLanguageDirection L = "ltr"%string)) eqn:Hd; simpl;
    rewrite <- Hp.
  1,2: eexists; split; [reflexivity|]; split; [eauto|];
       apply padding_in_use_cached.
  all: eexists; split; [reflexivity|]; split; [|done];
       exists (cachedPadding v); by destruct v.
Qed.

End GroupingSteps.

Section GroupingMoves.
Import ToolbarView.
Implicit Types (v : ToolbarView) (c u g base : list View) (x item : View).

Lemma last_item_is_new u x g :
  NoDup (viewUid <$> ((u ++ [x]) ++ g)) -> viewUid x ∉ viewUid <$> u.
Proof.
  rewrite <- app_assoc, fmap_app. intros [_ [Hd _]]%NoDup_app Hin.
  apply (Hd _ Hin). simpl. apply list_elem_of_here.
Qed.

Lemma regrouped_NoDup u x g :
  NoDup (viewUid <$> ((u ++ [x]) ++ g)) <-> NoDup (viewUid <$> (u ++ x :: g)).
Proof. by rewrite <- app_assoc. Qed.

(** One run of [_groupLastItem] where something is ungrouped. *)
Lemma runs_groupLastItem base u x v :
  grouping_ok base v -> ungroupedItems v = u ++ [x] ->
  exists v',
    runs _groupLastItem v tt v' /\
    ungroupedItems v' = u /\ groupedItems v' = x :: groupedItems v /\
    grouping_ok base v' /\ same_frame v v' /\
    cachedPadding v' = cachedPadding v.
Proof.
  intros [Hb Hnd Hdd Hbase Hfresh Hifresh Hch] Hu.
  assert (Hx : viewUid x ∉ viewUid <$> u).
  { rewrite Hu in Hnd. by eapply last_item_is_new. }
  unfold _groupLastItem.
  destruct (groupedItems v) as [|y g] eqn:Hg.
  - eexists. split.
    { eapply runs_bind; [apply runs_gets|]. simpl. rewrite Hg. simpl.
      eapply runs_bind.
      { eapply runs_bind; [apply runs_new_View|].
        eapply runs_bind; [apply runs_viewChildren_add|].
        eapply runs_bind; [apply runs_gets|].
        eapply runs_bind; [apply runs_viewChildren_add|].
        apply runs_modify. }
      eapply runs_bind; [apply runs_gets|]. simpl. rewrite Hu, last_snoc.
      eapply runs_bind.
      { apply (runs_ungroupedItems_remove_last u x); simpl; [done| |done].
        by rewrite Hb. }
      unfold groupedItems_add.
      eapply runs_bind; [apply runs_add_to_at; simpl; lia|]. apply runs_ret. }
    simpl. rewrite Hg. simpl.
    split; [done|]. split; [done|]. split; [|split; [by repeat split|done]].
    constructor; simpl; try done.
    + rewrite Hu in Hnd. by apply regrouped_NoDup.
    + eapply Forall_impl; [exact Hfresh|]. simpl. lia.
    + rewrite Hu, <- app_assoc in Hifresh.
      eapply Forall_impl; [exact Hifresh|]. simpl. lia.
    + exists {| viewUid := nextUid v; kind := ToolbarSeparatorView |}. simpl.
      split; [done|]. split; [|split; [lia|]].
      * intros Hin. apply list_elem_of_fmap in Hin as (c & Hc & Hin).
        rewrite Forall_forall in Hfresh. specialize (Hfresh c Hin). lia.
      * rewrite Hch. by rewrite <- app_assoc.
  - eexists. split.
    { eapply runs_bind; [apply runs_gets|]. simpl. rewrite Hg. simpl.
      eapply runs_bind; [apply runs_ret|].
      eapply runs_bind; [apply runs_gets|]. simpl. rewrite Hu, last_snoc.
      eapply runs_bind.
      { apply (runs_ungroupedItems_remove_last u x); simpl; [done| |done].
        by rewrite Hb. }
      unfold groupedItems_add.
      eapply runs_bind; [apply runs_add_to_at; simpl; lia|]. apply runs_ret. }
    simpl. rewrite Hg. simpl.
    split; [done|]. split; [done|]. split; [|split; [by repeat split|done]].
    constructor; simpl; try done.
    + rewrite Hu in Hnd. by apply regrouped_NoDup.
    + by rewrite Hu, <- app_assoc in Hifresh.
Qed.

(** One run of [_ungroupFirstItem] where something is grouped. *)
Lemma runs_ungroupFirstItem base x g v :
  grouping_ok base v -> groupedItems v = x :: g ->
  exists v',
    runs _ungroupFirstItem v tt v' /\
    ungroupedItems v' = ungroupedItems v ++ [x] /\ groupedItems v' = g /\
    grouping_ok base v' /\ same_frame v v' /\
    cachedPadding v' = cachedPadding v.
Proof.
  intros [Hb Hnd Hdd Hbase Hfresh Hifresh Hch] Hg.
  rewrite Hg in Hch. destruct Hch as (s & Hs & Hsnew & Hslt & Hch).
  unfold _ungroupFirstItem.
  assert (Hdd_base : viewUid (groupedItemsDropdown v) ∉ viewUid <$> base).
  { rewrite fmap_app in Hbase. apply NoDup_app in Hbase as (_ & Hd & _).
    intros Hin. apply (Hd _ Hin). apply list_elem_of_here. }
  assert (Hs_base : viewUid s ∉ viewUid <$> base).
  { intros Hin. apply Hsnew. rewrite fmap_app. apply elem_of_app. by left. }
  assert (Hs_dd : viewUid s <> viewUid (groupedItemsDropdown v)).
  { intros Heq. apply Hsnew. rewrite fmap_app. apply elem_of_app. right.
    rewrite Heq. apply list_elem_of_here. }
  assert (Hnd' : NoDup (viewUid <$> ((ungroupedItems v ++ [x]) ++ g))).
  { rewrite Hg in Hnd. by apply regrouped_NoDup. }
  destruct g as [|y g].
  - eexists. split.
    { eapply runs_bind; [apply runs_gets|]. simpl. rewrite Hg. simpl.
      eapply runs_bind.
      { unfold groupedItems_remove.
        eapply runs_bind;
          [by apply (runs_remove_first groupedItems set_groupedItems x [])|].
        apply runs_ret. }
      eapply runs_bind.
      { by apply (runs_ungroupedItems_add_end x (set_groupedItems [] v)). }
      eapply runs_bind; [apply runs_gets|]. simpl.
      eapply runs_bind; [apply runs_gets|].
      eapply runs_bind.
      { apply (runs_viewChildren_remove_last (base ++ [s])); simpl.
        - rewrite Hch. by rewrite <- app_assoc.
        - rewrite fmap_app. intros [?|Hin]%elem_of_app; [done|].
          simpl in Hin. apply list_elem_of_singleton in Hin. congruence. }
      eapply runs_bind; [apply runs_gets|]. simpl. rewrite last_snoc.
      eapply runs_bind.
      { by apply (runs_viewChildren_remove_last base s). }
      apply runs_modify. }
    simpl.
    split; [done|]. split; [done|]. split; [|split; [by repeat split|done]].
    constructor; simpl; try done.
    rewrite Hg in Hifresh. by rewrite app_nil_r.
  - eexists. split.
    { eapply runs_bind; [apply runs_gets|]. simpl. rewrite Hg. simpl.
      eapply runs_bind.
      { unfold groupedItems_remove.
        eapply runs_bind;
          [by apply (runs_remove_first groupedItems set_groupedItems x (y :: g))|].
        apply runs_ret. }
      eapply runs_bind.
      { by apply (runs_ungroupedItems_add_end x (set_groupedItems (y :: g) v)). }
      eapply runs_bind; [apply runs_gets|]. simpl.
      apply runs_ret. }
    simpl.
    split; [done|]. split; [done|]. split; [|split; [by repeat split|done]].
    constructor; simpl; try done.
    + rewrite Hg in Hifresh. by rewrite <- app_assoc.
    + exists s. by repeat split.
Qed.

End GroupingMoves.

(** ** The grouping pass on two lists *)

Section RegroupFacts.
Import ToolbarView.
Context (overflow : Grouping -> bool).
Implicit Types (u g ru : list View) (x : View) (s : Grouping).

Lemma group_last_snoc u x g : group_last (u ++ [x], g) = (u, x :: g).
Proof.
  unfold group_last. simpl. rewrite reverse_snoc. by rewrite reverse_involutive.
Qed.

Lemma group_from_fitting u g :
  overflow (u, g) = false -> group_from overflow (reverse u) g = (u, g).
Proof.
  intros Hfit. destruct (reverse u) as [|x r] eqn:Hr; simpl.
  - apply (f_equal reverse) in Hr. rewrite reverse_involutive in Hr.
    by rewrite Hr.
  - by rewrite <- Hr, reverse_involutive, Hfit.
Qed.

Lemma group_from_overflowing u x g :
  overflow (u ++ [x], g) = true ->
  group_from overflow (reverse (u ++ [x])) g =
  group_from overflow (reverse u) (x :: g).
Proof.
  intros Hover. rewrite reverse_snoc. simpl.
  by rewrite <- reverse_snoc, reverse_involutive, Hover.
Qed.

Lemma group_from_concat ru g :
  (group_from overflow ru g).1 ++ (group_from overflow ru g).2 = reverse ru ++ g.
Proof.
  revert g. induction ru as [|x ru IH]; intros g; simpl; [done|].
  destruct (overflow _); simpl; [|done].
  rewrite IH, reverse_cons. by rewrite <- app_assoc.
Qed.

Lemma ungroup_from_overflowing u g :
  overflow (u, g) = true -> ungroup_from overflow u g = (u, g).
Proof. intros Hover. destruct g; simpl; [done|]. by rewrite Hover. Qed.

Lemma ungroup_from_concat u g :
  (ungroup_from overflow u g).1 ++ (ungroup_from overflow u g).2 = u ++ g.
Proof.
  revert u. induction g as [|x g IH]; intros u; simpl; [done|].
  destruct (overflow _); simpl; [done|].
  rewrite IH. by rewrite <- app_assoc.
Qed.

(** When the ungrouping stops on an overflow, the move before it started
    from a grouping that did not overflow, and that move is the one to
    undo. *)
Lemma ungroup_from_stops u g :
  overflow (u, g) = false ->
  overflow (ungroup_from overflow u g) = true ->
  exists u1 x g1,
    ungroup_from overflow u g = (u1 ++ [x], g1) /\
    overflow (u1, x :: g1) = false.
Proof.
  revert u. induction g as [|x g IH]; intros u Hfit; simpl.
  { by rewrite Hfit. }
  rewrite Hfit. intros Hstop.
  destruct (overflow (u ++ [x], g)) eqn:Hnext.
  - rewrite ungroup_from_overflowing by done. eauto.
  - by apply IH.
Qed.

Lemma group_from_fits ru g :
  (forall g', overflow ([], g') = false) ->
  overflow (group_from overflow ru g) = false.
Proof.
  intros Hempty. revert g. induction ru as [|x ru IH]; intros g; simpl.
  - apply Hempty.
  - destruct (overflow (reverse (x :: ru), g)) eqn:Hover; [apply IH|done].
Qed.

(** The pass ends on a grouping that does not overflow, when an empty
    toolbar never overflows. *)
Lemma regroup_fits s :
  (forall g, overflow ([], g) = false) -> overflow (regroup overflow s) = false.
Proof.
  intros Hempty. unfold regroup.
  destruct (overflow s) eqn:Hs.
  { by apply group_from_fits. }
  destruct s as [u [|x g]]; simpl; [done|].
  simpl in Hs. rewrite Hs.
  destruct (overflow (ungroup_from overflow (u ++ [x]) g)) eqn:Hstop; [|done].
  destruct (overflow (u ++ [x], g)) eqn:Hnext.
  - rewrite ungroup_from_overflowing by done. by rewrite group_last_snoc.
  - destruct (ungroup_from_stops _ _ Hnext Hstop) as (u1 & y & g1 & -> & Hfit).
    by rewrite group_last_snoc.
Qed.

Lemma group_last_concat s : (group_last s).1 ++ (group_last s).2 = s.1 ++ s.2.
Proof.
  destruct s as [u g]. unfold group_last. simpl.
  destruct (reverse u) as [|x r] eqn:Hr; simpl; [done|].
  apply (f_equal reverse) in Hr. rewrite reverse_involutive, reverse_cons in Hr.
  rewrite Hr. by rewrite <- app_assoc.
Qed.

(** The pass moves items between the two collections and keeps their
    order in the concatenation. *)
Lemma regroup_concat s :
  (regroup overflow s).1 ++ (regroup overflow s).2 = s.1 ++ s.2.
Proof.
  unfold regroup. destruct (overflow s).
  { by rewrite group_from_concat, reverse_involutive. }
  destruct s as [u g]. cbn [fst snd]. destruct g as [|x g]; [done|].
  cbv zeta. pose proof (ungroup_from_concat u (x :: g)) as Hc.
  destruct (overflow (ungroup_from overflow u (x :: g)));
    [rewrite group_last_concat|]; exact Hc.
Qed.

Lemma group_from_moved ru g :
  group_from overflow ru g = (reverse ru, g) \/
  exists x g',
    (group_from overflow ru g).2 = x :: g' /\
    overflow ((group_from overflow ru g).1 ++ [x], g') = true.
Proof.
  revert g. induction ru as [|x ru IH]; intros g; simpl; [by left|].
  destruct (overflow (reverse (x :: ru), g)) eqn:Hover; [|by left].
  right. destruct (IH (x :: g)) as [->|Hmoved]; [|done].
  exists x, g. simpl. by rewrite <- reverse_cons.
Qed.

Lemma ungroup_from_fits_all u g :
  overflow (ungroup_from overflow u g) = false ->
  (ungroup_from overflow u g).2 = [].
Proof.
  revert u. induction g as [|x g IH]; intros u; simpl; [done|].
  destruct (overflow (u, x :: g)) eqn:Hover; [by rewrite Hover|apply IH].
Qed.

(** After a pass, taking the first grouped item back would overflow. *)
Lemma regroup_tight s x g :
  (forall g, overflow ([], g) = false) ->
  (regroup overflow s).2 = x :: g ->
  overflow (regroup overflow s) = false /\
  overflow ((regroup overflow s).1 ++ [x], g) = true.
Proof.
  intros Hempty Ht. split; [by apply regroup_fits|].
  revert Ht. unfold regroup. destruct (overflow s) eqn:Hs.
  { destruct (group_from_moved (reverse s.1) s.2) as [Heq|(y & g' & Hy & Hover)].
    - pose proof (group_from_fits (reverse s.1) s.2 Hempty) as Hfit.
      rewrite Heq, reverse_involutive in Hfit. destruct s. simpl in Hfit.
      congruence.
    - intros Ht. rewrite Ht in Hy. by inversion Hy; subst. }
  destruct s as [u [|y g0]]; cbn [fst snd]; [done|]. cbv zeta.
  destruct (overflow (ungroup_from overflow u (y :: g0))) eqn:Hstop.
  - destruct (ungroup_from_stops _ _ Hs Hstop) as (u1 & z & g1 & Heq & Hfit).
    rewrite Heq, group_last_snoc. simpl. intros [= <- <-].
    by rewrite <- Heq.
  - intros Ht. by rewrite (ungroup_from_fits_all _ _ Hstop) in Ht.
Qed.

(** A second pass changes nothing. *)
Lemma regroup_stable s :
  (forall g, overflow ([], g) = false) ->
  regroup overflow (regroup overflow s) = regroup overflow s.
Proof.
  intros Hempty.
  destruct (regroup overflow s) as [u g] eqn:Ht.
  destruct g as [|x g].
  { pose proof (regroup_fits s Hempty) as Hfit. rewrite Ht in Hfit.
    unfold regroup. by rewrite Hfit. }
  destruct (regroup_tight s x g Hempty) as [Hfit Hnext]; [by rewrite Ht|].
  rewrite Ht in Hfit, Hnext. simpl in Hnext.
  unfold regroup. rewrite Hfit. cbn [fst snd]. cbv zeta.
  simpl. rewrite Hfit. rewrite ungroup_from_overflowing by done.
  by rewrite Hnext, group_last_snoc.
Qed.

End RegroupFacts.

(** ** The toolbar: the two loops and the pass *)

Section GroupingPass.
Import ToolbarView.
Context (L : Layout).
Implicit Types (v : ToolbarView) (c u g base : list View) (x item : View).

Lemma snoc_cases {A} (l : list A) :
  l = [] \/ exists (l' : list A) (a : A), l = l' ++ [a].
Proof. destruct l using rev_ind; eauto. Qed.

Lemma padding_in_use_same v v' :
  cachedPadding v' = cachedPadding v -> padding_in_use L v' = padding_in_use L v.
Proof. unfold padding_in_use. by intros ->. Qed.

Lemma overflows_empty (kinds : list ViewKind) p g :
  overflows L kinds p ([], g) = false.
Proof. reflexivity. Qed.

Lemma groupWhileOverflowing_refines base p fuel : forall v b,
  grouping_ok base v -> viewElement v = Some ToolbarElement ->
  padding_in_use L v = p ->
  length (ungroupedItems v) <= fuel ->
  let overflow := overflows L (kind <$> base) p in
  exists v',
    runs (groupWhileOverflowing L fuel b) v
         (b || overflow (ungroupedItems v, groupedItems v)) v' /\
    (ungroupedItems v', groupedItems v') =
      group_from overflow (reverse (ungroupedItems v)) (groupedItems v) /\
    grouping_ok base v' /\ same_frame v v' /\ padding_in_use L v' = p.
Proof.
  induction fuel as [|fuel IH]; intros v b Hok Hel Hp Hfuel overflow.
  all: destruct (runs_areItemsOverflowing L base v Hok Hel)
         as (v1 & Hget & [cp ->] & Hp1).
  all: rewrite Hp in Hget; fold overflow in Hget.
  all: destruct (overflow (ungroupedItems v, groupedItems v)) eqn:Hover.
  - destruct (ungroupedItems v); [done|simpl in Hfuel; lia].
  - exists (set_cachedPadding cp v). split.
    { simpl. eapply runs_bind; [exact Hget|]. rewrite orb_false_r. apply runs_ret. }
    split; [simpl; by rewrite group_from_fitting|].
    split; [by apply grouping_ok_set_cachedPadding|].
    split; [by repeat split|]. by rewrite Hp1.
  - destruct (snoc_cases (ungroupedItems v)) as [Hu|(u & x & Hu)].
    { by rewrite Hu in Hover. }
    destruct (runs_groupLastItem base u x (set_cachedPadding cp v))
      as (v2 & Hgroup & Hu2 & Hg2 & Hok2 & Hframe2 & Hcp2);
      [by apply grouping_ok_set_cachedPadding|done|].
    simpl in Hg2.
    destruct (IH v2 true) as (v3 & Hloop & Hres & Hok3 & Hframe3 & Hp3);
      [done| | | |].
    { destruct Hframe2 as (_&_&_&_&_&->&_). done. }
    { rewrite (padding_in_use_same _ _ Hcp2), Hp1. done. }
    { rewrite Hu2. rewrite Hu, length_app in Hfuel. simpl in Hfuel. lia. }
    exists v3. split.
    { simpl. eapply runs_bind; [exact Hget|]. simpl.
      eapply runs_bind; [exact Hgroup|]. rewrite orb_true_r.
      rewrite orb_true_l in Hloop. exact Hloop. }
    split.
    { rewrite Hres, Hu2, Hg2, Hu. fold overflow.
      rewrite <- group_from_overflowing; [done|]. by rewrite <- Hu. }
    split; [done|]. split; [|done].
    eapply same_frame_trans; [|exact Hframe3].
    eapply same_frame_trans; [|exact Hframe2]. by repeat split.
  - exists (set_cachedPadding cp v). split.
    { simpl. eapply runs_bind; [exact Hget|]. rewrite orb_false_r. apply runs_ret. }
    split; [simpl; by rewrite group_from_fitting|].
    split; [by apply grouping_ok_set_cachedPadding|].
    split; [by repeat split|]. by rewrite Hp1.
Qed.

Lemma ungroupWhileFitting_refines base p fuel : forall v,
  grouping_ok base v -> viewElement v = Some ToolbarElement ->
  padding_in_use L v = p ->
  length (groupedItems v) <= fuel ->
  let overflow := overflows L (kind <$> base) p in
  exists v',
    runs (ungroupWhileFitting L fuel) v tt v' /\
    (ungroupedItems v', groupedItems v') =
      ungroup_from overflow (ungroupedItems v) (groupedItems v) /\
    grouping_ok base v' /\ same_frame v v' /\ padding_in_use L v' = p.
Proof.
  induction fuel as [|fuel IH]; intros v Hok Hel Hp Hfuel overflow.
  all: destruct (groupedItems v) as [|x g] eqn:Hg.
  1,3: exists v; split;
         [simpl; eapply runs_bind; [apply runs_gets|]; simpl; rewrite Hg;
          apply runs_ret|];
       split; [by rewrite Hg|]; split; [done|];
       split; [apply same_frame_refl|done].
  { simpl in Hfuel. lia. }
  destruct (runs_areItemsOverflowing L base v Hok Hel)
    as (v1 & Hget & [cp ->] & Hp1).
  rewrite Hp, Hg in Hget. fold overflow in Hget.
  destruct (overflow (ungroupedItems v, x :: g)) eqn:Hover.
  - exists (set_cachedPadding cp v). split.
    { simpl. eapply runs_bind; [apply runs_gets|]. simpl. rewrite Hg. simpl.
      eapply runs_bind; [exact Hget|]. apply runs_ret. }
    split; [simpl; by rewrite Hg, Hover|].
    split; [by apply grouping_ok_set_cachedPadding|].
    split; [by repeat split|]. by rewrite Hp1.
  - destruct (runs_ungroupFirstItem base x g (set_cachedPadding cp v))
      as (v2 & Hmove & Hu2 & Hg2 & Hok2 & Hframe2 & Hcp2);
      [by apply grouping_ok_set_cachedPadding|done|].
    simpl in Hu2.
    destruct (IH v2) as (v3 & Hloop & Hres & Hok3 & Hframe3 & Hp3);
      [done| | | |].
    { destruct Hframe2 as (_&_&_&_&_&->&_). done. }
    { rewrite (padding_in_use_same _ _ Hcp2), Hp1. done. }
    { rewrite Hg2. simpl in Hfuel. lia. }
    exists v3. split.
    { simpl. eapply runs_bind; [apply runs_gets|]. simpl. rewrite Hg. simpl.
      eapply runs_bind; [exact Hget|]. simpl.
      eapply runs_bind; [exact Hmove|]. exact Hloop. }
    split.
    { rewrite Hres, Hu2, Hg2. fold overflow. simpl. by rewrite Hover. }
    split; [done|]. split; [|done].
    eapply same_frame_trans; [|exact Hframe3].
    eapply same_frame_trans; [|exact Hframe2]. by repeat split.
Qed.

End GroupingPass.

Section GroupingPassWhole.
Import ToolbarView.
Context (L : Layout).
Implicit Types (v : ToolbarView) (c u g base : list View) (x item : View).

(** [_updateGrouping] on a toolbar that is in the document: it returns,
    and the two item collections are regrouped as the specification says. *)
Lemma runs_updateGrouping base fuel v :
  grouping_ok base v -> attached L v ->
  length (ungroupedItems v) <= fuel -> length (groupedItems v) <= fuel ->
  let overflow := overflows L (kind <$> base) (padding_in_use L v) in
  exists v',
    runs (_updateGrouping L fuel) v tt v' /\
    (ungroupedItems v', groupedItems v') =
      regroup overflow (ungroupedItems v, groupedItems v) /\
    grouping_ok base v' /\ same_frame v v' /\
    padding_in_use L v' = padding_in_use L v.
Proof.
  intros Hok [Hel Hbody] Hfu Hfg overflow.
  destruct (groupWhileOverflowing_refines L base (padding_in_use L v) fuel
              v false Hok Hel eq_refl Hfu)
    as (v1 & Hloop1 & Hres1 & Hok1 & Hframe1 & Hp1).
  fold overflow in Hloop1, Hres1. rewrite orb_false_l in Hloop1.
  assert (Hel1 : viewElement v1 = Some ToolbarElement).
  { destruct Hframe1 as (_&_&_&_&_&->&_). done. }
  unfold regroup. cbn [fst snd].
  destruct (overflow (ungroupedItems v, groupedItems v)) eqn:Hover.
  { exists v1. split; [|done].
    unfold _updateGrouping.
    eapply runs_bind; [apply runs_gets|]. rewrite Hel, Hbody. simpl.
    eapply runs_bind; [exact Hloop1|].
    eapply runs_bind; [apply runs_gets|]. simpl. apply runs_ret. }
  rewrite group_from_fitting in Hres1 by done.
  injection Hres1 as Hu1 Hg1.
  destruct (groupedItems v) as [|x g] eqn:Hg.
  { exists v1. split; [|by rewrite Hu1, Hg1].
    unfold _updateGrouping.
    eapply runs_bind; [apply runs_gets|]. rewrite Hel, Hbody. simpl.
    eapply runs_bind; [exact Hloop1|].
    eapply runs_bind; [apply runs_gets|]. simpl. rewrite Hg1. simpl.
    apply runs_ret. }
  destruct (ungroupWhileFitting_refines L base (padding_in_use L v) fuel
              v1 Hok1 Hel1 Hp1)
    as (v2 & Hloop2 & Hres2 & Hok2 & Hframe2 & Hp2).
  { rewrite Hg1. exact Hfg. }
  fold overflow in Hres2. rewrite Hu1, Hg1 in Hres2.
  assert (Hel2 : viewElement v2 = Some ToolbarElement).
  { destruct Hframe2 as (_&_&_&_&_&->&_). done. }
  destruct (runs_areItemsOverflowing L base v2 Hok2 Hel2)
    as (v3 & Hget & [cp ->] & Hp3).
  rewrite Hp2, Hres2 in Hget. fold overflow in Hget.
  cbv zeta.
  assert (Hprefix : forall w,
    runs (if overflow (ungroup_from overflow (ungroupedItems v) (x :: g))
          then _groupLastItem else ret tt) (set_cachedPadding cp v2) tt w ->
    runs (_updateGrouping L fuel) v tt w).
  { intros w Hw. unfold _updateGrouping.
    eapply runs_bind; [apply runs_gets|]. rewrite Hel, Hbody. simpl.
    eapply runs_bind; [exact Hloop1|].
    eapply runs_bind; [apply runs_gets|]. simpl. rewrite Hg1. simpl.
    eapply runs_bind; [exact Hloop2|].
    eapply runs_bind; [exact Hget|]. exact Hw. }
  destruct (overflow (ungroup_from overflow (ungroupedItems v) (x :: g)))
    eqn:Hstop.
  - destruct (snoc_cases (ungroupedItems v2)) as [Hu2|(u2 & y & Hu2)].
    { rewrite <- Hres2, Hu2 in Hstop. done. }
    destruct (runs_groupLastItem base u2 y (set_cachedPadding cp v2))
      as (v4 & Hgroup & Hu4 & Hg4 & Hok4 & Hframe4 & Hcp4);
      [by apply grouping_ok_set_cachedPadding|done|].
    simpl in Hg4.
    exists v4. split; [by apply Hprefix|].
    split.
    { rewrite Hu4, Hg4, <- Hres2, Hu2. by rewrite group_last_snoc. }
    split; [done|]. split.
    + eapply same_frame_trans; [exact Hframe1|].
      eapply same_frame_trans; [exact Hframe2|].
      eapply same_frame_trans; [|exact Hframe4]. by repeat split.
    + rewrite (padding_in_use_same _ _ _ Hcp4). congruence.
  - exists (set_cachedPadding cp v2). split; [by apply Hprefix, runs_ret|].
    split; [by rewrite <- Hres2|].
    split; [by apply grouping_ok_set_cachedPadding|]. split.
    + eapply same_frame_trans; [exact Hframe1|].
      eapply same_frame_trans; [exact Hframe2|]. by repeat split.
    + congruence.
Qed.

(** The pass does nothing on a toolbar that is rendered but not in the
    document. *)
Lemma runs_updateGrouping_detached fuel v :
  viewElement v = Some ToolbarElement -> bodyContains L = false ->
  runs (_updateGrouping L fuel) v tt v.
Proof.
  intros Hel Hbody. unfold _updateGrouping.
  eapply runs_bind; [apply runs_gets|]. rewrite Hel, Hbody. apply runs_ret.
Qed.

End GroupingPassWhole.

(** ** The toolbar: the loops on any state *)

Section PostFacts.
Context {S : Type}.

Lemma post_ret {A} (a : A) (s : S) Q : Q a s -> post (ret a) s Q.
Proof. done. Qed.

Lemma post_gets {A} (f : S -> A) (s : S) Q : Q (f s) s -> post (gets f) s Q.
Proof. done. Qed.

Lemma post_modify (f : S -> S) (s : S) Q : Q tt (f s) -> post (modify f) s Q.
Proof. done. Qed.

Lemma post_bind {A B} (m : Js S A) (k : A -> Js S B) (s : S) Q :
  post m s (fun a s' => post (k a) s' Q) -> post (bind m k) s Q.
Proof. unfold post, bind. by destruct (m s). Qed.

Lemma post_weaken {A} (m : Js S A) (s : S) (Q Q' : A -> S -> Prop) :
  post m s Q -> (forall a s', Q a s' -> Q' a s') -> post m s Q'.
Proof. unfold post. destruct (m s); auto. Qed.

Lemma post_runs {A} (m : Js S A) (s : S) a s' (Q : A -> S -> Prop) :
  runs m s a s' -> Q a s' -> post m s Q.
Proof. unfold post, runs. by intros ->. Qed.

Lemma post_finishes {A} (m : Js S A) (s : S) (Q : A -> S -> Prop) :
  post m s Q -> is_Some (final_state (m s)).
Proof. unfold post. destruct (m s); by eauto. Qed.

Lemma post_fire {A} (m : Js S A) (s : S) (Q : A -> S -> Prop) :
  post m s Q -> post (ToolbarView.fire m) s Q.
Proof. unfold post, ToolbarView.fire. by destruct (m s). Qed.

End PostFacts.

Section LoopsTerminate.
Import ToolbarView.
Context (L : Layout).
Implicit Types (v : ToolbarView) (c u g base : list View) (x item : View).

Lemma post_add_to get set item index v (Q : nat -> ToolbarView -> Prop) :
  (forall i c', Collection_add item index (get v) = inr (i, c') ->
                Q i (set c' v)) ->
  post (add_to get set item index) v Q.
Proof.
  intros HQ. unfold post, add_to.
  destruct (Collection_add item index (get v)) as [e|[i c']]; [done|]. by apply HQ.
Qed.

Lemma post_remove_from get set subject v (Q : View * nat -> ToolbarView -> Prop) :
  (forall item i c', Collection_remove subject (get v) = inr (item, i, c') ->
                     Q (item, i) (set c' v)) ->
  post (remove_from get set subject) v Q.
Proof.
  intros HQ. unfold post, remove_from.
  destruct (Collection_remove subject (get v)) as [e|[[item i] c']]; [done|].
  by apply HQ.
Qed.

Lemma post_updateFocusCycleableItems v (Q : unit -> ToolbarView -> Prop) :
  Q tt (set_focusables (focusCycle v) v) -> post _updateFocusCycleableItems v Q.
Proof. intros HQ. eapply post_runs; [apply runs_updateFocusCycleableItems|done]. Qed.

Lemma post_ungroupedItems_remove subject v :
  post (ungroupedItems_remove subject) v (fun _ v' =>
    S (length (ungroupedItems v')) = length (ungroupedItems v) /\
    groupedItems v' = groupedItems v).
Proof.
  unfold ungroupedItems_remove.
  apply post_bind, post_remove_from. intros item i c' Hrem.
  apply Collection_remove_length in Hrem as [Hlen _].
  apply post_bind, post_remove_from. intros item' i' c'' _.
  apply post_bind, post_updateFocusCycleableItems, post_ret. done.
Qed.

Lemma post_ungroupedItems_add item index v :
  post (ungroupedItems_add item index) v (fun _ v' =>
    length (ungroupedItems v') = S (length (ungroupedItems v)) /\
    groupedItems v' = groupedItems v).
Proof.
  unfold ungroupedItems_add.
  apply post_bind, post_add_to. intros i c' Hadd.
  apply Collection_add_length in Hadd as [Hlen _].
  apply post_bind, post_add_to. intros i' c'' _.
  apply post_updateFocusCycleableItems. done.
Qed.

Lemma post_viewChildren_add item v :
  post (viewChildren_add item) v (fun _ v' =>
    ungroupedItems v' = ungroupedItems v /\ groupedItems v' = groupedItems v).
Proof.
  unfold viewChildren_add. apply post_bind, post_add_to. intros i c' _.
  by apply post_updateFocusCycleableItems.
Qed.

Lemma post_viewChildren_remove subject v :
  post (viewChildren_remove subject) v (fun _ v' =>
    ungroupedItems v' = ungroupedItems v /\ groupedItems v' = groupedItems v).
Proof.
  unfold viewChildren_remove. apply post_bind, post_remove_from.
  intros item i c' _. by apply post_updateFocusCycleableItems.
Qed.

(** Each call of [_groupLastItem] that returns takes one item out of the
    ungrouped collection and puts one into the grouped collection. *)
Lemma post_groupLastItem v :
  post _groupLastItem v (fun _ v' =>
    S (length (ungroupedItems v')) = length (ungroupedItems v) /\
    length (groupedItems v') = S (length (groupedItems v))).
Proof.
  unfold _groupLastItem. apply post_bind, post_gets.
  apply post_bind.
  eapply post_weaken with (Q := fun _ v1 =>
    ungroupedItems v1 = ungroupedItems v /\ groupedItems v1 = groupedItems v).
  { destruct (decide (length (groupedItems v) = 0)); [|by apply post_ret].
    apply post_bind. eapply post_runs; [apply runs_new_View|].
    apply post_bind. eapply post_weaken; [apply post_viewChildren_add|].
    intros _ v1 [Hu1 Hg1]. simpl in Hu1, Hg1. apply post_bind, post_gets.
    apply post_bind. eapply post_weaken; [apply post_viewChildren_add|].
    intros _ v2 [Hu2 Hg2]. apply post_modify. simpl. split; congruence. }
  intros _ v1 [Hu1 Hg1]. apply post_bind, post_gets.
  apply post_bind. eapply post_weaken; [apply post_ungroupedItems_remove|].
  intros item v2 [Hu2 Hg2]. unfold groupedItems_add.
  apply post_bind, post_add_to. intros i c' Hadd.
  apply Collection_add_length in Hadd as [Hlen _].
  apply post_ret. simpl. split; congruence.
Qed.

(** Each call of [_ungroupFirstItem] that returns takes one item out of the
    grouped collection and puts one into the ungrouped collection. *)
Lemma post_ungroupFirstItem v :
  post _ungroupFirstItem v (fun _ v' =>
    S (length (groupedItems v')) = length (groupedItems v) /\
    length (ungroupedItems v') = S (length (ungroupedItems v))).
Proof.
  unfold _ungroupFirstItem. apply post_bind, post_gets.
  apply post_bind. unfold groupedItems_remove.
  apply post_bind, post_remove_from. intros item i c' Hrem.
  apply Collection_remove_length in Hrem as [Hlen _]. apply post_ret.
  apply post_bind. eapply post_weaken; [apply post_ungroupedItems_add|].
  intros _ v2 [Hu2 Hg2]. simpl in Hu2, Hg2.
  apply post_bind, post_gets.
  destruct (decide (length (groupedItems v2) = 0));
    [|apply post_ret; split; congruence].
  apply post_bind, post_gets.
  apply post_bind. eapply post_weaken; [apply post_viewChildren_remove|].
  intros _ v3 [Hu3 Hg3]. apply post_bind, post_gets.
  apply post_bind. eapply post_weaken; [apply post_viewChildren_remove|].
  intros _ v4 [Hu4 Hg4]. apply post_modify. simpl. split; congruence.
Qed.

Lemma post_areItemsOverflowing v :
  post (_areItemsOverflowing L) v (fun b v' =>
    (exists cp, v' = set_cachedPadding cp v) /\
    (b = true -> ungroupedItems v <> [])).
Proof.
  pose proof (areItemsOverflowing_cases L v) as H. unfold post.
  by destruct (_areItemsOverflowing L v).
Qed.

Lemma groupWhileOverflowing_terminates fuel : forall v b,
  length (ungroupedItems v) <= fuel ->
  post (groupWhileOverflowing L fuel b) v (fun _ v' =>
    length (ungroupedItems v') <= length (ungroupedItems v)).
Proof.
  induction fuel as [|fuel IH]; intros v b Hfuel; simpl.
  all: apply post_bind; eapply post_weaken; [apply post_areItemsOverflowing|].
  all: intros [] v1 [[cp ->] Hne]; [specialize (Hne eq_refl)|by apply post_ret].
  - destruct (ungroupedItems v); [done|simpl in Hfuel; lia].
  - apply post_bind. eapply post_weaken; [apply post_groupLastItem|].
    intros _ v2 [Hu2 _]. simpl in Hu2.
    eapply post_weaken; [apply IH; lia|]. simpl. intros. lia.
Qed.

Lemma ungroupWhileFitting_terminates fuel : forall v,
  length (groupedItems v) <= fuel ->
  post (ungroupWhileFitting L fuel) v (fun _ v' =>
    length (groupedItems v') <= length (groupedItems v)).
Proof.
  induction fuel as [|fuel IH]; intros v Hfuel; simpl.
  all: apply post_bind, post_gets.
  all: destruct (decide (length (groupedItems v) = 0)); [by apply post_ret|].
  { lia. }
  apply post_bind. eapply post_weaken; [apply post_areItemsOverflowing|].
  intros [] v1 [[cp ->] _]; [by apply post_ret|].
  apply post_bind. eapply post_weaken; [apply post_ungroupFirstItem|].
  intros _ v2 [Hg2 _]. simpl in Hg2.
  eapply post_weaken; [apply IH; lia|]. simpl. intros. lia.
Qed.

End LoopsTerminate.

(** ** What the collection operations leave alone *)

Section KeepsFacts.
Context {S : Type} (P : S -> Prop).

Lemma keeps_ret {A} (a : A) : keeps P (ret a).
Proof. by intros s Hs. Qed.

Lemma keeps_gets {A} (f : S -> A) : keeps P (gets f).
Proof. by intros s Hs. Qed.

Lemma keeps_throw {A} e : keeps P (throw e : Js S A).
Proof. by intros s Hs. Qed.

Lemma keeps_modify (f : S -> S) : (forall s, P s -> P (f s)) -> keeps P (modify f).
Proof. intros Hf s Hs. by apply Hf. Qed.

Lemma keeps_bind {A B} (m : Js S A) (k : A -> Js S B) :
  keeps P m -> (forall a, keeps P (k a)) -> keeps P (bind m k).
Proof.
  intros Hm Hk s Hs. unfold bind. specialize (Hm s Hs).
  destruct (m s) as [a s'|e s'|]; [|done|done]. by apply Hk.
Qed.

Lemma keeps_fire {A} (m : Js S A) : keeps P m -> keeps P (ToolbarView.fire m).
Proof.
  intros Hm s Hs. unfold ToolbarView.fire. specialize (Hm s Hs).
  by destruct (m s).
Qed.

End KeepsFacts.

Section ToolbarKeeps.
Import ToolbarView.
Context (L : Layout) (P : ToolbarView -> Prop) (HP : Untouched P).
Implicit Types (v : ToolbarView) (c u g base : list View) (x item : View).

Lemma keeps_add_to get set item index :
  (forall c v, P v -> P (set c v)) -> keeps P (add_to get set item index).
Proof.
  intros Hset v Hv. unfold add_to.
  destruct (Collection_add item index (get v)) as [e|[i c']]; [done|]. by apply Hset.
Qed.

Lemma keeps_remove_from get set subject :
  (forall c v, P v -> P (set c v)) -> keeps P (remove_from get set subject).
Proof.
  intros Hset v Hv. unfold remove_from.
  destruct (Collection_remove subject (get v)) as [e|[[item i] c']]; [done|].
  by apply Hset.
Qed.

Lemma keeps_forEach {A} (l : list A) (f : A -> Js ToolbarView unit) :
  (forall a, keeps P (f a)) -> keeps P (forEach l f).
Proof.
  intros Hf. induction l as [|a l IH]; simpl; [apply keeps_ret|].
  apply keeps_bind; [apply Hf|by intros _].
Qed.

Lemma keeps_new_View k : keeps P (new_View k).
Proof. intros v Hv. by apply (by_nextUid P HP). Qed.

Ltac untouched :=
  first
    [ apply (by_items P HP) | apply (by_itemsViewChildren P HP)
    | apply (by_children P HP) | apply (by_focusables P HP)
    | apply (by_focusTracker P HP) | apply (by_ungroupedItems P HP)
    | apply (by_groupedItems P HP) | apply (by_cachedPadding P HP)
    | apply (by_nextUid P HP) | apply (by_console P HP) ];
  assumption.

Ltac keeps_syntax :=
  lazymatch goal with
  | |- keeps _ (ret _) => apply keeps_ret
  | |- keeps _ (gets _) => apply keeps_gets
  | |- keeps _ (throw _) => apply keeps_throw
  | |- keeps _ (new_View _) => apply keeps_new_View
  | |- keeps _ (add_to _ _ _ _) => apply keeps_add_to; intros ? ? ?; untouched
  | |- keeps _ (remove_from _ _ _) =>
      apply keeps_remove_from; intros ? ? ?; untouched
  | |- keeps _ (modify _) => apply keeps_modify; intros ? ?; untouched
  | |- keeps _ (forEach _ _) => apply keeps_forEach; intros ?
  | |- keeps _ (bind _ _) => apply keeps_bind; [|intros ?]
  | |- keeps _ (fire _) => apply keeps_fire
  | |- keeps _ (if ?b then _ else _) => destruct b
  | |- keeps _ (match ?o with Some _ => _ | None => _ end) => destruct o
  end.

Ltac keeps_step := first [assumption | keeps_syntax].

Lemma keeps_updateFocusCycleableItems : keeps P _updateFocusCycleableItems.
Proof. unfold _updateFocusCycleableItems. repeat keeps_step. Qed.

Lemma keeps_ungroupedItems_add item index : keeps P (ungroupedItems_add item index).
Proof.
  pose proof keeps_updateFocusCycleableItems.
  unfold ungroupedItems_add. repeat keeps_step.
Qed.

Lemma keeps_ungroupedItems_remove subject : keeps P (ungroupedItems_remove subject).
Proof.
  pose proof keeps_updateFocusCycleableItems.
  unfold ungroupedItems_remove. repeat keeps_step.
Qed.

Lemma keeps_groupedItems_add item index : keeps P (groupedItems_add item index).
Proof. unfold groupedItems_add. repeat keeps_step. Qed.

Lemma keeps_groupedItems_remove subject : keeps P (groupedItems_remove subject).
Proof. unfold groupedItems_remove. repeat keeps_step. Qed.

Lemma keeps_viewChildren_add item : keeps P (viewChildren_add item).
Proof.
  pose proof keeps_updateFocusCycleableItems.
  unfold viewChildren_add. repeat keeps_step.
Qed.

Lemma keeps_viewChildren_remove subject : keeps P (viewChildren_remove subject).
Proof.
  pose proof keeps_updateFocusCycleableItems.
  unfold viewChildren_remove. repeat keeps_step.
Qed.

Lemma keeps_focusTracker_add item : keeps P (focusTracker_add item).
Proof. unfold focusTracker_add. repeat keeps_step. Qed.

Lemma keeps_focusTracker_remove item : keeps P (focusTracker_remove item).
Proof. unfold focusTracker_remove. repeat keeps_step. Qed.

Lemma keeps_areItemsOverflowing : keeps P (_areItemsOverflowing L).
Proof. unfold _areItemsOverflowing. repeat keeps_step. Qed.

Lemma keeps_groupLastItem : keeps P _groupLastItem.
Proof.
  unfold _groupLastItem.
  repeat first
    [ apply keeps_viewChildren_add | apply keeps_focusTracker_add
    | apply keeps_ungroupedItems_remove | apply keeps_groupedItems_add
    | keeps_step ].
Qed.

Lemma keeps_ungroupFirstItem : keeps P _ungroupFirstItem.
Proof.
  unfold _ungroupFirstItem.
  repeat first
    [ apply keeps_viewChildren_remove | apply keeps_focusTracker_remove
    | apply keeps_ungroupedItems_add | apply keeps_groupedItems_remove
    | keeps_step ].
Qed.

Lemma keeps_groupWhileOverflowing fuel b : keeps P (groupWhileOverflowing L fuel b).
Proof.
  revert b. induction fuel as [|fuel IH]; intros b; simpl.
  - apply keeps_bind; [apply keeps_areItemsOverflowing|].
    intros []; [by intros v Hv|apply keeps_ret].
  - apply keeps_bind; [apply keeps_areItemsOverflowing|].
    intros []; [|apply keeps_ret].
    apply keeps_bind; [apply keeps_groupLastItem|]. intros _. apply IH.
Qed.

Lemma keeps_ungroupWhileFitting fuel : keeps P (ungroupWhileFitting L fuel).
Proof.
  induction fuel as [|fuel IH]; simpl.
  - apply keeps_bind; [apply keeps_gets|]. intros grouped.
    destruct (decide _); [apply keeps_ret|].
    apply keeps_bind; [apply keeps_areItemsOverflowing|].
    intros []; [apply keeps_ret|by intros v Hv].
  - apply keeps_bind; [apply keeps_gets|]. intros grouped.
    destruct (decide _); [apply keeps_ret|].
    apply keeps_bind; [apply keeps_areItemsOverflowing|].
    intros []; [apply keeps_ret|].
    apply keeps_bind; [apply keeps_ungroupFirstItem|]. by intros _.
Qed.

Lemma keeps_updateGrouping fuel : keeps P (_updateGrouping L fuel).
Proof.
  unfold _updateGrouping.
  repeat first
    [ apply keeps_groupWhileOverflowing | apply keeps_ungroupWhileFitting
    | apply keeps_areItemsOverflowing | apply keeps_groupLastItem
    | keeps_step ].
Qed.

Lemma keeps_items_add fuel item index : keeps P (items_add L fuel item index).
Proof.
  unfold items_add, DynamicGrouping_onAdd, StaticLayout_onAdd.
  repeat first
    [ apply keeps_updateGrouping | apply keeps_ungroupedItems_add
    | apply keeps_groupedItems_add | apply keeps_focusTracker_add
    | keeps_step ].
Qed.

Lemma keeps_items_remove fuel subject : keeps P (items_remove L fuel subject).
Proof.
  unfold items_remove, DynamicGrouping_onRemove, StaticLayout_onRemove.
  repeat first
    [ apply keeps_updateGrouping | apply keeps_ungroupedItems_remove
    | apply keeps_groupedItems_remove | apply keeps_focusTracker_remove
    | keeps_step ].
Qed.

Lemma keeps_fillFromConfig fuel config factory :
  keeps P (fillFromConfig L fuel config factory).
Proof.
  unfold fillFromConfig, console_warn.
  repeat first [ apply keeps_items_add | keeps_step ].
Qed.

End ToolbarKeeps.

(** ** The toolbar before and after [render] *)

Section RenderDestroy.
Import ToolbarView.
Context (L : Layout).
Implicit Types (v : ToolbarView) (c u g base : list View) (x item : View).

Lemma unrendered_untouched : Untouched unrendered.
Proof. by constructor. Qed.

Lemma observing_untouched :
  Untouched (fun v => shouldGroupWhenFull v = true /\ is_Some (resizeObserver v)).
Proof. by constructor. Qed.

Lemma destroy_unrendered v :
  unrendered v ->
  destroy v = Throw (TypeError "Cannot read property 'disconnect' of null") v.
Proof.
  intros (Hgrouping & _ & Hobserver).
  unfold destroy, DynamicGrouping_destroy, bind, gets, throw.
  by rewrite Hgrouping, Hobserver.
Qed.

Lemma after_keeps {A} (P : ToolbarView -> Prop) (m : Js ToolbarView A) v :
  keeps P m -> P v -> P (after (m v) v).
Proof.
  intros Hm Hv. specialize (Hm v Hv). unfold after.
  by destruct (m v).
Qed.

Lemma perform_unrendered fuel (call : Layout * Call) v :
  call.2 <> CallRender -> unrendered v -> unrendered (performAt fuel v call).
Proof.
  intros Hc Hv. destruct call as [K []]; unfold performAt; simpl in *;
    [| | | | done |].
  - apply after_keeps; [|done].
    apply keeps_items_add, unrendered_untouched.
  - apply after_keeps; [|done].
    apply keeps_items_remove, unrendered_untouched.
  - apply after_keeps; [|done].
    apply keeps_fillFromConfig, unrendered_untouched.
  - destruct Hv as (? & ? & Hobserver).
    unfold onResize, bind, gets. by rewrite Hobserver.
  - by rewrite destroy_unrendered.
Qed.

Lemma history_unrendered fuel (cs : list (Layout * Call)) : forall v,
  CallRender ∉ cs.*2 -> unrendered v ->
  unrendered (foldl (performAt fuel) v cs).
Proof.
  induction cs as [|call cs IH]; intros v Hnot Hv; simpl; [done|].
  rewrite fmap_cons in Hnot. apply not_elem_of_cons in Hnot as [Hcall Hnot].
  apply IH; [done|]. by apply perform_unrendered.
Qed.

Lemma bind_runs {A B} (m : Js ToolbarView A) (k : A -> Js ToolbarView B)
    v a v1 :
  runs m v a v1 -> bind m k v = k a v1.
Proof. unfold runs, bind. by intros ->. Qed.

Lemma runs_forEach_focusTracker_add (l : list View) v :
  runs (forEach l focusTracker_add) v tt
       (set_focusTracker (focusTracker v ++ l) v).
Proof.
  revert v. induction l as [|x l IH]; intros v; simpl.
  - unfold runs, ret. rewrite app_nil_r. by destruct v.
  - eapply runs_bind; [apply runs_modify|].
    specialize (IH (set_focusTracker (focusTracker v ++ [x]) v)).
    simpl in IH. rewrite <- app_assoc in IH. exact IH.
Qed.

(** [render] on a toolbar with dynamic grouping: everything before the
    first grouping pass returns. *)
Lemma render_dynamic fuel v :
  shouldGroupWhenFull v = true -> isRendered v = false ->
  render L fuel v =
  _updateGrouping L fuel
    (set_resizeObserver
       (Some {| observed := [ToolbarElement]; previousWidth := None |})
       (set_viewElement (Some ToolbarElement)
          (set_focusTracker (focusTracker v ++ items v)
             (set_isRendered true v)))).
Proof.
  intros Hgrouping Hrendered. unfold render.
  erewrite bind_runs by apply runs_gets. rewrite Hrendered.
  erewrite bind_runs by apply runs_modify.
  erewrite bind_runs by apply runs_gets.
  erewrite bind_runs by apply runs_forEach_focusTracker_add.
  erewrite bind_runs by apply runs_gets.
  cbn [shouldGroupWhenFull set_focusTracker set_isRendered].
  rewrite Hgrouping. unfold DynamicGrouping_render, _enableGroupingOnResize.
  erewrite bind_runs by apply runs_modify.
  erewrite bind_runs by apply runs_modify.
  erewrite bind_runs by apply runs_gets.
  cbn [viewElement set_viewElement set_resizeObserver].
  erewrite bind_runs by apply runs_modify. reflexivity.
Qed.

Lemma render_then_destroy fuel v v' :
  shouldGroupWhenFull v = true -> render L fuel v = Normal tt v' ->
  exists v'', destroy v' = Normal tt v''.
Proof.
  intros Hgrouping Hrender.
  destruct (isRendered v) eqn:Hrendered.
  { unfold render, bind, gets in Hrender. by rewrite Hrendered in Hrender. }
  rewrite render_dynamic in Hrender by done.
  match type of Hrender with
  | _updateGrouping _ _ ?v1 = _ =>
      pose proof (keeps_updateGrouping L _ observing_untouched fuel v1) as Hkeeps
  end.
  rewrite Hrender in Hkeeps. simpl in Hkeeps.
  destruct Hkeeps as [Hgrouping' [o Ho]]; [by eauto|].
  unfold destroy, DynamicGrouping_destroy, bind, gets, modify.
  rewrite Hgrouping', Ho. by eexists.
Qed.

End RenderDestroy.

(** ** The toolbar: the claims about grouping *)

Section GroupingClaims.
Import ToolbarView.
Context (L : Layout).
Implicit Types (v : ToolbarView) (u g base : list View) (x item : View).

(** C2.  On a toolbar that is rendered and in the document, in a state that
    the grouping keeps, [_updateGrouping] returns and leaves the two item
    collections as steps 1 to 3 of the specification regroup them: while
    the ungrouped items overflow, the last of them goes to the front of the
    grouped ones; else, when something is grouped, the first grouped item
    goes back to the end of the ungrouped ones while nothing overflows, and
    a last move that overflows is undone for that one item.  The pass ends
    on a grouping that does not overflow and that a second pass leaves as
    it is. *)
Theorem updateGrouping_regroups_to_fit base fuel v :
  grouping_ok base v -> attached L v ->
  length (ungroupedItems v) + length (groupedItems v) <= fuel ->
  let overflow := overflows L (kind <$> base) (padding_in_use L v) in
  exists v',
    _updateGrouping L fuel v = Normal tt v' /\
    (ungroupedItems v', groupedItems v') =
      regroup overflow (ungroupedItems v, groupedItems v) /\
    ungroupedItems v' ++ groupedItems v' = ungroupedItems v ++ groupedItems v /\
    overflow (ungroupedItems v', groupedItems v') = false /\
    (exists v'', _areItemsOverflowing L v' = Normal false v'') /\
    (exists v'',
       _updateGrouping L fuel v' = Normal tt v'' /\
       ungroupedItems v'' = ungroupedItems v' /\
       groupedItems v'' = groupedItems v') /\
    grouping_ok base v' /\ attached L v'.
Proof.
  intros Hok Hatt Hfuel overflow.
  destruct (runs_updateGrouping L base fuel v Hok Hatt)
    as (v' & Hrun & Hres & Hok' & Hframe & Hp); [lia..|].
  fold overflow in Hres.
  assert (Hempty : forall g, overflow ([], g) = false) by done.
  assert (Hatt' : attached L v').
  { destruct Hframe as (_&_&_&_&_&Hel'&_). split; [|apply Hatt].
    rewrite Hel'. apply Hatt. }
  assert (Hconcat : ungroupedItems v' ++ groupedItems v' =
                    ungroupedItems v ++ groupedItems v).
  { pose proof (regroup_concat overflow (ungroupedItems v, groupedItems v)) as Hc.
    rewrite <- Hres in Hc. exact Hc. }
  exists v'. split; [exact Hrun|]. split; [exact Hres|].
  split; [exact Hconcat|].
  split; [rewrite Hres; by apply regroup_fits|].
  split.
  { destruct (runs_areItemsOverflowing L base v' Hok' (proj1 Hatt'))
      as (v'' & Hget & _).
    rewrite Hp in Hget. fold overflow in Hget.
    rewrite Hres, regroup_fits in Hget by done. by exists v''. }
  split; [|by split].
  apply (f_equal length) in Hconcat. rewrite !length_app in Hconcat.
  destruct (runs_updateGrouping L base fuel v' Hok' Hatt')
    as (v'' & Hrun2 & Hres2 & _); [lia..|].
  rewrite Hp in Hres2. fold overflow in Hres2.
  rewrite Hres, regroup_stable in Hres2 by done. rewrite <- Hres in Hres2.
  exists v''. split; [exact Hrun2|]. by injection Hres2.
Qed.

(** C9.  On every state of the toolbar: a call of [_groupLastItem] that
    returns leaves one ungrouped item less; [_areItemsOverflowing] is
    [false] when nothing is ungrouped; so the grouping loop is over, by a
    return or by an exception, before it has run its body more often than
    there are ungrouped items.  In the same way a call of
    [_ungroupFirstItem] that returns leaves one grouped item less, and the
    ungrouping loop is over before it has run its body more often than
    there are grouped items. *)
Theorem grouping_loops_terminate v :
  (forall v', _groupLastItem v = Normal tt v' ->
              S (length (ungroupedItems v')) = length (ungroupedItems v)) /\
  (ungroupedItems v = [] -> _areItemsOverflowing L v = Normal false v) /\
  (forall fuel b, length (ungroupedItems v) <= fuel ->
     is_Some (final_state (groupWhileOverflowing L fuel b v))) /\
  (forall v', _ungroupFirstItem v = Normal tt v' ->
              S (length (groupedItems v')) = length (groupedItems v)) /\
  (forall fuel, length (groupedItems v) <= fuel ->
     is_Some (final_state (ungroupWhileFitting L fuel v))).
Proof.
  split; [|split; [|split; [|split]]].
  - intros v' Hrun. pose proof (post_groupLastItem v) as Hpost.
    unfold post in Hpost. rewrite Hrun in Hpost. apply Hpost.
  - intros Hu. unfold _areItemsOverflowing, bind, gets, ret. by rewrite Hu.
  - intros fuel b Hfuel. eapply post_finishes.
    by apply groupWhileOverflowing_terminates.
  - intros v' Hrun. pose proof (post_ungroupFirstItem v) as Hpost.
    unfold post in Hpost. rewrite Hrun in Hpost. apply Hpost.
  - intros fuel Hfuel. eapply post_finishes.
    by apply ungroupWhileFitting_terminates.
Qed.

(** C10.  A toolbar made with [shouldGroupWhenFull], after any calls other
    than [render], whatever the layout of the page is at each of them:
    [destroy] throws a [TypeError], because [resizeObserver] is still
    [null], and the toolbar is not marked as destroyed.  After a [render]
    that returned, [destroy] returns. *)
Theorem destroy_before_render_throws fuel (cs : list (Layout * Call)) :
  CallRender ∉ cs.*2 ->
  let v := history fuel true cs in
  resizeObserver v = None /\
  destroy v = Throw (TypeError "Cannot read property 'disconnect' of null") v /\
  (forall v', render L fuel v = Normal tt v' ->
     exists v'', destroy v' = Normal tt v'').
Proof.
  intros Hnot v.
  assert (Hv : unrendered v).
  { apply history_unrendered; [exact Hnot|]. by repeat split. }
  split; [apply Hv|]. split; [by apply destroy_unrendered|].
  intros v' Hrender. eapply render_then_destroy; [apply Hv|exact Hrender].
Qed.

(** What the listeners of the focus cycle do establish.  Each change of
    [ungroupedItems] or of the children of the toolbar that returns leaves
    [focusables] equal to the ungrouped items followed by the dropdown
    when, and only when, something is grouped at the time the listener
    runs.  The collection is computed anew: what it held before the change
    makes no difference.  A change of [groupedItems] runs no listener, so
    the equation does not last: see [groupLastItem_focusables_lag]. *)
Theorem focusables_recomputed_on_change (c : StructuralChange) v v' :
  change c v = Normal tt v' ->
  focusables v' =
    ungroupedItems v' ++
    (if decide (groupedItems v' = []) then [] else [groupedItemsDropdown v']) /\
  (forall before, change c (set_focusables before v) = Normal tt v').
Proof.
  assert (Hcycle : forall w before,
    _updateFocusCycleableItems (set_focusables before w) =
    Normal tt (set_focusables (focusCycle w) w)).
  { intros w before. by rewrite runs_updateFocusCycleableItems. }
  destruct c as [item index|subject|item|subject]; simpl.
  - unfold ungroupedItems_add, bind, add_to.
    intros Hrun.
    destruct (Collection_add item index (ungroupedItems v))
      as [e|[i c']] eqn:H1; [done|].
    destruct (Collection_add item (Some i)
                (itemsViewChildren (set_ungroupedItems c' v)))
      as [e|[i' c'']] eqn:H2; [done|].
    rewrite runs_updateFocusCycleableItems in Hrun.
    injection Hrun as <-. split; [done|]. intros before.
    change (ungroupedItems (set_focusables before v)) with (ungroupedItems v).
    rewrite H1.
    change (itemsViewChildren (set_ungroupedItems c' (set_focusables before v)))
      with (itemsViewChildren (set_ungroupedItems c' v)).
    rewrite H2.
    exact (Hcycle (set_itemsViewChildren c'' (set_ungroupedItems c' v)) before).
  - unfold ungroupedItems_remove, bind, remove_from.
    intros Hrun.
    destruct (Collection_remove subject (ungroupedItems v))
      as [e|[[item i] c']] eqn:H1; [done|].
    cbn [fst snd] in Hrun.
    destruct (Collection_remove (Some item)
                (itemsViewChildren (set_ungroupedItems c' v)))
      as [e|[[item' i'] c'']] eqn:H2; [done|].
    rewrite runs_updateFocusCycleableItems in Hrun.
    injection Hrun as <-. split; [done|]. intros before.
    change (ungroupedItems (set_focusables before v)) with (ungroupedItems v).
    rewrite H1. cbn [fst snd].
    change (itemsViewChildren (set_ungroupedItems c' (set_focusables before v)))
      with (itemsViewChildren (set_ungroupedItems c' v)).
    rewrite H2.
    change (set_itemsViewChildren c''
              (set_ungroupedItems c' (set_focusables before v)))
      with (set_focusables before
              (set_itemsViewChildren c'' (set_ungroupedItems c' v))).
    by rewrite Hcycle.
  - unfold viewChildren_add, bind, add_to.
    intros Hrun.
    destruct (Collection_add item None (children v)) as [e|[i c']] eqn:H1;
      [done|].
    rewrite runs_updateFocusCycleableItems in Hrun.
    injection Hrun as <-. split; [done|]. intros before.
    change (children (set_focusables before v)) with (children v).
    rewrite H1. exact (Hcycle (set_children c' v) before).
  - unfold viewChildren_remove, bind, remove_from.
    intros Hrun.
    destruct (Collection_remove subject (children v))
      as [e|[[item i] c']] eqn:H1; [done|].
    rewrite runs_updateFocusCycleableItems in Hrun.
    injection Hrun as <-. split; [done|]. intros before.
    change (children (set_focusables before v)) with (children v).
    rewrite H1. exact (Hcycle (set_children c' v) before).
Qed.

End GroupingClaims.

(** ** The toolbar: new items *)

Section NewItems.
Import ToolbarView.
Context (L : Layout).
Implicit Types (v : ToolbarView) (u g base : list View) (x item : View).

Lemma take_drop_end {A} (l : list A) (a : A) :
  take (length l) l ++ a :: drop (length l) l = l ++ [a].
Proof. by rewrite take_ge, drop_ge by lia. Qed.

(** A new item at the end of the items of a static toolbar. *)
Lemma runs_items_add_static fuel item v :
  static_ready v ->
  exists v',
    runs (items_add L fuel item None) v tt v' /\
    items v' = items v ++ [item] /\ console v' = console v /\
    nextUid v' = nextUid v /\ static_ready v'.
Proof.
  intros (Hstatic & Hshown & Hcycle).
  destruct (isRendered v) eqn:Hr; eexists; (split; [|split; [|split; [|split]]]).
  1,6: eapply runs_bind; [apply runs_add_to_end|]; apply runs_fire;
       eapply runs_bind; [apply runs_gets|]; simpl; rewrite Hstatic;
       (eapply runs_bind;
        [unfold StaticLayout_onAdd;
         (eapply runs_bind; [apply runs_add_to_at; simpl; rewrite Hshown; lia|]);
         (eapply runs_bind; [apply runs_add_to_at; simpl; rewrite Hcycle; lia|]);
         apply runs_ret|]);
       eapply runs_bind; [apply runs_gets|]; simpl; rewrite Hr;
       first [apply runs_modify|apply runs_ret].
  all: simpl; rewrite ?Hshown, ?Hcycle, ?take_drop_end; try done.
Qed.

Lemma grouping_ok_set_items base items' v :
  grouping_ok base v -> grouping_ok base (set_items items' v).
Proof. intros [? ? ? ? ? ? ?]. by constructor. Qed.

Lemma grouping_ok_set_focusTracker base tracked v :
  grouping_ok base v -> grouping_ok base (set_focusTracker tracked v).
Proof. intros [? ? ? ? ? ? ?]. by constructor. Qed.

Lemma grouping_ok_set_nextUid base n v :
  nextUid v <= n -> grouping_ok base v -> grouping_ok base (set_nextUid n v).
Proof.
  intros Hn [? ? ? ? Hfresh Hifresh Hch]. constructor; simpl; try done.
  - eapply Forall_impl; [exact Hfresh|]. simpl. lia.
  - eapply Forall_impl; [exact Hifresh|]. simpl. lia.
  - destruct (groupedItems v); [done|].
    destruct Hch as (s & ? & ? & ? & ?). exists s. repeat split; try done. lia.
Qed.

Lemma NoDup_snoc_fresh (l : list View) item :
  NoDup (viewUid <$> l) -> viewUid item ∉ viewUid <$> l ->
  NoDup (viewUid <$> (l ++ [item])).
Proof.
  intros Hnd Hnew. rewrite fmap_app. apply NoDup_app. split; [done|].
  split; [|apply NoDup_singleton].
  intros n Hn Hin. simpl in Hin. apply list_elem_of_singleton in Hin. by subst.
Qed.

(** The listener of [DynamicGrouping] for a new item at the end. *)
Lemma runs_DynamicGrouping_onAdd fuel base item v :
  grouping_ok base v -> viewElement v = Some ToolbarElement ->
  viewUid item ∉ viewUid <$> (ungroupedItems v ++ groupedItems v) ->
  viewUid item < nextUid v ->
  S (length (ungroupedItems v ++ groupedItems v)) <= fuel ->
  exists v',
    runs (DynamicGrouping_onAdd L fuel item
            (length (ungroupedItems v ++ groupedItems v))) v tt v' /\
    ungroupedItems v' ++ groupedItems v' =
      (ungroupedItems v ++ groupedItems v) ++ [item] /\
    grouping_ok base v' /\ same_frame v v'.
Proof.
  intros Hok Hel Hnew Hlt Hfuel.
  assert (Hadd : exists v2,
    runs (bind (gets ungroupedItems) (fun ungrouped =>
            if decide (length ungrouped <
                       length (ungroupedItems v ++ groupedItems v))
            then groupedItems_add item
                   (Some (length (ungroupedItems v ++ groupedItems v)
                          - length ungrouped))
            else ungroupedItems_add item
                   (Some (length (ungroupedItems v ++ groupedItems v)))))
         v tt v2 /\
    ungroupedItems v2 ++ groupedItems v2 =
      (ungroupedItems v ++ groupedItems v) ++ [item] /\
    grouping_ok base v2 /\ same_frame v v2).
  { destruct Hok as [Hb Hnd Hdd Hbase Hfresh Hifresh Hch].
    destruct (groupedItems v) as [|y g] eqn:Hg.
    - rewrite app_nil_r in *. eexists. split.
      { eapply runs_bind; [apply runs_gets|]. simpl.
        rewrite decide_False by lia. unfold ungroupedItems_add.
        eapply runs_bind; [by apply runs_add_to_at|].
        eapply runs_bind; [apply runs_add_to_at; simpl; rewrite Hb; lia|].
        apply runs_updateFocusCycleableItems. }
      simpl. rewrite Hb, Hg, take_drop_end, app_nil_r.
      split; [done|]. split; [|by repeat split].
      constructor; simpl; rewrite ?Hg, ?app_nil_r; try done.
      + by apply NoDup_snoc_fresh.
      + apply Forall_app. split; [done|]. by repeat constructor.
    - eexists. split.
      { eapply runs_bind; [apply runs_gets|]. simpl.
        rewrite decide_True by (rewrite length_app; simpl; lia).
        unfold groupedItems_add.
        eapply runs_bind.
        { apply runs_add_to_at. rewrite Hg, length_app. simpl. lia. }
        apply runs_ret. }
      simpl.
      replace (length (ungroupedItems v ++ y :: g) - length (ungroupedItems v))
        with (length (y :: g)) by (rewrite length_app; simpl; lia).
      rewrite Hg, take_drop_end. rewrite <- app_assoc.
      split; [done|]. split; [|by repeat split].
      constructor; simpl; try done.
      + replace (ungroupedItems v ++ y :: g ++ [item])
          with ((ungroupedItems v ++ y :: g) ++ [item])
          by (by rewrite <- app_assoc).
        by apply NoDup_snoc_fresh.
      + replace (ungroupedItems v ++ y :: g ++ [item])
          with ((ungroupedItems v ++ y :: g) ++ [item])
          by (by rewrite <- app_assoc).
        apply Forall_app. split; [done|]. by repeat constructor. }
  destruct Hadd as (v2 & Hadd & Hconcat & Hok2 & Hframe2).
  assert (Hel2 : viewElement v2 = Some ToolbarElement).
  { destruct Hframe2 as (_&_&_&_&_&->&_). done. }
  destruct (bodyContains L) eqn:Hbody.
  - destruct (runs_updateGrouping L base fuel v2 Hok2 (conj Hel2 Hbody))
      as (v3 & Hpass & Hres & Hok3 & Hframe3 & _).
    1,2: apply (f_equal length) in Hconcat; revert Hconcat;
         rewrite !length_app; simpl; rewrite !length_app in Hfuel; lia.
    exists v3. split.
    { unfold DynamicGrouping_onAdd. unfold runs in *.
      unfold bind at 1 in Hadd. unfold gets at 1 in Hadd.
      unfold bind at 1. unfold bind at 1. unfold gets at 1.
      rewrite Hadd. exact Hpass. }
    split; [|split; [done|by eapply same_frame_trans]].
    rewrite <- Hconcat.
    pose proof (regroup_concat
      (overflows L (kind <$> base) (padding_in_use L v2))
      (ungroupedItems v2, groupedItems v2)) as Hc.
    rewrite <- Hres in Hc. exact Hc.
  - exists v2. split; [|done].
    unfold DynamicGrouping_onAdd. unfold runs in *.
    unfold bind at 1 in Hadd. unfold gets at 1 in Hadd.
    unfold bind at 1. unfold bind at 1. unfold gets at 1.
    rewrite Hadd. by apply runs_updateGrouping_detached.
Qed.

(** A new item at the end of the items of a rendered toolbar with dynamic
    grouping. *)
Lemma runs_items_add_dynamic fuel n item v :
  dynamic_ready fuel (S n) v ->
  viewUid item ∉ viewUid <$> items v -> viewUid item < nextUid v ->
  exists v',
    runs (items_add L fuel item None) v tt v' /\
    items v' = items v ++ [item] /\ console v' = console v /\
    dynamic_ready fuel n v'.
Proof.
  intros (Hdyn & Hel & Hitems & [base Hok] & Hfuel) Hnew Hlt.
  destruct (runs_DynamicGrouping_onAdd fuel base item
              (set_items (items v ++ [item]) v))
    as (v2 & Hrun & Hconcat & Hok2 & Hframe2).
  { by apply grouping_ok_set_items. }
  { done. }
  { simpl. by rewrite <- Hitems. }
  { done. }
  { simpl. rewrite <- Hitems. lia. }
  simpl in Hrun, Hconcat. rewrite <- Hitems in Hrun, Hconcat.
  destruct Hframe2 as (Hg2 & Hi2 & Hr2 & _ & _ & Hel2 & _ & Hc2).
  simpl in *.
  assert (Hready : forall tracked,
    dynamic_ready fuel n (set_focusTracker tracked v2)).
  { intros tracked. unfold dynamic_ready. simpl.
    split; [by rewrite Hg2|]. split; [by rewrite Hel2|].
    split; [by rewrite Hi2, Hconcat|].
    split; [exists base; by apply grouping_ok_set_focusTracker|].
    rewrite Hi2, length_app. simpl. lia. }
  destruct (isRendered v) eqn:Hr.
  - eexists. split.
    { unfold items_add.
      eapply runs_bind; [apply runs_add_to_end|]. apply runs_fire.
      eapply runs_bind; [apply runs_gets|]. simpl. rewrite Hdyn.
      eapply runs_bind; [exact Hrun|].
      eapply runs_bind; [apply runs_gets|]. rewrite Hr2.
      apply runs_modify. }
    split; [done|]. split; [done|]. apply Hready.
  - exists v2. split.
    { unfold items_add.
      eapply runs_bind; [apply runs_add_to_end|]. apply runs_fire.
      eapply runs_bind; [apply runs_gets|]. simpl. rewrite Hdyn.
      eapply runs_bind; [exact Hrun|].
      eapply runs_bind; [apply runs_gets|]. rewrite Hr2.
      apply runs_ret. }
    split; [done|]. split; [done|].
    specialize (Hready (focusTracker v2)).
    replace (set_focusTracker (focusTracker v2) v2) with v2 in Hready
      by (by destruct v2).
    exact Hready.
Qed.

End NewItems.

Section FillFromConfig.
Import ToolbarView.
Context (L : Layout).
Implicit Types (v : ToolbarView) (u g base : list View) (x item : View).

Lemma grouping_ok_set_console base warnings v :
  grouping_ok base v -> grouping_ok base (set_console warnings v).
Proof. intros [? ? ? ? ? ? ?]. by constructor. Qed.

Lemma ready_less fuel n v : ready fuel (S n) v -> ready fuel n v.
Proof.
  intros [Hs|(?&?&?&?&?)]; [by left|right]. repeat split; try done. lia.
Qed.

Lemma ready_set_console fuel n warnings v :
  ready fuel n v -> ready fuel n (set_console warnings v).
Proof.
  intros [Hs|(?&?&?&[base Hok]&?)]; [by left|right].
  repeat split; try done. exists base. by apply grouping_ok_set_console.
Qed.

Lemma configured_cons factory name config :
  configured factory (name :: config) =
  (if decide (name = "|"%string) then [ToolbarSeparatorView]
   else if has factory name then [Component name] else []) ++
  configured factory config.
Proof.
  unfold configured. simpl.
  by destruct (decide (name = "|"%string)); [|destruct (has factory name)].
Qed.

Lemma unavailableNames_cons factory name config :
  unavailableNames factory (name :: config) =
  (if decide (name = "|"%string) then []
   else if has factory name then [] else [name]) ++
  unavailableNames factory config.
Proof.
  unfold unavailableNames. rewrite filter_cons.
  destruct (decide (name = "|"%string)) as [->|Hsep].
  - by rewrite decide_False by (by intros [? _]).
  - destruct (has factory name) eqn:Hhas.
    + by rewrite decide_False by (by intros [_ ?]).
    + by rewrite decide_True.
Qed.

(** A view made by [new] and added at the end of the items. *)
Lemma runs_add_new fuel n k v :
  ready fuel (S n) v ->
  exists v',
    runs (bind (new_View k) (fun item => items_add L fuel item None)) v tt v' /\
    items v' = items v ++ [{| viewUid := nextUid v; kind := k |}] /\
    console v' = console v /\ ready fuel n v'.
Proof.
  intros [Hs|(Hdyn & Hel & Hitems & [base Hok] & Hfuel)].
  - destruct (runs_items_add_static L fuel
                {| viewUid := nextUid v; kind := k |}
                (set_nextUid (S (nextUid v)) v))
      as (v' & Hrun & Hi & Hc & _ & Hready); [done|].
    exists v'. split; [|split; [done|split; [done|by left]]].
    eapply runs_bind; [apply runs_new_View|exact Hrun].
  - destruct (runs_items_add_dynamic L fuel n
                {| viewUid := nextUid v; kind := k |}
                (set_nextUid (S (nextUid v)) v))
      as (v' & Hrun & Hi & Hc & Hready).
    { repeat split; simpl; try done.
      exists base. apply grouping_ok_set_nextUid; [lia|done]. }
    { simpl. rewrite Hitems. intros Hin.
      apply list_elem_of_fmap in Hin as (c & Hc & Hin).
      pose proof (ok_items_fresh base v Hok) as Hfresh.
      rewrite Forall_forall in Hfresh. specialize (Hfresh c Hin). lia. }
    { simpl. lia. }
    exists v'. split; [|split; [done|split; [done|by right]]].
    eapply runs_bind; [apply runs_new_View|exact Hrun].
Qed.

(** [fillFromConfig], by induction on the config. *)
Lemma runs_fillFromConfig fuel more factory config v :
  ready fuel (length config + more) v ->
  exists v' added,
    fillFromConfig L fuel config factory v = Normal tt v' /\
    items v' = items v ++ added /\
    kind <$> added = configured factory config /\
    console v' =
      console v ++
      ((fun name => {| message := unavailable; name := name |})
         <$> unavailableNames factory config) /\
    ready fuel more v'.
Proof.
  revert v. induction config as [|name config IH]; intros v Hready.
  { exists v, []. split; [apply runs_ret|]. rewrite !app_nil_r. by repeat split. }
  simpl in Hready. unfold fillFromConfig. simpl forEach.
  rewrite configured_cons, unavailableNames_cons.
  destruct (decide (name = "|"%string)) as [Hsep|Hsep].
  - destruct (runs_add_new fuel (length config + more) ToolbarSeparatorView v
                Hready)
      as (v1 & Hrun1 & Hi1 & Hc1 & Hready1).
    destruct (IH v1 Hready1) as (v' & added & Hrun & Hi & Hk & Hc & Hready').
    exists v', ({| viewUid := nextUid v; kind := ToolbarSeparatorView |} :: added).
    split; [eapply runs_bind; [exact Hrun1|exact Hrun]|].
    split; [by rewrite Hi, Hi1, <- app_assoc|].
    split; [by rewrite fmap_cons, Hk|].
    split; [|done]. by rewrite Hc, Hc1.
  - destruct (has factory name) eqn:Hhas.
    + destruct (runs_add_new fuel (length config + more) (Component name) v
                  Hready)
        as (v1 & Hrun1 & Hi1 & Hc1 & Hready1).
      destruct (IH v1 Hready1) as (v' & added & Hrun & Hi & Hk & Hc & Hready').
      exists v', ({| viewUid := nextUid v; kind := Component name |} :: added).
      split; [eapply runs_bind; [exact Hrun1|exact Hrun]|].
      split; [by rewrite Hi, Hi1, <- app_assoc|].
      split; [by rewrite fmap_cons, Hk|].
      split; [|done]. by rewrite Hc, Hc1.
    + destruct (IH (set_console
                      (console v ++ [{| message := unavailable; name := name |}])
                      v))
        as (v' & added & Hrun & Hi & Hk & Hc & Hready').
      { by apply ready_set_console, ready_less. }
      exists v', added.
      split; [eapply runs_bind; [apply runs_modify|exact Hrun]|].
      split; [done|]. split; [done|]. split; [|done].
      rewrite Hc. simpl. by rewrite <- app_assoc.
Qed.

(** [fillFromConfig] where it does what its documentation says.  On a
    toolbar whose items take new items at the end (a static
    toolbar, or a rendered toolbar with dynamic grouping), with fuel for
    the grouping passes of the config and of [more] items after it:
    [fillFromConfig] returns.  It adds to [items], in
    the order of the config, a separator for each ["|"] and the component
    for each name that the factory has, and nothing else; for each other
    name it writes one warning to the console and goes on, so the number
    of items grows by the number of separators and known names. *)
Theorem fillFromConfig_adds_configured fuel more factory config v :
  ready fuel (length config + more) v ->
  exists v' added,
    fillFromConfig L fuel config factory v = Normal tt v' /\
    items v' = items v ++ added /\
    kind <$> added = configured factory config /\
    length (items v') = length (items v) + length (configured factory config) /\
    console v' =
      console v ++
      ((fun name => {| message := unavailable; name := name |})
         <$> unavailableNames factory config) /\
    ready fuel more v'.
Proof.
  intros Hready.
  destruct (runs_fillFromConfig fuel more factory config v Hready)
    as (v' & added & Hrun & Hitems & Hkinds & Hconsole & Hready').
  exists v', added. split; [exact Hrun|]. split; [exact Hitems|].
  split; [exact Hkinds|]. split; [|by split].
  by rewrite Hitems, length_app, <- Hkinds, length_fmap.
Qed.

End FillFromConfig.

(** ** The toolbar: removing an item *)

Section RemoveListener.
Import ToolbarView.
Context (L : Layout).
Implicit Types (v : ToolbarView) (u g base : list View) (x item : View).

Lemma indexOf_absent item (l : list View) :
  viewUid item ∉ viewUid <$> l -> indexOf item l = None.
Proof.
  induction l as [|y l IH]; simpl; [done|]. intros Hnot.
  rewrite decide_False.
  - rewrite IH; [done|]. intros Hin. apply Hnot. by apply list_elem_of_further.
  - intros Heq. apply Hnot. rewrite <- Heq. apply list_elem_of_here.
Qed.

Lemma indexOf_middle u x g :
  viewUid x ∉ viewUid <$> u -> indexOf x (u ++ x :: g) = Some (length u).
Proof.
  induction u as [|y u IH]; simpl; intros Hnot.
  - by rewrite decide_True.
  - rewrite decide_False.
    + rewrite IH; [done|]. intros Hin. apply Hnot. by apply list_elem_of_further.
    + intros Heq. apply Hnot. rewrite Heq. apply list_elem_of_here.
Qed.

(** The listener of [DynamicGrouping] for a removed item, on every toolbar
    whose items are the ungrouped ones followed by the grouped ones: when
    the item is the first grouped one, [items.remove( item )] throws, the
    item is gone from the items and is still grouped. *)
Lemma remove_first_grouped_item_throws fuel x g v :
  shouldGroupWhenFull v = true ->
  groupedItems v = x :: g ->
  items v = ungroupedItems v ++ groupedItems v ->
  NoDup (viewUid <$> items v) ->
  exists v',
    items_remove L fuel (Some x) v =
      Throw (CKEditorError "collection-remove-404") v' /\
    items v' = ungroupedItems v ++ g /\
    ungroupedItems v' = ungroupedItems v /\
    groupedItems v' = x :: g.
Proof.
  intros Hdyn Hg Hitems Hnd. rewrite Hg in Hitems.
  assert (Hx : viewUid x ∉ viewUid <$> ungroupedItems v).
  { rewrite Hitems, fmap_app in Hnd. apply NoDup_app in Hnd as (_ & Hd & _).
    intros Hin. apply (Hd _ Hin). simpl. apply list_elem_of_here. }
  eexists. split.
  - unfold items_remove, bind at 1, remove_from at 1, Collection_remove.
    rewrite Hitems, indexOf_middle by done.
    rewrite take_app_length.
    rewrite drop_app_ge by lia.
    replace (S (length (ungroupedItems v)) - length (ungroupedItems v))
      with 1 by lia.
    simpl drop. unfold bind at 1. unfold fire.
    unfold bind at 1, gets at 1. simpl shouldGroupWhenFull. rewrite Hdyn.
    unfold bind at 1. unfold DynamicGrouping_onRemove.
    unfold bind at 1, gets at 1. simpl ungroupedItems. simpl fst. simpl snd.
    rewrite decide_False by lia.
    unfold bind at 1. unfold bind at 1.
    unfold ungroupedItems_remove, bind at 1, remove_from at 1, Collection_remove.
    simpl ungroupedItems. rewrite indexOf_absent by done. reflexivity.
  - simpl. by rewrite Hg.
Qed.

Lemma indexOf_lookup (l : list View) i x :
  NoDup (viewUid <$> l) -> l !! i = Some x -> indexOf x l = Some i.
Proof.
  revert i. induction l as [|y l IH]; intros i Hnd Hi; [done|].
  rewrite fmap_cons in Hnd. apply NoDup_cons in Hnd as [Hy Hnd].
  destruct i as [|i]; simpl in *.
  - injection Hi as ->. by rewrite decide_True.
  - rewrite decide_False.
    + by rewrite (IH i).
    + intros Heq. apply Hy. rewrite Heq.
      apply list_elem_of_fmap. exists x. split; [done|].
      by eapply list_elem_of_lookup_2.
Qed.

(** The two listeners away from the boundary, on a rendered toolbar that is
    not in the document, where the grouping pass does nothing: an item
    added at any index, and an item removed at any index but the number of
    ungrouped items, leave the items equal to the ungrouped ones followed
    by the grouped ones. *)
Lemma add_listener_keeps_partition fuel item i v :
  viewElement v = Some ToolbarElement -> bodyContains L = false ->
  itemsViewChildren v = ungroupedItems v ->
  i <= length (ungroupedItems v ++ groupedItems v) ->
  exists v',
    runs (DynamicGrouping_onAdd L fuel item i) v tt v' /\
    ungroupedItems v' ++ groupedItems v' =
      take i (ungroupedItems v ++ groupedItems v) ++
      item :: drop i (ungroupedItems v ++ groupedItems v).
Proof.
  intros Hel Hbody Hb Hi. rewrite length_app in Hi.
  unfold DynamicGrouping_onAdd.
  destruct (decide (length (ungroupedItems v) < i)) as [Hlt|Hle].
  - eexists. split.
    { eapply runs_bind; [apply runs_gets|]. simpl. rewrite decide_True by done.
      eapply runs_bind.
      { unfold groupedItems_add.
        eapply runs_bind; [apply runs_add_to_at; lia|]. apply runs_ret. }
      by apply runs_updateGrouping_detached. }
    simpl. rewrite take_app_ge, drop_app_ge by lia. by rewrite <- app_assoc.
  - eexists. split.
    { eapply runs_bind; [apply runs_gets|]. simpl. rewrite decide_False by done.
      eapply runs_bind.
      { unfold ungroupedItems_add.
        eapply runs_bind; [apply runs_add_to_at; lia|].
        eapply runs_bind; [apply runs_add_to_at; simpl; rewrite Hb; lia|].
        apply runs_updateFocusCycleableItems. }
      by apply runs_updateGrouping_detached. }
    simpl. rewrite take_app_le, drop_app_le by lia.
    rewrite <- !app_assoc. reflexivity.
Qed.

Lemma remove_listener_keeps_partition fuel item i v :
  viewElement v = Some ToolbarElement -> bodyContains L = false ->
  itemsViewChildren v = ungroupedItems v ->
  NoDup (viewUid <$> (ungroupedItems v ++ groupedItems v)) ->
  (ungroupedItems v ++ groupedItems v) !! i = Some item ->
  i <> length (ungroupedItems v) ->
  exists v',
    runs (DynamicGrouping_onRemove L fuel item i) v tt v' /\
    ungroupedItems v' ++ groupedItems v' =
      take i (ungroupedItems v ++ groupedItems v) ++
      drop (S i) (ungroupedItems v ++ groupedItems v).
Proof.
  intros Hel Hbody Hb Hnd Hi Hne.
  rewrite fmap_app in Hnd. apply NoDup_app in Hnd as (Hndu & _ & Hndg).
  unfold DynamicGrouping_onRemove.
  destruct (decide (length (ungroupedItems v) < i)) as [Hlt|Hle].
  - rewrite lookup_app_r in Hi by lia.
    pose proof (indexOf_lookup _ _ _ Hndg Hi) as Hidx.
    eexists. split.
    { eapply runs_bind; [apply runs_gets|]. simpl. rewrite decide_True by done.
      eapply runs_bind.
      { eapply runs_bind; [|apply runs_ret].
        unfold groupedItems_remove.
        eapply runs_bind; [|apply runs_ret].
        unfold runs, remove_from, Collection_remove. rewrite Hidx. reflexivity. }
      by apply runs_updateGrouping_detached. }
    simpl. rewrite take_app_ge, drop_app_ge by lia.
    replace (S i - length (ungroupedItems v))
      with (S (i - length (ungroupedItems v))) by lia.
    by rewrite <- app_assoc.
  - rewrite lookup_app_l in Hi by lia.
    pose proof (indexOf_lookup _ _ _ Hndu Hi) as Hidx.
    eexists. split.
    { eapply runs_bind; [apply runs_gets|]. simpl. rewrite decide_False by done.
      eapply runs_bind.
      { eapply runs_bind; [|apply runs_ret].
        unfold ungroupedItems_remove.
        eapply runs_bind.
        { unfold runs, remove_from, Collection_remove. rewrite Hidx. reflexivity. }
        eapply runs_bind.
        { unfold runs, remove_from, Collection_remove. simpl.
          rewrite Hb, Hidx. reflexivity. }
        eapply runs_bind; [apply runs_updateFocusCycleableItems|apply runs_ret]. }
      by apply runs_updateGrouping_detached. }
    simpl. rewrite take_app_le, drop_app_le by lia.
    by rewrite <- app_assoc.
Qed.

End RemoveListener.

(** ** The states that a rendered toolbar reaches *)

Section ReachedStates.
Import ToolbarView.
Context (L : Layout).
Implicit Types (v : ToolbarView) (u g base : list View) (x item : View).

Lemma grouping_ok_rendered base tracked observer v :
  grouping_ok base v ->
  grouping_ok base
    (set_resizeObserver observer
       (set_viewElement (Some ToolbarElement)
          (set_focusTracker tracked (set_isRendered true v)))).
Proof. intros [? ? ? ? ? ? ?]. by constructor. Qed.

Lemma grouping_ok_set_resizeObserver base observer v :
  grouping_ok base v -> grouping_ok base (set_resizeObserver observer v).
Proof. intros [? ? ? ? ? ? ?]. by constructor. Qed.

Lemma newToolbarView_grouping_ok : grouping_ok [itemsView] (newToolbarView true).
Proof.
  constructor; simpl; try done.
  - apply NoDup_nil_2.
  - compute_done.
  - repeat constructor.
Qed.

(** A pass on a rendered toolbar, in the document or not, keeps what
    [dynamic_ready] says. *)
Lemma updateGrouping_ready fuel n v :
  dynamic_ready fuel n v ->
  exists v',
    runs (_updateGrouping L fuel) v tt v' /\ dynamic_ready fuel n v' /\
    same_frame v v'.
Proof.
  intros (Hdyn & Hel & Hitems & [base Hok] & Hfuel).
  assert (Hlen : length (ungroupedItems v) <= fuel /\
                 length (groupedItems v) <= fuel).
  { rewrite Hitems, length_app in Hfuel. lia. }
  destruct (bodyContains L) eqn:Hbody.
  - destruct (runs_updateGrouping L base fuel v Hok (conj Hel Hbody))
      as (v' & Hrun & Hres & Hok' & Hframe & _); [apply Hlen..|].
    exists v'. split; [exact Hrun|]. split; [|exact Hframe].
    pose proof (regroup_concat
      (overflows L (kind <$> base) (padding_in_use L v))
      (ungroupedItems v, groupedItems v)) as Hc.
    rewrite <- Hres in Hc. simpl in Hc.
    destruct Hframe as (Hd' & Hi' & _ & _ & _ & Hel' & _).
    unfold dynamic_ready. rewrite Hd', Hi', Hel', Hc.
    split; [done|]. split; [done|]. split; [done|]. split; [by exists base|done].
  - exists v. split; [by apply runs_updateGrouping_detached|].
    split; [|apply same_frame_refl].
    split; [done|]. split; [done|]. split; [done|]. split; [by exists base|done].
Qed.

(** [render] on a new toolbar with dynamic grouping returns. *)
Lemma render_new_ready fuel n :
  n <= fuel ->
  exists v',
    render L fuel (newToolbarView true) = Normal tt v' /\
    dynamic_ready fuel n v'.
Proof.
  intros Hfuel. rewrite render_dynamic by done.
  match goal with
  | |- exists v', _updateGrouping _ _ ?v1 = _ /\ _ =>
      destruct (updateGrouping_ready fuel n v1) as (v' & Hrun & Hready & _)
  end.
  { split; [done|]. split; [done|]. split; [done|].
    split; [|simpl; lia]. exists [itemsView].
    apply grouping_ok_rendered, newToolbarView_grouping_ok. }
  by exists v'.
Qed.

(** The callback of the resize observer keeps the toolbar ready. *)
Lemma onResize_ready fuel n width v :
  dynamic_ready fuel n v ->
  exists v', onResize L fuel width v = Normal tt v' /\ dynamic_ready fuel n v'.
Proof.
  intros Hready. unfold onResize, bind at 1, gets at 1.
  destruct (resizeObserver v) as [o|] eqn:Ho; [|by exists v].
  match goal with
  | |- context [if ?b then _ else _] => destruct b; [by exists v|]
  end.
  destruct (updateGrouping_ready fuel n v Hready)
    as (v' & Hrun & (Hd & Hel & Hi & [base Hok] & Hf) & Hframe).
  unfold bind, modify. rewrite Hrun.
  destruct Hframe as (_ & _ & _ & _ & _ & _ & Ho' & _).
  rewrite Ho', Ho. eexists. split; [reflexivity|].
  split; [done|]. split; [done|]. split; [done|].
  split; [|done]. exists base. by apply grouping_ok_set_resizeObserver.
Qed.

Lemma fillFromConfig_ready fuel more factory config v :
  dynamic_ready fuel (length config + more) v ->
  exists v',
    fillFromConfig L fuel config factory v = Normal tt v' /\
    dynamic_ready fuel more v'.
Proof.
  intros Hready.
  destruct (runs_fillFromConfig L fuel more factory config v (or_intror Hready))
    as (v' & added & Hrun & _ & _ & _ & Hready').
  exists v'. split; [exact Hrun|].
  destruct Hready' as [(Hstatic & _)|]; [|done].
  pose proof (keeps_fillFromConfig L (fun v => shouldGroupWhenFull v = true)
                ltac:(by constructor) fuel config factory v) as Hkeeps.
  unfold runs in Hrun. rewrite Hrun in Hkeeps.
  destruct Hready as (Hdyn & _). specialize (Hkeeps Hdyn). congruence.
Qed.

End ReachedStates.

Section ReachedHistories.
Import ToolbarView.
Implicit Types (v : ToolbarView) (u g base : list View) (x item : View).

(** After [render], while the toolbar is filled from configs and resized,
    whatever the layout is at each call, every state it reaches is one in
    which a pass returns: the state is ready, given fuel for all the items
    of the configs. *)
Lemma rendered_toolbar_stays_ready fuel (cs : list (Layout * Call)) :
  forall n v,
  Forall fills_or_resizes cs.*2 ->
  dynamic_ready fuel (sum_list (mayAdd <$> cs.*2) + n) v ->
  dynamic_ready fuel n (foldl (performAt fuel) v cs).
Proof.
  induction cs as [|[L call] cs IH]; intros n v Hcs Hready; [done|].
  rewrite fmap_cons in Hcs. apply Forall_cons in Hcs as [Hcall Hcs]. simpl.
  apply IH; [exact Hcs|].
  destruct call as [| |config factory|width| |]; try done;
    unfold performAt; simpl in *.
  - destruct (fillFromConfig_ready L fuel (sum_list (mayAdd <$> cs.*2) + n)
                factory config v) as (v' & -> & Hready').
    { by rewrite Nat.add_assoc. }
    exact Hready'.
  - destruct (onResize_ready L fuel (sum_list (mayAdd <$> cs.*2) + n) width v
                Hready) as (v' & -> & Hready').
    exact Hready'.
Qed.

Lemma history_after_render_ready fuel L (cs : list (Layout * Call)) :
  Forall fills_or_resizes cs.*2 ->
  sum_list (mayAdd <$> cs.*2) <= fuel ->
  dynamic_ready fuel 0 (history fuel true ((L, CallRender) :: cs)).
Proof.
  intros Hcs Hfuel. unfold history. simpl. unfold performAt at 2. simpl.
  destruct (render_new_ready L fuel (sum_list (mayAdd <$> cs.*2) + 0))
    as (v' & -> & Hready); [lia|].
  by apply rendered_toolbar_stays_ready.
Qed.

End ReachedHistories.

(** ** The toolbar on concrete layouts *)

Module ToolbarExamples.
Import ToolbarView Examples.

Lemma narrow_grouping_ok : grouping_ok [itemsView] narrow.
Proof.
  constructor; simpl.
  - reflexivity.
  - compute_done.
  - reflexivity.
  - compute_done.
  - repeat constructor.
  - repeat constructor.
  - exists {| viewUid := 5; kind := ToolbarSeparatorView |}.
    split; [done|]. split; [compute_done|]. split; [compute_done|reflexivity].
Qed.

(** C2, on an example.  The toolbar [narrow] is widened to 200 units: the
    pass takes the three grouped items back, one after the other. *)
Lemma updateGrouping_regroups_witness :
  exists v',
    _updateGrouping (row 200 true) 8 narrow = Normal tt v' /\
    ungroupedItems v' = [bold; italic; separator; link] /\
    groupedItems v' = [].
Proof.
  assert (Hattached : attached (row 200 true) narrow) by (split; reflexivity).
  assert (Hfuel : length (ungroupedItems narrow) +
                  length (groupedItems narrow) <= 8) by (vm_compute; lia).
  destruct (updateGrouping_regroups_to_fit (row 200 true) [itemsView] 8 narrow
              narrow_grouping_ok Hattached Hfuel)
    as (v' & Hrun & Hres & _).
  exists v'. split; [exact Hrun|].
  vm_compute in Hres. injection Hres as Hu' Hg'.
  split; [exact Hu'|exact Hg'].
Defined.

(** The example of the specification, with an unknown name added, on a
    static toolbar. *)
Lemma fillFromConfig_witness :
  exists v',
    fillFromConfig (row 100 true) 0 ["Bold"; "Italic"; "|"; "foo"; "Link"]%string
      basicStyles (newToolbarView false) = Normal tt v' /\
    kind <$> items v' =
      [Component "Bold"; Component "Italic"; ToolbarSeparatorView;
       Component "Link"] /\
    console v' = [{| message := unavailable; name := "foo" |}].
Proof.
  destruct (fillFromConfig_adds_configured (row 100 true) 0 0 basicStyles
              ["Bold"; "Italic"; "|"; "foo"; "Link"]%string
              (newToolbarView false))
    as (v' & added & Hrun & Hitems & Hkinds & _ & Hconsole & _).
  - left. by repeat split.
  - exists v'. split; [exact Hrun|]. split.
    + rewrite Hitems. simpl. rewrite Hkinds. by vm_compute.
    + rewrite Hconsole. by vm_compute.
Defined.

(** The first item of a toolbar with dynamic grouping. *)
Lemma focusables_recomputed_witness :
  exists v',
    change (UngroupedAdd bold None) (newToolbarView true) = Normal tt v' /\
    focusables v' = [bold].
Proof.
  eexists. split; [reflexivity|].
  by destruct (focusables_recomputed_on_change (UngroupedAdd bold None)
                 (newToolbarView true) _ eq_refl) as [-> _].
Defined.

(** C10, on an example: a toolbar that was filled but not rendered. *)
Lemma destroy_before_render_witness :
  let cs := [(row 100 true, CallFillFromConfig ["Bold"]%string basicStyles)] in
  (CallRender ∉ cs.*2) /\
  throws (destroy (history 8 true cs)) = true.
Proof.
  assert (Hnot : CallRender ∉
            [(row 100 true,
              CallFillFromConfig ["Bold"]%string basicStyles)].*2).
  { apply not_elem_of_cons. split; [done|apply not_elem_of_nil]. }
  split; [exact Hnot|].
  destruct (destroy_before_render_throws (row 100 true) 8 _ Hnot)
    as (_ & -> & _).
  reflexivity.
Defined.

(** C3, the failing input.  In [narrow] the items are the ungrouped item
    [bold] followed by the grouped items.  Removing [italic], the first
    grouped item, has index 1, which is not above the number of ungrouped
    items, so the listener asks [ungroupedItems] to remove it: the call
    throws, [italic] is gone from the items and still grouped. *)
Lemma remove_first_grouped_item_breaks_partition :
  items narrow = ungroupedItems narrow ++ groupedItems narrow /\
  ungroupedItems narrow = [bold] /\
  groupedItems narrow = [italic; separator; link] /\
  exists v',
    items_remove (row 100 true) 8 (Some italic) narrow =
      Throw (CKEditorError "collection-remove-404") v' /\
    items v' = [bold; separator; link] /\
    ungroupedItems v' = [bold] /\
    groupedItems v' = [italic; separator; link].
Proof.
  split; [reflexivity|]. split; [reflexivity|]. split; [reflexivity|].
  eexists. split; [vm_compute; reflexivity|]. by repeat split.
Qed.

(** The listener takes the right collection at every other index: [link],
    the last grouped item, is removed from the grouped items. *)
Lemma remove_later_grouped_item_keeps_partition :
  exists v',
    items_remove (row 100 true) 8 (Some link) narrow = Normal link v' /\
    items v' = [bold; italic; separator] /\
    items v' = ungroupedItems v' ++ groupedItems v'.
Proof. eexists. split; [vm_compute; reflexivity|]. by split. Qed.

(** C8, the failing input.  A toolbar with dynamic grouping is rendered
    into a row of 100 units and filled with three items, of which the
    last one has to be grouped.  [_groupLastItem] shows the dropdown and
    takes the item out of the ungrouped items while nothing is grouped
    yet, so each listener of the focus cycle leaves the dropdown out; the
    move into [groupedItems] runs no listener.  When the call has
    returned, something is grouped, the dropdown is shown, and
    [focusables] is not the ungrouped items followed by the dropdown.  It
    stays so: a callback of the resize observer in the same row runs a
    pass that moves nothing. *)
Lemma first_grouped_item_leaves_dropdown_out :
  let v :=
    history 8 true
      [(row 100 true, CallRender);
       (row 100 true,
        CallFillFromConfig ["Bold"; "Link"; "Italic"]%string basicStyles)] in
  viewUid <$> ungroupedItems v = [2; 3] /\
  viewUid <$> groupedItems v = [4] /\
  groupedItemsDropdown v ∈ children v /\
  focusables v = ungroupedItems v /\
  focusables v <> focusCycle v /\
  forall width,
    let v' := perform (row 100 true) 8 v (CallResize width) in
    groupedItems v' = groupedItems v /\ focusables v' = ungroupedItems v.
Proof.
  change (history 8 true _) with oneGrouped. cbv zeta.
  split; [reflexivity|]. split; [reflexivity|]. split; [compute_done|].
  split; [reflexivity|]. split; [by vm_compute|].
  intros width. by vm_compute.
Qed.

(** C7, the failing input.  Before [render], a toolbar with dynamic
    grouping has no element to measure.  [fillFromConfig] with the config
    of the specification adds the first item; its ['add'] listener starts
    [_updateGrouping], which reads [viewElement.ownerDocument] of
    [undefined]; [items.add] hands the exception to [fillFromConfig],
    which does not catch it.  One item is in the toolbar, the other three
    names are never looked at. *)
Lemma fillFromConfig_unrendered_throws :
  exists v',
    fillFromConfig (row 100 true) 8 ["Bold"; "Italic"; "|"; "Link"]%string
      basicStyles (newToolbarView true) =
      Throw (CKEditorError "Cannot read property 'ownerDocument' of undefined")
            v' /\
    kind <$> items v' = [Component "Bold"] /\
    configured basicStyles ["Bold"; "Italic"; "|"; "Link"]%string =
      [Component "Bold"; Component "Italic"; ToolbarSeparatorView;
       Component "Link"].
Proof. eexists. split; [vm_compute; reflexivity|]. by split. Qed.

End ToolbarExamples.

(** ** The static toolbar *)

Section StaticToolbar.
Import ToolbarView.
Context (L : Layout).
Implicit Types (v : ToolbarView) (c u g base : list View) (x item : View).

Lemma Collection_add_inr item index c i c' :
  Collection_add item index c = inr (i, c') ->
  i <= length c /\ c' = take i c ++ item :: drop i c /\
  Collection_add item (Some i) c = inr (i, c').
Proof.
  unfold Collection_add. case_decide; [done|]. intros [= <- <-].
  split; [lia|]. split; [done|]. simpl. by rewrite decide_False.
Qed.

Lemma Collection_remove_inr subject c item i c' :
  Collection_remove subject c = inr (item, i, c') ->
  subject = Some item /\ indexOf item c = Some i /\
  c' = take i c ++ drop (S i) c /\
  Collection_remove (Some item) c = inr (item, i, c').
Proof.
  unfold Collection_remove. destruct subject as [y|]; [|done].
  destruct (indexOf y c) as [j|] eqn:Hj; [|done]. intros [= <- <- <-].
  by rewrite Hj.
Qed.

(** [items.add] on a static toolbar whose bindings are in place. *)
Lemma items_add_static fuel item index v :
  shouldGroupWhenFull v = false -> mirrors_items v ->
  match Collection_add item index (items v) with
  | inl e => items_add L fuel item index v = Throw e v
  | inr (i, c) =>
      items_add L fuel item index v =
      Normal tt
        (set_focusTracker
           (if isRendered v then focusTracker v ++ [item] else focusTracker v)
           (set_focusables c (set_itemsViewChildren c (set_items c v))))
  end.
Proof.
  intros Hstatic [Hshown Hcycle].
  destruct (Collection_add item index (items v)) as [e|[i c]] eqn:Hadd.
  { unfold items_add, bind, add_to. by rewrite Hadd. }
  pose proof (Collection_add_inr _ _ _ _ _ Hadd) as (Hi & Hc & Hadd').
  unfold items_add. unfold bind at 1. unfold add_to at 1. rewrite Hadd.
  unfold fire.
  unfold bind at 1. unfold gets at 1. cbn [shouldGroupWhenFull set_items].
  rewrite Hstatic. unfold bind at 1. unfold StaticLayout_onAdd.
  unfold bind at 1. unfold add_to at 1. cbn [itemsViewChildren set_items].
  rewrite Hshown, Hadd'.
  unfold bind at 1. unfold add_to at 1.
  cbn [focusables set_items set_itemsViewChildren].
  rewrite Hcycle, Hadd'. unfold ret at 1.
  unfold bind at 1. unfold gets at 1.
  cbn [isRendered set_items set_itemsViewChildren set_focusables].
  by destruct (isRendered v).
Qed.

(** [items.remove] on a static toolbar whose bindings are in place. *)
Lemma items_remove_static fuel subject v :
  shouldGroupWhenFull v = false -> mirrors_items v ->
  match Collection_remove subject (items v) with
  | inl e => items_remove L fuel subject v = Throw e v
  | inr (item, i, c) =>
      items_remove L fuel subject v =
      Normal item
        (set_focusTracker
           (if isRendered v
            then filter (fun x => viewUid x <> viewUid item) (focusTracker v)
            else focusTracker v)
           (set_focusables c (set_itemsViewChildren c (set_items c v))))
  end.
Proof.
  intros Hstatic [Hshown Hcycle].
  destruct (Collection_remove subject (items v)) as [e|[[item i] c]] eqn:Hrem.
  { unfold items_remove, bind, remove_from. by rewrite Hrem. }
  pose proof (Collection_remove_inr _ _ _ _ _ Hrem) as (_ & _ & _ & Hrem').
  unfold items_remove. unfold bind at 1. unfold remove_from at 1. rewrite Hrem.
  cbn [fst snd]. unfold bind at 1. unfold fire.
  unfold bind at 1. unfold gets at 1. cbn [shouldGroupWhenFull set_items].
  rewrite Hstatic. unfold bind at 1. unfold bind at 1.
  unfold StaticLayout_onRemove.
  unfold bind at 1. unfold remove_from at 1. cbn [itemsViewChildren set_items].
  rewrite Hshown, Hrem'.
  unfold bind at 1. unfold remove_from at 1.
  cbn [focusables set_items set_itemsViewChildren].
  rewrite Hcycle, Hrem'. unfold ret at 1. unfold gets at 1.
  cbn [isRendered set_items set_itemsViewChildren set_focusables].
  by destruct (isRendered v).
Qed.

Lemma keeps_items_add_static fuel item index :
  keeps static_layout (items_add L fuel item index).
Proof.
  intros v (Hstatic & Hmirror & Hu & Hg & Hch & Hro).
  pose proof (items_add_static fuel item index v Hstatic Hmirror) as Hrun.
  destruct (Collection_add item index (items v)) as [e|[i c]]; rewrite Hrun.
  - done.
  - by repeat split.
Qed.

Lemma keeps_items_remove_static fuel subject :
  keeps static_layout (items_remove L fuel subject).
Proof.
  intros v (Hstatic & Hmirror & Hu & Hg & Hch & Hro).
  pose proof (items_remove_static fuel subject v Hstatic Hmirror) as Hrun.
  destruct (Collection_remove subject (items v)) as [e|[[item i] c]];
    rewrite Hrun.
  - done.
  - by repeat split.
Qed.

Lemma keeps_fillFromConfig_by (P : ToolbarView -> Prop) fuel config factory :
  (forall n v, P v -> P (set_nextUid n v)) ->
  (forall w v, P v -> P (set_console w v)) ->
  (forall item, keeps P (items_add L fuel item None)) ->
  keeps P (fillFromConfig L fuel config factory).
Proof.
  intros Hn Hw Hadd. unfold fillFromConfig. apply keeps_forEach. intros name.
  destruct (decide (name = "|"%string)).
  { apply keeps_bind; [|by intros ?]. intros v Hv. by apply Hn. }
  destruct (has factory name).
  { apply keeps_bind; [|by intros ?]. intros v Hv. by apply Hn. }
  intros v Hv. by apply Hw.
Qed.

Lemma keeps_items_add_end_tracked rendered fuel item :
  keeps (tracks_items rendered) (items_add L fuel item None).
Proof.
  intros v ((Hstatic & Hmirror & Hu & Hg & Hch & Hro) & Hr & Htracked).
  pose proof (items_add_static fuel item None v Hstatic Hmirror) as Hrun.
  rewrite Collection_add_end in Hrun. rewrite Hrun.
  split; [by repeat split|]. split; [done|].
  simpl. rewrite Hr. destruct rendered; [|done]. by rewrite Htracked.
Qed.

End StaticToolbar.

(** The static toolbar over histories of calls, under any layouts. *)

Section StaticHistories.
Import ToolbarView.
Implicit Types (v : ToolbarView) (c u g base : list View) (x item : View).

Lemma perform_static_layout fuel (call : Layout * Call) v :
  static_layout v -> static_layout (performAt fuel v call).
Proof.
  intros Hv.
  destruct call as [L [item index|subject|config factory|width| |]];
    unfold performAt; simpl.
  - apply after_keeps; [apply keeps_items_add_static|done].
  - apply after_keeps; [apply keeps_items_remove_static|done].
  - apply after_keeps; [|done]. apply keeps_fillFromConfig_by.
    + by intros n w (?&[??]&?&?&?&?).
    + by intros n w (?&[??]&?&?&?&?).
    + intros item. apply keeps_items_add_static.
  - destruct Hv as (?&[??]&?&?&?&Hro).
    unfold onResize, bind, gets. rewrite Hro. simpl. by repeat split.
  - destruct Hv as (Hstatic&[??]&?&?&?&?).
    unfold render. erewrite bind_runs by apply runs_gets.
    destruct (isRendered v); [simpl; by repeat split|].
    erewrite bind_runs by apply runs_modify.
    erewrite bind_runs by apply runs_gets.
    erewrite bind_runs by apply runs_forEach_focusTracker_add.
    erewrite bind_runs by apply runs_gets.
    cbn [shouldGroupWhenFull set_focusTracker set_isRendered].
    rewrite Hstatic. simpl. by repeat split.
  - destruct Hv as (Hstatic&[??]&?&?&?&?).
    unfold destroy, bind, gets, modify, ret. rewrite Hstatic. simpl.
    by repeat split.
Qed.

(** X7.  A toolbar without dynamic grouping, after any calls, whatever
    the page is like at each of them: the items view shows the items and
    the focus cycle holds the items, one to one and in order; nothing is
    ever grouped and the toolbar shows the items view alone. *)
Theorem static_toolbar_shows_every_item fuel (cs : list (Layout * Call)) :
  let v := history fuel false cs in
  itemsViewChildren v = items v /\ focusables v = items v /\
  children v = [itemsView] /\
  ungroupedItems v = [] /\ groupedItems v = [].
Proof.
  assert (Hgen : forall v,
    static_layout v -> static_layout (foldl (performAt fuel) v cs)).
  { induction cs as [|call cs IH]; intros v Hv; simpl; [done|].
    by apply IH, perform_static_layout. }
  destruct (Hgen (newToolbarView false)) as (_ & [Hs Hf] & Hu & Hg & Hch & _).
  { by repeat split. }
  by repeat split.
Qed.

Lemma perform_tracks_items rendered fuel (call : Layout * Call) v :
  fills_or_resizes call.2 ->
  tracks_items rendered v -> tracks_items rendered (performAt fuel v call).
Proof.
  intros Hcall Hv.
  destruct call as [L [item index|subject|config factory|width| |]];
    unfold performAt; simpl in *; try done.
  - apply after_keeps; [|done]. apply keeps_fillFromConfig_by.
    + by intros n w ((?&[??]&?&?&?&?)&?&?).
    + by intros n w ((?&[??]&?&?&?&?)&?&?).
    + apply keeps_items_add_end_tracked.
  - destruct Hv as ((?&?&?&?&?&Hro)&?&?).
    unfold onResize, bind, gets. by rewrite Hro.
Qed.

Lemma history_tracks_items rendered fuel (cs : list (Layout * Call)) :
  forall v,
  Forall fills_or_resizes cs.*2 ->
  tracks_items rendered v ->
  tracks_items rendered (foldl (performAt fuel) v cs).
Proof.
  induction cs as [|call cs IH]; intros v Hcs Hv; simpl; [done|].
  rewrite fmap_cons in Hcs. apply Forall_cons in Hcs as [Hcall Hcs].
  by apply IH, perform_tracks_items.
Qed.

Lemma render_tracks_items L fuel v :
  tracks_items false v -> tracks_items true (perform L fuel v CallRender).
Proof.
  intros ((Hstatic&[??]&?&?&?&?)&Hr&Htracked). simpl.
  unfold render. erewrite bind_runs by apply runs_gets. rewrite Hr.
  erewrite bind_runs by apply runs_modify.
  erewrite bind_runs by apply runs_gets.
  erewrite bind_runs by apply runs_forEach_focusTracker_add.
  erewrite bind_runs by apply runs_gets.
  cbn [shouldGroupWhenFull set_focusTracker set_isRendered].
  rewrite Hstatic. simpl. rewrite Htracked. by repeat split.
Qed.

(** X8.  [ToolbarView#render] and the focus tracker of a static toolbar
    that is filled from configs.  Before [render] the tracker knows
    nothing.  [render] hands it every item added so far, and from then on
    every new item as it is added, so that after [render] the tracker
    knows the items, in their order. *)
Theorem static_toolbar_tracks_items_from_render fuel L
    (before later : list (Layout * Call)) :
  Forall fills_or_resizes before.*2 -> Forall fills_or_resizes later.*2 ->
  focusTracker (history fuel false before) = [] /\
  focusTracker (history fuel false (before ++ (L, CallRender) :: later)) =
    items (history fuel false (before ++ (L, CallRender) :: later)).
Proof.
  intros Hbefore Hlater.
  assert (Hnew : tracks_items false (newToolbarView false)) by by repeat split.
  pose proof (history_tracks_items false fuel before _ Hbefore Hnew) as Hb.
  split; [apply Hb|].
  unfold history. rewrite foldl_app. simpl.
  apply (render_tracks_items L fuel) in Hb.
  apply (history_tracks_items true fuel later _ Hlater Hb).
Qed.

End StaticHistories.

(** ** The toolbar with dynamic grouping where nothing is measured *)

Section UnmeasuredToolbar.
Import ToolbarView.
Context (L : Layout).
Implicit Types (v : ToolbarView) (c u g base : list View) (x item : View).
Local Open Scope js_scope.

(** [items.add] on a toolbar with dynamic grouping while nothing is
    grouped: the item goes to the ungrouped items at the same index, and
    the grouping pass starts. *)
Lemma items_add_ungrouped fuel item index v :
  shouldGroupWhenFull v = true -> mirrors_items v -> nothing_grouped v ->
  match Collection_add item index (items v) with
  | inl e => items_add L fuel item index v = Throw e v
  | inr (i, c) =>
      items_add L fuel item index v =
      fire (_updateGrouping L fuel;;;
            rendered <- gets isRendered;;
            if rendered : bool then focusTracker_add item else ret tt)
        (set_focusables c
           (set_itemsViewChildren c (set_ungroupedItems c (set_items c v))))
  end.
Proof.
  intros Hdyn [Hshown Hcycle] (Hg & Hu & Hch).
  destruct (Collection_add item index (items v)) as [e|[i c]] eqn:Hadd.
  { unfold items_add, bind, add_to. by rewrite Hadd. }
  pose proof (Collection_add_inr _ _ _ _ _ Hadd) as (Hi & Hc & Hadd').
  unfold items_add. unfold bind at 1. unfold add_to at 1. rewrite Hadd.
  unfold fire.
  unfold bind at 1. unfold gets at 1. cbn [shouldGroupWhenFull set_items].
  rewrite Hdyn. unfold bind at 1. unfold DynamicGrouping_onAdd.
  unfold bind at 1. unfold gets at 1. cbn [ungroupedItems set_items].
  rewrite Hu, decide_False by lia.
  unfold bind at 1. unfold ungroupedItems_add.
  unfold bind at 1. unfold add_to at 1. cbn [ungroupedItems set_items].
  rewrite Hu, Hadd'.
  unfold bind at 1. unfold add_to at 1.
  cbn [itemsViewChildren set_items set_ungroupedItems].
  rewrite Hshown, Hadd'.
  rewrite runs_updateFocusCycleableItems.
  unfold focusCycle.
  cbn [groupedItems ungroupedItems set_items set_ungroupedItems
       set_itemsViewChildren].
  rewrite Hg, decide_True, app_nil_r by done.
  reflexivity.
Qed.

Lemma items_remove_ungrouped fuel subject v :
  shouldGroupWhenFull v = true -> mirrors_items v -> nothing_grouped v ->
  match Collection_remove subject (items v) with
  | inl e => items_remove L fuel subject v = Throw e v
  | inr (item, i, c) =>
      items_remove L fuel subject v =
      (fire (_updateGrouping L fuel;;;
             rendered <- gets isRendered;;
             if rendered : bool then focusTracker_remove item else ret tt);;;
       ret item)
        (set_focusables c
           (set_itemsViewChildren c (set_ungroupedItems c (set_items c v))))
  end.
Proof.
  intros Hdyn [Hshown Hcycle] (Hg & Hu & Hch).
  destruct (Collection_remove subject (items v)) as [e|[[item i] c]] eqn:Hrem.
  { unfold items_remove, bind, remove_from. by rewrite Hrem. }
  pose proof (Collection_remove_inr _ _ _ _ _ Hrem) as (_ & Hi & _ & Hrem').
  apply indexOf_lt in Hi.
  unfold items_remove. unfold bind at 1. unfold remove_from at 1. rewrite Hrem.
  cbn [fst snd]. unfold bind at 1. unfold fire.
  unfold bind at 1. unfold gets at 1. cbn [shouldGroupWhenFull set_items].
  rewrite Hdyn. unfold bind at 1. unfold DynamicGrouping_onRemove.
  unfold bind at 1. unfold gets at 1. cbn [ungroupedItems set_items].
  rewrite Hu, decide_False by lia.
  unfold bind at 1. unfold bind at 1. unfold ungroupedItems_remove.
  unfold bind at 1. unfold remove_from at 1. cbn [ungroupedItems set_items].
  rewrite Hu, Hrem'. cbn [fst snd].
  unfold bind at 1. unfold remove_from at 1.
  cbn [itemsViewChildren set_items set_ungroupedItems].
  rewrite Hshown, Hrem'.
  unfold bind at 1.
  rewrite runs_updateFocusCycleableItems.
  unfold focusCycle.
  cbn [groupedItems ungroupedItems set_items set_ungroupedItems
       set_itemsViewChildren].
  rewrite Hg, decide_True, app_nil_r by done.
  reflexivity.
Qed.

(** A pass on a toolbar without an element throws before it has changed
    anything; on a toolbar outside the document it returns at once. *)
Lemma updateGrouping_unmeasured fuel v :
  viewElement v = None \/ bodyContains L = false ->
  _updateGrouping L fuel v =
    Throw (TypeError "Cannot read property 'ownerDocument' of undefined") v \/
  _updateGrouping L fuel v = Normal tt v.
Proof.
  intros Hq. unfold _updateGrouping, bind, gets, throw, ret.
  destruct (viewElement v); [|by left].
  destruct Hq as [Hq|Hq]; [done|]. rewrite Hq. by right.
Qed.

Lemma unmeasured_moved c v :
  unmeasured L v ->
  unmeasured L
    (set_focusables c
       (set_itemsViewChildren c (set_ungroupedItems c (set_items c v)))).
Proof. intros (?&[??]&(?&?&?)&?). by repeat split. Qed.

Lemma unmeasured_set_focusTracker tracked v :
  unmeasured L v -> unmeasured L (set_focusTracker tracked v).
Proof. intros (?&[??]&(?&?&?)&?). by repeat split. Qed.

Lemma keeps_items_add_unmeasured fuel item index :
  keeps (unmeasured L) (items_add L fuel item index).
Proof.
  intros v Hv. pose proof Hv as (Hdyn & Hmirror & Hnothing & Hq).
  pose proof (items_add_ungrouped fuel item index v Hdyn Hmirror Hnothing)
    as Hrun.
  destruct (Collection_add item index (items v)) as [e|[i c]]; rewrite Hrun;
    [done|].
  pose proof (unmeasured_moved c v Hv) as Hv1.
  set (v1 := set_focusables c _) in *.
  destruct (updateGrouping_unmeasured fuel v1) as [Hpass|Hpass];
    [destruct Hq; [by left|by right]| |];
    unfold fire, bind at 1; rewrite Hpass; [done|].
  unfold bind, gets, focusTracker_add, modify, ret.
  destruct (isRendered v1); [|done]. by apply unmeasured_set_focusTracker.
Qed.

Lemma keeps_items_remove_unmeasured fuel subject :
  keeps (unmeasured L) (items_remove L fuel subject).
Proof.
  intros v Hv. pose proof Hv as (Hdyn & Hmirror & Hnothing & Hq).
  pose proof (items_remove_ungrouped fuel subject v Hdyn Hmirror Hnothing)
    as Hrun.
  destruct (Collection_remove subject (items v)) as [e|[[item i] c]];
    rewrite Hrun; [done|].
  pose proof (unmeasured_moved c v Hv) as Hv1.
  set (v1 := set_focusables c _) in *.
  destruct (updateGrouping_unmeasured fuel v1) as [Hpass|Hpass];
    [destruct Hq; [by left|by right]| |];
    unfold bind at 1, fire, bind at 1; rewrite Hpass; [done|].
  unfold bind, gets, focusTracker_remove, modify, ret.
  destruct (isRendered v1); [|done]. by apply unmeasured_set_focusTracker.
Qed.

Lemma perform_unmeasured fuel (call : Call) v :
  (call = CallRender -> bodyContains L = false) ->
  unmeasured L v -> unmeasured L (perform L fuel v call).
Proof.
  intros Hcall Hv.
  destruct call as [item index|subject|config factory|width| |]; simpl.
  - apply after_keeps; [apply keeps_items_add_unmeasured|done].
  - apply after_keeps; [apply keeps_items_remove_unmeasured|done].
  - apply after_keeps; [|done]. apply keeps_fillFromConfig_by.
    + by intros n w (?&[??]&(?&?&?)&?).
    + by intros n w (?&[??]&(?&?&?)&?).
    + intros item. apply keeps_items_add_unmeasured.
  - unfold onResize, bind at 1, gets at 1.
    destruct (resizeObserver v) as [o|] eqn:Ho; [|done].
    match goal with
    | |- context [if ?b then _ else _] => destruct b; [done|]
    end.
    destruct (updateGrouping_unmeasured fuel v) as [Hpass|Hpass];
      [apply Hv| |]; unfold bind; rewrite Hpass; [done|].
    unfold modify. rewrite Ho. simpl.
    destruct Hv as (?&[??]&(?&?&?)&?). by repeat split.
  - destruct (isRendered v) eqn:Hr.
    { unfold render, bind, gets. by rewrite Hr. }
    pose proof Hv as (Hdyn&[??]&(?&?&?)&?).
    rewrite render_dynamic by done.
    rewrite runs_updateGrouping_detached; [|done|by apply Hcall].
    simpl. repeat split; try done. by right; apply Hcall.
  - pose proof Hv as (Hdyn&[??]&(?&?&?)&?).
    unfold destroy, DynamicGrouping_destroy, bind, gets, modify, throw.
    rewrite Hdyn. destruct (resizeObserver v); [|done]. simpl.
    by repeat split.
Qed.

Lemma unmeasured_elsewhere K v :
  unmeasured L v -> viewElement v = None \/ bodyContains K = false ->
  unmeasured K v.
Proof. intros (?&?&?&_) ?. by split_and!. Qed.

End UnmeasuredToolbar.

(** Histories in which nothing is measured: every call finds the toolbar
    outside the document, or [render] is not among the calls. *)

Section UnmeasuredHistories.
Import ToolbarView.
Implicit Types (v : ToolbarView) (c u g base : list View) (x item : View).

Lemma newToolbarView_unmeasured L : unmeasured L (newToolbarView true).
Proof. repeat split. by left. Qed.

Lemma history_outside_document fuel (cs : list (Layout * Call)) :
  forall L v,
  Forall (fun call => bodyContains call.1 = false) cs ->
  unmeasured L v ->
  exists K, unmeasured K (foldl (performAt fuel) v cs).
Proof.
  induction cs as [|[K call] cs IH]; intros L v Hcs Hv; simpl;
    [by exists L|].
  apply Forall_cons in Hcs as [Hcall Hcs]. simpl in Hcall.
  apply (IH K); [done|]. unfold performAt. simpl.
  apply perform_unmeasured; [done|].
  apply (unmeasured_elsewhere L); [done|by right].
Qed.

Lemma history_before_render fuel (cs : list (Layout * Call)) :
  forall v,
  CallRender ∉ cs.*2 -> unrendered v ->
  (forall L, unmeasured L v) ->
  forall L, unmeasured L (foldl (performAt fuel) v cs).
Proof.
  induction cs as [|[K call] cs IH]; intros v Hnot Hun Hv; simpl; [done|].
  rewrite fmap_cons in Hnot. apply not_elem_of_cons in Hnot as [Hcall Hnot].
  simpl in Hcall.
  assert (Hun' : unrendered (performAt fuel v (K, call))).
  { by apply perform_unrendered. }
  apply IH; [done..|]. intros L.
  apply (unmeasured_elsewhere K); [|left; apply Hun'].
  unfold performAt. simpl. apply perform_unmeasured; [done|apply Hv].
Qed.

(** X9.  A toolbar with dynamic grouping whose element is not in the
    document at any of the calls.  Whatever is called, and whether
    [render] has run or not, nothing is grouped: the ungrouped items are
    the items, the items view and the focus cycle show all of them and the
    dropdown is never shown. *)
Theorem toolbar_outside_document_groups_nothing fuel
    (cs : list (Layout * Call)) :
  Forall (fun call => bodyContains call.1 = false) cs ->
  let v := history fuel true cs in
  groupedItems v = [] /\ ungroupedItems v = items v /\
  itemsViewChildren v = items v /\ focusables v = items v /\
  children v = [itemsView].
Proof.
  intros Hbody v.
  destruct (history_outside_document fuel cs
              {| uiLanguageDirection := "ltr"; bodyContains := false;
                 paddingRight := NaN; paddingLeft := NaN;
                 lastChildRect := fun _ _ => {| left := 0; right := 0 |};
                 toolbarRect := fun _ _ => {| left := 0; right := 0 |} |}
              (newToolbarView true) Hbody)
    as (K & _ & [Hshown Hcycle] & (Hg & Hu & Hch) & _).
  { apply newToolbarView_unmeasured. }
  by repeat split.
Qed.

End UnmeasuredHistories.

(** ** The toolbar with dynamic grouping before [render] *)

Section BeforeRender.
Import ToolbarView.
Context (L : Layout).
Implicit Types (v : ToolbarView) (c u g base : list View) (x item : View).
Local Open Scope js_scope.

(** X10.  A toolbar with dynamic grouping before [render], after any
    calls, whatever the page is like at each of them.  Nothing is grouped.
    Every [items.add] of a view that the toolbar does not hold, at an
    index within bounds, throws: the grouping pass reads
    [viewElement.ownerDocument] while [viewElement] is [undefined], and
    [fire] hands the [TypeError] of the listener to the caller as a
    [CKEditorError] with the same message.  The exception comes after the
    item has been put into [items] and into the ungrouped items at that
    index.  The same holds of every [items.remove] of an item that the
    toolbar has.  The focus tracker is not told. *)
Theorem items_change_before_render_throws fuel (cs : list (Layout * Call)) :
  CallRender ∉ cs.*2 ->
  let v := history fuel true cs in
  let noElement :=
    CKEditorError "Cannot read property 'ownerDocument' of undefined" in
  (groupedItems v = [] /\ ungroupedItems v = items v /\
   itemsViewChildren v = items v /\ focusables v = items v) /\
  (forall item index,
     viewUid item ∉ viewUid <$> items v ->
     let i := default (length (items v)) index in
     i <= length (items v) ->
     exists v',
       items_add L fuel item index v = Throw noElement v' /\
       items v' = take i (items v) ++ item :: drop i (items v) /\
       ungroupedItems v' = items v' /\ groupedItems v' = [] /\
       focusTracker v' = focusTracker v) /\
  (forall item i,
     indexOf item (items v) = Some i ->
     exists v',
       items_remove L fuel (Some item) v = Throw noElement v' /\
       items v' = take i (items v) ++ drop (S i) (items v) /\
       ungroupedItems v' = items v' /\ groupedItems v' = [] /\
       focusTracker v' = focusTracker v).
Proof.
  intros Hnot v noElement.
  assert (Hun : unrendered v).
  { apply history_unrendered; [done|by repeat split]. }
  assert (Hv : unmeasured L v).
  { apply history_before_render; [done|by repeat split|].
    apply newToolbarView_unmeasured. }
  assert (Hel : viewElement v = None) by apply Hun.
  pose proof Hv as (Hdyn & [Hshown Hcycle] & (Hg & Hu & Hch) & _).
  split; [by repeat split|]. split.
  - intros item index _ i Hi.
    pose proof (items_add_ungrouped L fuel item index v Hdyn
                  (conj Hshown Hcycle) (conj Hg (conj Hu Hch))) as Hrun.
    assert (Hadd : Collection_add item index (items v) =
                   inr (i, take i (items v) ++ item :: drop i (items v))).
    { unfold Collection_add. fold i. by rewrite decide_False by lia. }
    rewrite Hadd in Hrun. rewrite Hrun.
    eexists. split.
    { unfold fire, bind at 1. unfold _updateGrouping, bind, gets, throw.
      cbn [viewElement set_focusables set_itemsViewChildren
           set_ungroupedItems set_items].
      rewrite Hel. reflexivity. }
    by repeat split.
  - intros item i Hidx.
    pose proof (items_remove_ungrouped L fuel (Some item) v Hdyn
                  (conj Hshown Hcycle) (conj Hg (conj Hu Hch))) as Hrun.
    unfold Collection_remove in Hrun. rewrite Hidx in Hrun. rewrite Hrun.
    eexists. split.
    { unfold bind at 1. unfold fire, bind at 1.
      unfold _updateGrouping, bind, gets, throw.
      cbn [viewElement set_focusables set_itemsViewChildren
           set_ungroupedItems set_items].
      rewrite Hel. reflexivity. }
    by repeat split.
Qed.

Lemma forEach_app {A} (l1 l2 : list A) (f : A -> Js ToolbarView unit) v :
  forEach (l1 ++ l2) f v = (forEach l1 f;;; forEach l2 f) v.
Proof.
  revert v. induction l1 as [|a l1 IH]; intros v; simpl; [done|].
  unfold bind in *. destruct (f a v) as [[] v1|e v1|]; [|done|done].
  apply IH.
Qed.

(** Names that add nothing are written to the console, one warning each. *)
Lemma fillFromConfig_unavailable fuel factory config v :
  configured factory config = [] ->
  fillFromConfig L fuel config factory v =
  Normal tt (set_console (console v ++ warnings config) v).
Proof.
  revert v. induction config as [|name config IH]; intros v Hnone.
  { unfold fillFromConfig, warnings. simpl. rewrite app_nil_r.
    unfold ret. by destruct v. }
  rewrite configured_cons in Hnone.
  destruct (decide (name = "|"%string)) as [Hsep|Hsep]; [done|].
  destruct (has factory name) eqn:Hhas; [done|]. simpl in Hnone.
  unfold fillFromConfig in *. simpl forEach.
  rewrite decide_False, Hhas by done.
  unfold bind, console_warn, modify. rewrite IH by done.
  simpl. unfold warnings. simpl. by rewrite <- app_assoc.
Qed.

(** X11.  [fillFromConfig] on a toolbar with dynamic grouping before
    [render], after any calls.  The names that add nothing are written to
    the console, each with the text that [attachLinkToDocumentation]
    makes; the first name that adds an item adds it and the call throws
    what [items.add] throws, the [CKEditorError] that [fire] makes of the
    [TypeError] of the grouping pass, so the rest of the config is
    lost. *)
Theorem fillFromConfig_before_render_adds_one fuel
    (cs : list (Layout * Call))
    factory (skipped : list string) name (rest : list string) k :
  CallRender ∉ cs.*2 ->
  configured factory skipped = [] ->
  configured factory [name] = [k] ->
  let v := history fuel true cs in
  exists v',
    fillFromConfig L fuel (skipped ++ name :: rest) factory v =
      Throw (CKEditorError "Cannot read property 'ownerDocument' of undefined") v' /\
    items v' = items v ++ [{| viewUid := nextUid v; kind := k |}] /\
    ungroupedItems v' = items v' /\
    console v' = console v ++ warnings skipped.
Proof.
  intros Hnot Hskipped Hname v.
  assert (Hv : unmeasured L v).
  { apply history_before_render; [done|by repeat split|].
    apply newToolbarView_unmeasured. }
  assert (Hel : viewElement v = None).
  { apply (history_unrendered fuel cs (newToolbarView true) Hnot).
    by repeat split. }
  pose proof Hv as (Hdyn & [Hshown Hcycle] & (Hg & Hu & Hch) & _).
  unfold fillFromConfig. rewrite forEach_app. unfold bind at 1.
  pose proof (fillFromConfig_unavailable fuel factory skipped v Hskipped)
    as Hwarn.
  unfold fillFromConfig in Hwarn. rewrite Hwarn. simpl forEach.
  set (v0 := set_console (console v ++ warnings skipped) v).
  assert (Hstep : forall item : View,
    exists v',
      items_add L fuel item None (set_nextUid (S (nextUid v)) v0) =
        Throw (CKEditorError "Cannot read property 'ownerDocument' of undefined")
              v' /\
      items v' = items v ++ [item] /\ ungroupedItems v' = items v' /\
      console v' = console v ++ warnings skipped).
  { intros item.
    pose proof (items_add_ungrouped L fuel item None
                  (set_nextUid (S (nextUid v)) v0) Hdyn
                  (conj Hshown Hcycle) (conj Hg (conj Hu Hch))) as Hrun.
    rewrite Collection_add_end in Hrun. rewrite Hrun.
    eexists. split.
    { unfold fire, bind at 1. unfold _updateGrouping, bind, gets, throw.
      cbn [viewElement set_focusables set_itemsViewChildren
           set_ungroupedItems set_items set_nextUid]. subst v0.
      cbn [viewElement set_console].
      rewrite Hel. reflexivity. }
    by repeat split. }
  rewrite configured_cons in Hname. simpl in Hname. rewrite app_nil_r in Hname.
  destruct (decide (name = "|"%string)) as [Hsep|Hsep].
  - injection Hname as <-.
    destruct (Hstep {| viewUid := nextUid v; kind := ToolbarSeparatorView |})
      as (v' & Hrun & Hi & Hu' & Hc').
    exists v'. split; [|done].
    unfold bind at 1. unfold bind at 1. unfold new_View at 1.
    change (nextUid v0) with (nextUid v).
    by rewrite Hrun.
  - destruct (has factory name) eqn:Hhas; [|done].
    injection Hname as <-.
    destruct (Hstep {| viewUid := nextUid v; kind := Component name |})
      as (v' & Hrun & Hi & Hu' & Hc').
    exists v'. split; [|done].
    unfold bind at 1. unfold bind at 1. unfold new_View at 1.
    change (nextUid v0) with (nextUid v).
    by rewrite Hrun.
Qed.

End BeforeRender.

(** ** More about the grouping pass and its steps *)

Section PassProperties.
Import ToolbarView.
Context (L : Layout).
Implicit Types (v : ToolbarView) (c u g base : list View) (x item : View).

(** X12.  A grouping pass groups no more than it has to.  After a pass on
    a toolbar in the document, either nothing is grouped, or taking the
    first grouped item back makes the toolbar overflow. *)
Theorem updateGrouping_groups_no_more_than_needed base fuel v :
  grouping_ok base v -> attached L v ->
  length (ungroupedItems v) + length (groupedItems v) <= fuel ->
  exists v',
    _updateGrouping L fuel v = Normal tt v' /\
    (groupedItems v' = [] \/
     exists v1 v2,
       _ungroupFirstItem v' = Normal tt v1 /\
       _areItemsOverflowing L v1 = Normal true v2).
Proof.
  intros Hok Hatt Hfuel.
  destruct (runs_updateGrouping L base fuel v Hok Hatt)
    as (v' & Hrun & Hres & Hok' & Hframe & Hp); [lia..|].
  exists v'. split; [exact Hrun|].
  destruct (groupedItems v') as [|x g] eqn:Hg'; [by left|right].
  set (overflow := overflows L (kind <$> base) (padding_in_use L v)) in *.
  destruct (regroup_tight overflow (ungroupedItems v, groupedItems v) x g)
    as [_ Hnext]; [done|by rewrite <- Hres|].
  rewrite <- Hres in Hnext. cbn [fst] in Hnext.
  destruct (runs_ungroupFirstItem base x g v' Hok' Hg')
    as (v1 & Hmove & Hu1 & Hg1 & Hok1 & Hframe1 & Hcp1).
  assert (Hel1 : viewElement v1 = Some ToolbarElement).
  { destruct Hframe1 as (_&_&_&_&_&->&_).
    destruct Hframe as (_&_&_&_&_&->&_). apply Hatt. }
  destruct (runs_areItemsOverflowing L base v1 Hok1 Hel1)
    as (v2 & Hget & _).
  rewrite (padding_in_use_same L _ _ Hcp1), Hp, Hu1, Hg1 in Hget.
  fold overflow in Hget. rewrite Hnext in Hget.
  by exists v1, v2.
Qed.

Lemma overflows_NaN (kinds : list ViewKind) (s : Grouping) :
  overflows L kinds NaN s = false.
Proof.
  unfold overflows. destruct s.1; [done|].
  by destruct (decide (uiLanguageDirection L = "ltr"%string)).
Qed.

Lemma ungroup_from_fitting (overflow : Grouping -> bool) u g :
  (forall s, overflow s = false) -> ungroup_from overflow u g = (u ++ g, []).
Proof.
  intros Hfit. revert u. induction g as [|x g IH]; intros u; simpl.
  - by rewrite app_nil_r.
  - rewrite Hfit, IH. by rewrite <- app_assoc.
Qed.

Lemma regroup_fitting (overflow : Grouping -> bool) u g :
  (forall s, overflow s = false) -> regroup overflow (u, g) = (u ++ g, []).
Proof.
  intros Hfit. unfold regroup. rewrite Hfit. cbn [fst snd].
  destruct g as [|x g]; [by rewrite app_nil_r|].
  cbv zeta. by rewrite Hfit, ungroup_from_fitting.
Qed.

(** X14.  A padding that cannot be read.  When [Number.parseInt] of the
    computed padding is [NaN] and no usable padding is cached, both
    comparisons of [_areItemsOverflowing] are comparisons with [NaN]: the
    getter answers [false] whatever the widths are, and a pass takes every
    grouped item back. *)
Theorem unreadable_padding_groups_nothing base fuel v :
  grouping_ok base v -> attached L v ->
  length (ungroupedItems v) + length (groupedItems v) <= fuel ->
  falsy (cachedPadding v) = true ->
  paddingRight L = NaN -> paddingLeft L = NaN ->
  (exists v'' , _areItemsOverflowing L v = Normal false v'') /\
  exists v',
    _updateGrouping L fuel v = Normal tt v' /\
    ungroupedItems v' = ungroupedItems v ++ groupedItems v /\
    groupedItems v' = [].
Proof.
  intros Hok Hatt Hfuel Hcached Hright Hleft.
  assert (Hp : padding_in_use L v = NaN).
  { unfold padding_in_use. rewrite Hcached, Hright, Hleft.
    by destruct (decide _). }
  split.
  { destruct (runs_areItemsOverflowing L base v Hok (proj1 Hatt))
      as (v'' & Hget & _).
    rewrite Hp, overflows_NaN in Hget. by exists v''. }
  destruct (runs_updateGrouping L base fuel v Hok Hatt)
    as (v' & Hrun & Hres & _); [lia..|].
  rewrite Hp, regroup_fitting in Hres by apply overflows_NaN.
  exists v'. split; [exact Hrun|]. by injection Hres.
Qed.

(** X15.  [_ungroupFirstItem] undoes [_groupLastItem]: after the two calls
    the ungrouped items, the grouped items and the children of the items
    view are what they were, and the toolbar shows the same kinds of
    children. *)
Theorem group_then_ungroup_restores base u x v :
  grouping_ok base v -> ungroupedItems v = u ++ [x] ->
  exists v1 v2,
    _groupLastItem v = Normal tt v1 /\
    _ungroupFirstItem v1 = Normal tt v2 /\
    ungroupedItems v2 = ungroupedItems v /\
    groupedItems v2 = groupedItems v /\
    itemsViewChildren v2 = itemsViewChildren v /\
    kind <$> children v2 = kind <$> children v.
Proof.
  intros Hok Hu.
  destruct (runs_groupLastItem base u x v Hok Hu)
    as (v1 & Hgroup & Hu1 & Hg1 & Hok1 & _ & _).
  destruct (runs_ungroupFirstItem base x (groupedItems v) v1 Hok1 Hg1)
    as (v2 & Hmove & Hu2 & Hg2 & Hok2 & _ & _).
  exists v1, v2. split; [exact Hgroup|]. split; [exact Hmove|].
  split; [by rewrite Hu2, Hu1, Hu|]. split; [exact Hg2|].
  split.
  - rewrite (ok_bound base v2 Hok2), (ok_bound base v Hok).
    by rewrite Hu2, Hu1, Hu.
  - by rewrite (shown_kinds base v2 Hok2), (shown_kinds base v Hok), Hg2.
Qed.

(** X16.  [_groupLastItem] undoes [_ungroupFirstItem], in the same
    sense. *)
Theorem ungroup_then_group_restores base x g v :
  grouping_ok base v -> groupedItems v = x :: g ->
  exists v1 v2,
    _ungroupFirstItem v = Normal tt v1 /\
    _groupLastItem v1 = Normal tt v2 /\
    ungroupedItems v2 = ungroupedItems v /\
    groupedItems v2 = groupedItems v /\
    itemsViewChildren v2 = itemsViewChildren v /\
    kind <$> children v2 = kind <$> children v.
Proof.
  intros Hok Hg.
  destruct (runs_ungroupFirstItem base x g v Hok Hg)
    as (v1 & Hmove & Hu1 & Hg1 & Hok1 & _ & _).
  destruct (runs_groupLastItem base (ungroupedItems v) x v1 Hok1 Hu1)
    as (v2 & Hgroup & Hu2 & Hg2 & Hok2 & _ & _).
  exists v1, v2. split; [exact Hmove|]. split; [exact Hgroup|].
  split; [exact Hu2|]. split; [by rewrite Hg2, Hg1, Hg|].
  split.
  - rewrite (ok_bound base v2 Hok2), (ok_bound base v Hok). exact Hu2.
  - rewrite (shown_kinds base v2 Hok2), (shown_kinds base v Hok).
    by rewrite Hg2, Hg.
Qed.

Lemma resizeObserver_untouched o :
  Untouched (fun v => resizeObserver v = o).
Proof. by constructor. Qed.

(** The callback, by what the observer remembers. *)
Lemma onResize_cases fuel width v :
  onResize L fuel width v =
  match resizeObserver v with
  | None => Normal tt v
  | Some o =>
      if bool_decide (previousWidth o = Some width /\ width <> 0%Z)
      then Normal tt v
      else
        match _updateGrouping L fuel v with
        | Normal _ v1 =>
            Normal tt
              (match resizeObserver v1 with
               | Some o' =>
                   set_resizeObserver
                     (Some {| observed := observed o';
                              previousWidth := Some width |}) v1
               | None => v1
               end)
        | Throw e v1 => Throw e v1
        | Diverge => Diverge
        end
  end.
Proof.
  unfold onResize, bind, gets, modify, ret.
  destruct (resizeObserver v) as [o|]; [|done].
  destruct (previousWidth o) as [[|w|w]|].
  - rewrite bool_decide_false; [done|]. intros [[= <-] ?]. done.
  - destruct (decide (Z.pos w = width)) as [<-|Hne].
    + by rewrite !bool_decide_true.
    + rewrite (bool_decide_false (Z.pos w = width)) by done.
      rewrite bool_decide_false; [done|]. intros [[= ?] _]. done.
  - destruct (decide (Z.neg w = width)) as [<-|Hne].
    + by rewrite !bool_decide_true.
    + rewrite (bool_decide_false (Z.neg w = width)) by done.
      rewrite bool_decide_false; [done|]. intros [[= ?] _]. done.
  - rewrite bool_decide_false; [done|]. by intros [? _].
Qed.

(** X18.  The callback of the resize observer remembers the width it has
    acted on: called again with the same width, other than 0, it does
    nothing. *)
Theorem onResize_ignores_repeated_width fuel width v v' :
  width <> 0%Z ->
  onResize L fuel width v = Normal tt v' ->
  onResize L fuel width v' = Normal tt v' /\
  (forall o, resizeObserver v = Some o ->
     resizeObserver v' =
       Some {| observed := observed o; previousWidth := Some width |}).
Proof.
  intros Hwidth. rewrite !onResize_cases.
  destruct (resizeObserver v) as [o|] eqn:Ho.
  2: { intros [= <-]. by rewrite Ho. }
  case_bool_decide as Hsame.
  { intros [= <-]. rewrite Ho, bool_decide_true by done. split; [done|].
    intros ? [= <-]. destruct o as [obs w]. simpl in *.
    destruct Hsame as [-> _]. done. }
  pose proof (keeps_updateGrouping L _ (resizeObserver_untouched (Some o))
                fuel v Ho) as Hkeeps.
  destruct (_updateGrouping L fuel v) as [[] v1|e v1|]; [|done|done].
  rewrite Hkeeps. intros [= <-]. simpl.
  rewrite bool_decide_true by done. split; [done|]. by intros ? [= <-].
Qed.

(** X17.  The focus cycle after [_groupLastItem].  The listeners that
    recompute [focusables] run while the item is taken out of the ungrouped
    items, before it is put into the grouped items, and the grouped items
    have no such listener.  So the dropdown, which is shown after the
    call, is in the focus cycle only when something was grouped before the
    call: after the first item has been grouped, the dropdown cannot be
    reached by the keyboard until the next change. *)
Theorem groupLastItem_focusables_lag base u x v :
  grouping_ok base v -> ungroupedItems v = u ++ [x] ->
  exists v',
    _groupLastItem v = Normal tt v' /\
    ungroupedItems v' = u /\ groupedItems v' = x :: groupedItems v /\
    groupedItemsDropdown v' ∈ children v' /\
    focusables v' =
      u ++ (if decide (groupedItems v = []) then []
            else [groupedItemsDropdown v']).
Proof.
  intros [Hb Hnd Hdd Hbase Hfresh Hifresh Hch] Hu.
  assert (Hx : viewUid x ∉ viewUid <$> u).
  { rewrite Hu in Hnd. by eapply last_item_is_new. }
  unfold _groupLastItem.
  destruct (groupedItems v) as [|y g] eqn:Hg.
  - eexists. split.
    { eapply runs_bind; [apply runs_gets|]. simpl. rewrite Hg. simpl.
      eapply runs_bind.
      { eapply runs_bind; [apply runs_new_View|].
        eapply runs_bind; [apply runs_viewChildren_add|].
        eapply runs_bind; [apply runs_gets|].
        eapply runs_bind; [apply runs_viewChildren_add|].
        apply runs_modify. }
      eapply runs_bind; [apply runs_gets|]. simpl. rewrite Hu, last_snoc.
      eapply runs_bind.
      { apply (runs_ungroupedItems_remove_last u x); simpl; [done| |done].
        by rewrite Hb. }
      unfold groupedItems_add.
      eapply runs_bind; [apply runs_add_to_at; simpl; lia|]. apply runs_ret. }
    simpl. rewrite Hg. simpl.
    split; [done|]. split; [done|]. split.
    + apply elem_of_app. right. apply list_elem_of_here.
    + unfold focusCycle. simpl. by rewrite Hg.
  - eexists. split.
    { eapply runs_bind; [apply runs_gets|]. simpl. rewrite Hg. simpl.
      eapply runs_bind; [apply runs_ret|].
      eapply runs_bind; [apply runs_gets|]. simpl. rewrite Hu, last_snoc.
      eapply runs_bind.
      { apply (runs_ungroupedItems_remove_last u x); simpl; [done| |done].
        by rewrite Hb. }
      unfold groupedItems_add.
      eapply runs_bind; [apply runs_add_to_at; simpl; lia|]. apply runs_ret. }
    simpl. rewrite Hg. simpl.
    split; [done|]. split; [done|]. split.
    + destruct Hch as (s & _ & _ & _ & ->).
      apply elem_of_app. right. apply list_elem_of_further, list_elem_of_here.
    + unfold focusCycle. simpl. by rewrite Hg.
Qed.

Lemma group_from_prefix (overflow : Grouping -> bool) ru g :
  (group_from overflow ru g).1 `prefix_of` reverse ru.
Proof.
  revert g. induction ru as [|x ru IH]; intros g; simpl; [done|].
  destruct (overflow _); [|done].
  etrans; [apply IH|]. rewrite reverse_cons. by apply prefix_app_r.
Qed.

Lemma ungroup_from_prefix (overflow : Grouping -> bool) u g :
  u `prefix_of` (ungroup_from overflow u g).1.
Proof.
  revert u. induction g as [|x g IH]; intros u; simpl; [done|].
  destruct (overflow _); [done|].
  etrans; [|apply IH]. by apply prefix_app_r.
Qed.

Lemma ungroup_from_undone_prefix (overflow : Grouping -> bool) u g :
  overflow (u, g) = false ->
  overflow (ungroup_from overflow u g) = true ->
  u `prefix_of` (group_last (ungroup_from overflow u g)).1.
Proof.
  revert u. induction g as [|x g IH]; intros u Hfit; simpl.
  { by rewrite Hfit. }
  rewrite Hfit. intros Hstop.
  destruct (overflow (u ++ [x], g)) eqn:Hnext.
  - rewrite ungroup_from_overflowing by done. by rewrite group_last_snoc.
  - etrans; [|by apply IH]. by apply prefix_app_r.
Qed.

Lemma regroup_one_way (overflow : Grouping -> bool) u g :
  if overflow (u, g)
  then (regroup overflow (u, g)).1 `prefix_of` u
  else u `prefix_of` (regroup overflow (u, g)).1.
Proof.
  unfold regroup. destruct (overflow (u, g)) eqn:Hs; cbn [fst snd].
  { pose proof (group_from_prefix overflow (reverse u) g) as Hp.
    by rewrite reverse_involutive in Hp. }
  destruct g as [|x g]; [done|]. cbv zeta.
  destruct (overflow (ungroup_from overflow u (x :: g))) eqn:Hstop.
  - by apply ungroup_from_undone_prefix.
  - apply ungroup_from_prefix.
Qed.

(** X13.  A grouping pass moves items one way.  When the toolbar
    overflows at the start of the pass, the pass only groups: what is
    ungrouped afterwards was ungrouped before, and what was grouped stays
    grouped.  When it does not overflow, the pass only ungroups. *)
Theorem updateGrouping_moves_one_way base fuel v :
  grouping_ok base v -> attached L v ->
  length (ungroupedItems v) + length (groupedItems v) <= fuel ->
  exists (overflowing : bool) v0 v',
    _areItemsOverflowing L v = Normal overflowing v0 /\
    _updateGrouping L fuel v = Normal tt v' /\
    if overflowing
    then ungroupedItems v' `prefix_of` ungroupedItems v /\
         groupedItems v `suffix_of` groupedItems v'
    else ungroupedItems v `prefix_of` ungroupedItems v' /\
         groupedItems v' `suffix_of` groupedItems v.
Proof.
  intros Hok Hatt Hfuel.
  destruct (runs_areItemsOverflowing L base v Hok (proj1 Hatt))
    as (v0 & Hget & _).
  destruct (runs_updateGrouping L base fuel v Hok Hatt)
    as (v' & Hrun & Hres & _); [lia..|].
  set (overflow := overflows L (kind <$> base) (padding_in_use L v)) in *.
  exists (overflow (ungroupedItems v, groupedItems v)), v0, v'.
  split; [exact Hget|]. split; [exact Hrun|].
  pose proof (regroup_one_way overflow (ungroupedItems v) (groupedItems v))
    as Hway.
  pose proof (regroup_concat overflow (ungroupedItems v, groupedItems v))
    as Hconcat.
  rewrite <- Hres in Hway, Hconcat. cbn [fst snd] in Hway, Hconcat.
  destruct (overflow (ungroupedItems v, groupedItems v)).
  - split; [exact Hway|]. destruct Hway as [k Hk].
    rewrite Hk, <- app_assoc in Hconcat. apply app_inv_head in Hconcat.
    exists k. by rewrite Hconcat.
  - split; [exact Hway|]. destruct Hway as [k Hk].
    rewrite Hk, <- app_assoc in Hconcat. apply app_inv_head in Hconcat.
    exists k. by rewrite <- Hconcat.
Qed.

End PassProperties.

(** ** Items added and removed at any index *)

Section Arrangement.
Import ToolbarView.
Context (L : Layout).
Implicit Types (v : ToolbarView) (c u g base : list View) (x item : View).

Lemma pass_settles base fuel v :
  arranged base v -> length (items v) <= fuel ->
  exists v',
    runs (_updateGrouping L fuel) v tt v' /\ settled L base v' /\
    same_frame v v'.
Proof.
  intros (Hdyn & Hel & Hitems & Hok) Hfuel.
  assert (Hlen : length (ungroupedItems v) <= fuel /\
                 length (groupedItems v) <= fuel).
  { rewrite Hitems, length_app in Hfuel. lia. }
  destruct (bodyContains L) eqn:Hbody.
  - destruct (runs_updateGrouping L base fuel v Hok (conj Hel Hbody))
      as (v' & Hrun & Hres & Hok' & Hframe & Hp); [apply Hlen..|].
    exists v'. split; [exact Hrun|]. split; [|exact Hframe].
    pose proof (regroup_concat
      (overflows L (kind <$> base) (padding_in_use L v))
      (ungroupedItems v, groupedItems v)) as Hc.
    rewrite <- Hres in Hc. simpl in Hc.
    pose proof Hframe as (Hd' & Hi' & _ & _ & _ & Hel' & _).
    split.
    + unfold arranged. rewrite Hd', Hi', Hel', Hc. by split_and!.
    + intros _. rewrite Hp, Hres. by apply regroup_fits.
  - exists v. split; [by apply runs_updateGrouping_detached|].
    split; [|apply same_frame_refl]. split; [by split_and!|congruence].
Qed.

Lemma inserted_Permutation {A} (l : list A) i a :
  take i l ++ a :: drop i l ≡ₚ a :: l.
Proof. by rewrite <- Permutation_middle, take_drop. Qed.

Lemma removed_Permutation {A} (l : list A) i a :
  l !! i = Some a -> a :: (take i l ++ drop (S i) l) ≡ₚ l.
Proof.
  intros Hi. rewrite Permutation_middle. by rewrite take_drop_middle.
Qed.

Lemma insert_app_l {A} (u g : list A) i a :
  i <= length u ->
  (take i u ++ a :: drop i u) ++ g = take i (u ++ g) ++ a :: drop i (u ++ g).
Proof.
  intros Hi. rewrite take_app_le, drop_app_le by lia.
  by rewrite <- !app_assoc.
Qed.

Lemma insert_app_r {A} (u g : list A) i a :
  length u < i ->
  u ++ (take (i - length u) g ++ a :: drop (i - length u) g) =
  take i (u ++ g) ++ a :: drop i (u ++ g).
Proof.
  intros Hi. rewrite take_app_ge, drop_app_ge by lia. by rewrite <- app_assoc.
Qed.

Lemma settled_set_focusTracker base tracked v :
  settled L base v -> settled L base (set_focusTracker tracked v).
Proof.
  intros [(?&?&?&?) Hfit]. split; [|exact Hfit].
  split_and!; try done. by apply grouping_ok_set_focusTracker.
Qed.

Lemma cons_take_drop {A} (l : list A) j a :
  0 < j -> l <> [] -> exists b l', take j l ++ a :: drop j l = b :: l'.
Proof. intros Hj Hl. destruct l; [done|]. destruct j; [lia|]. simpl. eauto. Qed.

(** The listener of [DynamicGrouping] for a new item at any index. *)
Lemma onAdd_arranged base item i c v :
  arranged base v ->
  viewUid item ∉ viewUid <$> items v -> viewUid item < nextUid v ->
  i <= length (items v) ->
  c = take i (items v) ++ item :: drop i (items v) ->
  exists v2,
    runs (bind (gets ungroupedItems) (fun ungrouped =>
            if decide (length ungrouped < i)
            then groupedItems_add item (Some (i - length ungrouped))
            else ungroupedItems_add item (Some i)))
         (set_items c v) tt v2 /\
    arranged base v2 /\ same_frame (set_items c v) v2.
Proof.
  intros (Hdyn & Hel & Hitems & Hok) Hnew Hlt Hi Hc.
  pose proof Hok as [Hb Hnd Hdd Hbase Hfresh Hifresh Hch].
  rewrite Hitems in Hi, Hnew. rewrite length_app in Hi.
  assert (Hperm : c ≡ₚ item :: (ungroupedItems v ++ groupedItems v)).
  { rewrite Hc, Hitems. apply inserted_Permutation. }
  assert (Hnd' : NoDup (viewUid <$> c)).
  { rewrite Hperm, fmap_cons. by apply NoDup_cons. }
  assert (Hifresh' : Forall (fun x => viewUid x < nextUid v) c).
  { rewrite Hperm. by apply Forall_cons. }
  destruct (decide (length (ungroupedItems v) < i)) as [Hgrouped|Hungrouped].
  - eexists. split.
    { eapply runs_bind; [apply runs_gets|]. simpl.
      rewrite decide_True by done. unfold groupedItems_add.
      eapply runs_bind; [apply runs_add_to_at; simpl; lia|]. apply runs_ret. }
    simpl.
    assert (Hconcat :
      ungroupedItems v ++
        (take (i - length (ungroupedItems v)) (groupedItems v) ++
         item :: drop (i - length (ungroupedItems v)) (groupedItems v)) = c).
    { rewrite Hc, Hitems. by apply insert_app_r. }
    split; [|by repeat split].
    split_and!; simpl; try done.
    constructor; simpl; rewrite ?Hconcat; try done.
    destruct (cons_take_drop (groupedItems v)
                (i - length (ungroupedItems v)) item) as (b & l' & ->);
      [lia| |].
    { intros Hg. rewrite Hg in Hi. simpl in Hi. lia. }
    destruct (groupedItems v); [simpl in Hi; lia|done].
  - eexists. split.
    { eapply runs_bind; [apply runs_gets|]. simpl.
      rewrite decide_False by done. unfold ungroupedItems_add.
      eapply runs_bind; [apply runs_add_to_at; simpl; lia|].
      eapply runs_bind; [apply runs_add_to_at; simpl; rewrite Hb; lia|].
      apply runs_updateFocusCycleableItems. }
    simpl.
    assert (Hconcat :
      (take i (ungroupedItems v) ++ item :: drop i (ungroupedItems v)) ++
      groupedItems v = c).
    { rewrite Hc, Hitems. apply insert_app_l. lia. }
    split; [|by repeat split].
    split_and!; simpl; try done.
    constructor; simpl; rewrite ?Hb, ?Hconcat; done.
Qed.

Lemma items_add_arranged base fuel item index v :
  arranged base v ->
  viewUid item ∉ viewUid <$> items v -> viewUid item < nextUid v ->
  let i := default (length (items v)) index in
  i <= length (items v) -> S (length (items v)) <= fuel ->
  exists v',
    items_add L fuel item index v = Normal tt v' /\
    items v' = take i (items v) ++ item :: drop i (items v) /\
    settled L base v' /\ console v' = console v.
Proof.
  intros Harr Hnew Hlt i Hi Hfuel.
  set (c := take i (items v) ++ item :: drop i (items v)).
  assert (Hadd : Collection_add item index (items v) = inr (i, c)).
  { unfold Collection_add. fold i. by rewrite decide_False by lia. }
  destruct (onAdd_arranged base item i c v Harr Hnew Hlt Hi eq_refl)
    as (v2 & Hins & Harr2 & Hframe2).
  destruct (pass_settles base fuel v2 Harr2) as (v3 & Hpass & Hset3 & Hframe3).
  { destruct Hframe2 as (_ & -> & _). simpl. subst c.
    rewrite length_app. simpl. rewrite length_take, length_drop. lia. }
  pose proof (same_frame_trans _ _ _ Hframe2 Hframe3)
    as (Hd3 & Hi3 & Hr3 & _ & _ & _ & _ & Hc3).
  simpl in Hd3, Hi3, Hr3, Hc3.
  assert (Hrun : forall tracked,
    (if isRendered v then tracked = focusTracker v3 ++ [item]
     else tracked = focusTracker v3) ->
    items_add L fuel item index v = Normal tt (set_focusTracker tracked v3)).
  { intros tracked Htracked.
    unfold items_add. unfold bind at 1. unfold add_to at 1. rewrite Hadd.
    unfold fire.
    unfold bind at 1. unfold gets at 1. cbn [shouldGroupWhenFull set_items].
    destruct Harr as (-> & _). unfold bind at 1.
    unfold DynamicGrouping_onAdd. unfold runs in Hins, Hpass.
    unfold bind at 1 in Hins. unfold gets at 1 in Hins.
    unfold bind at 1. unfold bind at 1. unfold gets at 1.
    rewrite Hins, Hpass.
    unfold bind, gets, focusTracker_add, modify, ret. rewrite Hr3.
    destruct (isRendered v); subst tracked; [done|]. by destruct v3. }
  exists (set_focusTracker
            (if isRendered v then focusTracker v3 ++ [item]
             else focusTracker v3) v3).
  split; [apply Hrun; by destruct (isRendered v)|].
  split; [exact Hi3|]. split; [|exact Hc3].
  by apply settled_set_focusTracker.
Qed.

Lemma remove_app_l {A} (u g : list A) i :
  i < length u ->
  (take i u ++ drop (S i) u) ++ g = take i (u ++ g) ++ drop (S i) (u ++ g).
Proof.
  intros Hi. rewrite take_app_le, drop_app_le by lia. by rewrite <- !app_assoc.
Qed.

Lemma remove_app_r {A} (u g : list A) i :
  length u < i ->
  u ++ (take (i - length u) g ++ drop (S (i - length u)) g) =
  take i (u ++ g) ++ drop (S i) (u ++ g).
Proof.
  intros Hi. rewrite take_app_ge, drop_app_ge by lia.
  replace (S i - length u) with (S (i - length u)) by lia.
  by rewrite <- app_assoc.
Qed.

Lemma cons_take_drop_S {A} (l : list A) j :
  0 < j -> j < length l -> exists b l', take j l ++ drop (S j) l = b :: l'.
Proof.
  intros Hj Hl. destruct l; [simpl in Hl; lia|]. destruct j; [lia|].
  simpl. eauto.
Qed.

(** The listener of [DynamicGrouping] for a removed item that was not the
    first grouped one. *)
Lemma onRemove_arranged base item i c v :
  arranged base v ->
  items v !! i = Some item -> i <> length (ungroupedItems v) ->
  c = take i (items v) ++ drop (S i) (items v) ->
  exists v2,
    runs (bind (gets ungroupedItems) (fun ungrouped =>
            if decide (length ungrouped < i)
            then bind (groupedItems_remove (Some item)) (fun _ => ret tt)
            else bind (ungroupedItems_remove (Some item)) (fun _ => ret tt)))
         (set_items c v) tt v2 /\
    arranged base v2 /\ same_frame (set_items c v) v2.
Proof.
  intros (Hdyn & Hel & Hitems & Hok) Hi Hne Hc.
  pose proof Hok as [Hb Hnd Hdd Hbase Hfresh Hifresh Hch].
  assert (Hperm : item :: c ≡ₚ ungroupedItems v ++ groupedItems v).
  { rewrite Hc, <- Hitems. by apply removed_Permutation. }
  assert (Hnd' : NoDup (viewUid <$> c)).
  { rewrite <- Hperm, fmap_cons in Hnd. by apply NoDup_cons in Hnd as [_ ?]. }
  assert (Hifresh' : Forall (fun x => viewUid x < nextUid v) c).
  { rewrite <- Hperm in Hifresh. by apply Forall_cons in Hifresh as [_ ?]. }
  rewrite Hitems in Hi.
  pose proof Hnd as Hnd2.
  rewrite fmap_app in Hnd2. apply NoDup_app in Hnd2 as (Hndu & _ & Hndg).
  destruct (decide (length (ungroupedItems v) < i)) as [Hgrouped|Hungrouped].
  - rewrite lookup_app_r in Hi by lia.
    pose proof (indexOf_lookup _ _ _ Hndg Hi) as Hidx.
    pose proof (lookup_lt_Some _ _ _ Hi) as Hj.
    eexists. split.
    { eapply runs_bind; [apply runs_gets|]. simpl. rewrite decide_True by done.
      eapply runs_bind; [|apply runs_ret].
      unfold groupedItems_remove.
      eapply runs_bind; [|apply runs_ret].
      unfold runs, remove_from, Collection_remove. simpl.
      rewrite Hidx. reflexivity. }
    simpl.
    assert (Hconcat :
      ungroupedItems v ++
        (take (i - length (ungroupedItems v)) (groupedItems v) ++
         drop (S (i - length (ungroupedItems v))) (groupedItems v)) = c).
    { rewrite Hc, Hitems. by apply remove_app_r. }
    split; [|by repeat split].
    split_and!; simpl; try done.
    constructor; simpl; rewrite ?Hconcat; try done.
    destruct (cons_take_drop_S (groupedItems v)
                (i - length (ungroupedItems v))) as (b & l' & ->);
      [lia|done|].
    destruct (groupedItems v); [simpl in Hj; lia|done].
  - assert (Hlt : i < length (ungroupedItems v)) by lia.
    rewrite lookup_app_l in Hi by lia.
    pose proof (indexOf_lookup _ _ _ Hndu Hi) as Hidx.
    eexists. split.
    { eapply runs_bind; [apply runs_gets|]. simpl. rewrite decide_False by done.
      eapply runs_bind; [|apply runs_ret].
      unfold ungroupedItems_remove.
      eapply runs_bind.
      { unfold runs, remove_from, Collection_remove. simpl.
        rewrite Hidx. reflexivity. }
      eapply runs_bind.
      { unfold runs, remove_from, Collection_remove. simpl.
        rewrite Hb, Hidx. reflexivity. }
      eapply runs_bind; [apply runs_updateFocusCycleableItems|apply runs_ret]. }
    simpl.
    assert (Hconcat :
      (take i (ungroupedItems v) ++ drop (S i) (ungroupedItems v)) ++
      groupedItems v = c).
    { rewrite Hc, Hitems. by apply remove_app_l. }
    split; [|by repeat split].
    split_and!; simpl; try done.
    constructor; simpl; rewrite ?Hb, ?Hconcat; done.
Qed.

Lemma items_remove_arranged base fuel item i v :
  arranged base v ->
  items v !! i = Some item -> i <> length (ungroupedItems v) ->
  length (items v) <= fuel ->
  exists v',
    items_remove L fuel (Some item) v = Normal item v' /\
    items v' = take i (items v) ++ drop (S i) (items v) /\
    settled L base v' /\ console v' = console v.
Proof.
  intros Harr Hi Hne Hfuel.
  set (c := take i (items v) ++ drop (S i) (items v)).
  assert (Hrem : Collection_remove (Some item) (items v) = inr (item, i, c)).
  { unfold Collection_remove.
    rewrite (indexOf_lookup (items v) i item); [done| |done].
    destruct Harr as (_ & _ & -> & Hok). apply (ok_items _ _ Hok). }
  destruct (onRemove_arranged base item i c v Harr Hi Hne eq_refl)
    as (v2 & Hout & Harr2 & Hframe2).
  destruct (pass_settles base fuel v2 Harr2) as (v3 & Hpass & Hset3 & Hframe3).
  { destruct Hframe2 as (_ & -> & _). simpl. subst c.
    rewrite length_app, length_take, length_drop. lia. }
  pose proof (same_frame_trans _ _ _ Hframe2 Hframe3)
    as (Hd3 & Hi3 & Hr3 & _ & _ & _ & _ & Hc3).
  simpl in Hd3, Hi3, Hr3, Hc3.
  assert (Hrun : forall tracked,
    (if isRendered v
     then tracked =
          filter (fun x => viewUid x <> viewUid item) (focusTracker v3)
     else tracked = focusTracker v3) ->
    items_remove L fuel (Some item) v =
      Normal item (set_focusTracker tracked v3)).
  { intros tracked Htracked.
    unfold items_remove. unfold bind at 1. unfold remove_from at 1.
    rewrite Hrem. cbn [fst snd]. unfold bind at 1. unfold fire.
    unfold bind at 1. unfold gets at 1. cbn [shouldGroupWhenFull set_items].
    destruct Harr as (-> & _). unfold bind at 1.
    unfold DynamicGrouping_onRemove. unfold runs in Hout, Hpass.
    unfold bind at 1 in Hout. unfold gets at 1 in Hout.
    unfold bind at 1. unfold bind at 1. unfold gets at 1.
    rewrite Hout, Hpass.
    unfold bind, gets, focusTracker_remove, modify, ret. rewrite Hr3.
    destruct (isRendered v); subst tracked; [done|]. by destruct v3. }
  eexists (set_focusTracker
            (if isRendered v
             then filter (fun x => viewUid x <> viewUid item) (focusTracker v3)
             else focusTracker v3) v3).
  split; [apply Hrun; by destruct (isRendered v)|].
  split; [exact Hi3|]. split; [|exact Hc3].
  by apply settled_set_focusTracker.
Qed.

(** What [settled] says, in terms of the toolbar. *)
Lemma settled_facts base v :
  settled L base v ->
  items v = ungroupedItems v ++ groupedItems v /\
  itemsViewChildren v = ungroupedItems v /\
  NoDup (viewUid <$> items v) /\
  kind <$> children v =
    (kind <$> base) ++
    (if decide (groupedItems v = []) then []
     else [ToolbarSeparatorView; DropdownView]) /\
  (bodyContains L = true ->
   exists v', _areItemsOverflowing L v = Normal false v').
Proof.
  intros [(_ & Hel & Hitems & Hok) Hfit].
  split; [exact Hitems|]. split; [apply (ok_bound base v Hok)|].
  split; [rewrite Hitems; apply (ok_items base v Hok)|].
  split.
  { rewrite (shown_kinds base v Hok). by destruct (groupedItems v). }
  intros Hbody.
  destruct (runs_areItemsOverflowing L base v Hok Hel) as (v' & Hget & _).
  rewrite (Hfit Hbody) in Hget. by exists v'.
Qed.

(** X19.  [items.add( item, index )] on a rendered toolbar with dynamic
    grouping, for a new item at any index within bounds.  The call
    returns; the item is in [items] at the index; the items are still the
    ungrouped ones followed by the grouped ones, the items view shows the
    ungrouped ones, and nothing overflows when the toolbar is in the
    document. *)
Theorem items_add_keeps_arrangement base fuel item index v :
  arranged base v ->
  viewUid item ∉ viewUid <$> items v -> viewUid item < nextUid v ->
  let i := default (length (items v)) index in
  i <= length (items v) -> S (length (items v)) <= fuel ->
  exists v',
    items_add L fuel item index v = Normal tt v' /\
    items v' = take i (items v) ++ item :: drop i (items v) /\
    items v' = ungroupedItems v' ++ groupedItems v' /\
    itemsViewChildren v' = ungroupedItems v' /\
    (bodyContains L = true ->
     exists v'', _areItemsOverflowing L v' = Normal false v'') /\
    arranged base v'.
Proof.
  intros Harr Hnew Hlt i Hi Hfuel.
  destruct (items_add_arranged base fuel item index v Harr Hnew Hlt Hi Hfuel)
    as (v' & Hrun & Hitems & Hset & _).
  destruct (settled_facts base v' Hset) as (Hpart & Hshown & _ & _ & Hfit).
  exists v'. split; [exact Hrun|]. split; [exact Hitems|].
  split; [exact Hpart|]. split; [exact Hshown|]. split; [exact Hfit|].
  apply Hset.
Qed.

(** X20.  [items.remove( item )] on a rendered toolbar with dynamic
    grouping, for every item but the first grouped one.  The call returns
    the item; the item is gone from [items]; the items are still the
    ungrouped ones followed by the grouped ones, the items view shows the
    ungrouped ones, and nothing overflows when the toolbar is in the
    document. *)
Theorem items_remove_keeps_arrangement base fuel item i v :
  arranged base v ->
  items v !! i = Some item -> i <> length (ungroupedItems v) ->
  length (items v) <= fuel ->
  exists v',
    items_remove L fuel (Some item) v = Normal item v' /\
    items v' = take i (items v) ++ drop (S i) (items v) /\
    items v' = ungroupedItems v' ++ groupedItems v' /\
    itemsViewChildren v' = ungroupedItems v' /\
    (bodyContains L = true ->
     exists v'', _areItemsOverflowing L v' = Normal false v'') /\
    arranged base v'.
Proof.
  intros Harr Hi Hne Hfuel.
  destruct (items_remove_arranged base fuel item i v Harr Hi Hne Hfuel)
    as (v' & Hrun & Hitems & Hset & _).
  destruct (settled_facts base v' Hset) as (Hpart & Hshown & _ & _ & Hfit).
  exists v'. split; [exact Hrun|]. split; [exact Hitems|].
  split; [exact Hpart|]. split; [exact Hshown|]. split; [exact Hfit|].
  apply Hset.
Qed.

Lemma arranged_set_nextUid base n v :
  nextUid v <= n -> arranged base v -> arranged base (set_nextUid n v).
Proof.
  intros Hn (?&?&?&?). split_and!; try done. by apply grouping_ok_set_nextUid.
Qed.

Lemma settled_set_console base warnings v :
  settled L base v -> settled L base (set_console warnings v).
Proof.
  intros [(?&?&?&?) Hfit]. split; [|exact Hfit].
  split_and!; try done. by apply grouping_ok_set_console.
Qed.

Lemma settled_set_resizeObserver base observer v :
  settled L base v -> settled L base (set_resizeObserver observer v).
Proof.
  intros [(?&?&?&?) Hfit]. split; [|exact Hfit].
  split_and!; try done. by apply grouping_ok_set_resizeObserver.
Qed.

(** A view made by [new] and added at the end of the items. *)
Lemma add_new_settled base fuel k v :
  arranged base v -> S (length (items v)) <= fuel ->
  exists v',
    runs (bind (new_View k) (fun item => items_add L fuel item None)) v tt v' /\
    length (items v') = S (length (items v)) /\ settled L base v'.
Proof.
  intros Harr Hfuel.
  destruct (items_add_arranged base fuel
              {| viewUid := nextUid v; kind := k |} None
              (set_nextUid (S (nextUid v)) v))
    as (v' & Hrun & Hitems & Hset & _).
  - apply arranged_set_nextUid; [lia|done].
  - simpl. destruct Harr as (_ & _ & -> & Hok). intros Hin.
    apply list_elem_of_fmap in Hin as (c & Hc & Hin).
    pose proof (ok_items_fresh base v Hok) as Hfresh.
    rewrite Forall_forall in Hfresh. specialize (Hfresh c Hin). lia.
  - simpl. lia.
  - simpl. lia.
  - done.
  - exists v'. split; [eapply runs_bind; [apply runs_new_View|exact Hrun]|].
    split; [|done]. rewrite Hitems. simpl.
    rewrite length_app. simpl. rewrite length_take, length_drop. lia.
Qed.

Lemma fillFromConfig_settled base fuel factory config : forall v,
  settled L base v -> length (items v) + length config <= fuel ->
  exists v',
    fillFromConfig L fuel config factory v = Normal tt v' /\
    length (items v') <= length (items v) + length config /\
    settled L base v'.
Proof.
  induction config as [|name config IH]; intros v Hset Hfuel.
  { exists v. split; [done|]. split; [lia|done]. }
  simpl in Hfuel. unfold fillFromConfig. simpl forEach.
  assert (Hnew : forall k,
    exists v',
      (bind (bind (new_View k) (fun item => items_add L fuel item None))
            (fun _ => forEach config (fun name =>
               if decide (name = "|"%string) then
                 bind (new_View ToolbarSeparatorView)
                      (fun separator => items_add L fuel separator None)
               else if has factory name then
                 bind (new_View (Component name))
                      (fun item => items_add L fuel item None)
               else console_warn {| message := unavailable; name := name |})))
        v = Normal tt v' /\
      length (items v') <= length (items v) + S (length config) /\
      settled L base v').
  { intros k.
    destruct (add_new_settled base fuel k v (proj1 Hset)) as (v1 & Hrun1 & Hlen1 & Hset1);
      [lia|].
    destruct (IH v1 Hset1) as (v' & Hrun & Hlen & Hset'); [lia|].
    exists v'. split; [eapply runs_bind; [exact Hrun1|exact Hrun]|].
    split; [lia|done]. }
  destruct (decide (name = "|"%string)) as [Hsep|Hsep]; [apply Hnew|].
  destruct (has factory name) eqn:Hhas; [apply Hnew|].
  destruct (IH (set_console
                  (console v ++ [{| message := unavailable; name := name |}]) v))
    as (v' & Hrun & Hlen & Hset').
  { by apply settled_set_console. }
  { simpl. lia. }
  exists v'. split; [eapply runs_bind; [apply runs_modify|exact Hrun]|].
  split; [simpl in *; lia|done].
Qed.

Lemma render_settles fuel :
  exists v',
    render L fuel (newToolbarView true) = Normal tt v' /\
    items v' = [] /\ settled L [itemsView] v'.
Proof.
  rewrite render_dynamic by done.
  match goal with
  | |- exists v', _updateGrouping _ _ ?v1 = _ /\ _ =>
      destruct (pass_settles [itemsView] fuel v1)
        as (v' & Hrun & Hset & Hframe)
  end.
  { split_and!; try done.
    apply grouping_ok_rendered, newToolbarView_grouping_ok. }
  { simpl. lia. }
  exists v'. split; [exact Hrun|]. split; [|done].
  by destruct Hframe as (_ & -> & _).
Qed.

Lemma arranged_set_console base warnings v :
  arranged base v -> arranged base (set_console warnings v).
Proof.
  intros (?&?&?&?). split_and!; try done. by apply grouping_ok_set_console.
Qed.

Lemma arranged_set_resizeObserver base observer v :
  arranged base v -> arranged base (set_resizeObserver observer v).
Proof.
  intros (?&?&?&?). split_and!; try done.
  by apply grouping_ok_set_resizeObserver.
Qed.

(** [fillFromConfig] on an arranged toolbar: it returns and leaves the
    toolbar arranged; when it has added an item, the last pass has left
    the toolbar settled in the layout of the call. *)
Lemma fillFromConfig_arranged base fuel factory config : forall v,
  arranged base v -> length (items v) + length config <= fuel ->
  exists v',
    fillFromConfig L fuel config factory v = Normal tt v' /\
    length (items v') <= length (items v) + length config /\
    arranged base v' /\
    (configured factory config <> [] -> settled L base v').
Proof.
  induction config as [|name config IH]; intros v Harr Hfuel.
  { exists v. split; [done|]. split; [lia|]. split; [done|]. by intros []. }
  simpl in Hfuel. unfold fillFromConfig. simpl forEach.
  assert (Hnew : forall k,
    exists v',
      (bind (bind (new_View k) (fun item => items_add L fuel item None))
            (fun _ => forEach config (fun name =>
               if decide (name = "|"%string) then
                 bind (new_View ToolbarSeparatorView)
                      (fun separator => items_add L fuel separator None)
               else if has factory name then
                 bind (new_View (Component name))
                      (fun item => items_add L fuel item None)
               else console_warn {| message := unavailable; name := name |})))
        v = Normal tt v' /\
      length (items v') <= length (items v) + S (length config) /\
      arranged base v' /\
      (configured factory (name :: config) <> [] -> settled L base v')).
  { intros k.
    destruct (add_new_settled base fuel k v Harr) as (v1 & Hrun1 & Hlen1 & Hset1);
      [lia|].
    destruct (fillFromConfig_settled base fuel factory config v1 Hset1)
      as (v' & Hrun & Hlen & Hset'); [lia|].
    exists v'. split; [eapply runs_bind; [exact Hrun1|exact Hrun]|].
    split; [lia|]. split; [apply Hset'|done]. }
  destruct (decide (name = "|"%string)) as [Hsep|Hsep]; [apply Hnew|].
  destruct (has factory name) eqn:Hhas; [apply Hnew|].
  destruct (IH (set_console
                  (console v ++ [{| message := unavailable; name := name |}]) v))
    as (v' & Hrun & Hlen & Harr' & Hset').
  { by apply arranged_set_console. }
  { simpl. lia. }
  exists v'. split; [eapply runs_bind; [apply runs_modify|exact Hrun]|].
  split; [simpl in *; lia|]. split; [done|].
  rewrite configured_cons, decide_False, Hhas by done. exact Hset'.
Qed.

(** The callback of the resize observer on an arranged toolbar. *)
Lemma onResize_arranged base fuel width v :
  arranged base v -> length (items v) <= fuel ->
  exists v',
    onResize L fuel width v = Normal tt v' /\
    items v' = items v /\ arranged base v' /\
    (measures v (CallResize width) -> settled L base v').
Proof.
  intros Harr Hfuel. rewrite onResize_cases. simpl.
  destruct (resizeObserver v) as [o|] eqn:Ho.
  2:{ exists v. split; [done|]. split; [done|]. split; [done|].
      by intros (o & Ho' & _). }
  destruct (bool_decide _) eqn:Hsame.
  { exists v. split; [done|]. split; [done|]. split; [done|].
    intros (o' & [= <-] & Hnot). by apply bool_decide_eq_true in Hsame. }
  destruct (pass_settles base fuel v Harr Hfuel)
    as (v1 & Hrun & Hset1 & Hframe).
  unfold runs in Hrun. rewrite Hrun.
  destruct Hframe as (_ & Hi1 & _ & _ & _ & _ & Ho1 & _).
  rewrite Ho1, Ho. eexists. split; [reflexivity|]. split; [done|].
  split; [by apply arranged_set_resizeObserver, Hset1|].
  intros _. by apply settled_set_resizeObserver.
Qed.

(** One more call of a rendered toolbar that is filled and resized. *)
Lemma perform_arranged base fuel (call : Call) v :
  fills_or_resizes call -> arranged base v ->
  length (items v) + mayAdd call <= fuel ->
  arranged base (perform L fuel v call) /\
  length (items (perform L fuel v call)) <= length (items v) + mayAdd call /\
  (measures v call -> settled L base (perform L fuel v call)).
Proof.
  intros Hcall Harr Hfuel.
  destruct call as [| |config factory|width| |]; try done; simpl in *.
  - destruct (fillFromConfig_arranged base fuel factory config v Harr Hfuel)
      as (v' & -> & Hlen & Harr' & Hset').
    by split_and!.
  - destruct (onResize_arranged base fuel width v Harr)
      as (v' & -> & Hi & Harr' & Hset'); [lia|].
    split; [done|]. split; [|done].
    change (after (Normal tt v') v) with v'. rewrite Hi. lia.
Qed.

End Arrangement.

(** The toolbar with dynamic grouping over histories of calls, under any
    layouts. *)

Section ArrangedHistories.
Import ToolbarView.
Implicit Types (v : ToolbarView) (c u g base : list View) (x item : View).

Lemma fills_and_resizes_keep_arranged base fuel (cs : list (Layout * Call)) :
  forall v,
  Forall fills_or_resizes cs.*2 ->
  length (items v) + sum_list (mayAdd <$> cs.*2) <= fuel ->
  arranged base v ->
  arranged base (foldl (performAt fuel) v cs) /\
  length (items (foldl (performAt fuel) v cs)) <=
    length (items v) + sum_list (mayAdd <$> cs.*2).
Proof.
  induction cs as [|[L call] cs IH]; intros v Hcs Hfuel Harr.
  { split; [done|]. simpl. lia. }
  change (Forall fills_or_resizes (call :: cs.*2)) in Hcs.
  change (sum_list (mayAdd <$> ((L, call) :: cs).*2))
    with (mayAdd call + sum_list (mayAdd <$> cs.*2)) in *.
  apply Forall_cons in Hcs as [Hcall Hcs].
  destruct (perform_arranged L base fuel call v Hcall Harr) as (Harr' & Hlen & _);
    [lia|].
  destruct (IH (performAt fuel v (L, call)) Hcs) as [Hend Hbound];
    [unfold performAt; simpl; lia|done|].
  split; [exact Hend|]. simpl foldl.
  change (performAt fuel v (L, call)) with (perform L fuel v call) in *. lia.
Qed.

(** [render] first. *)
Lemma history_from_render fuel L0 (cs : list (Layout * Call)) :
  exists v0,
    render L0 fuel (newToolbarView true) = Normal tt v0 /\
    items v0 = [] /\ settled L0 [itemsView] v0 /\
    history fuel true ((L0, CallRender) :: cs) = foldl (performAt fuel) v0 cs.
Proof.
  destruct (render_settles L0 fuel) as (v0 & Hrender & Hempty & Hset0).
  exists v0. split; [done|]. split; [done|]. split; [done|].
  unfold history. simpl. unfold performAt at 2. simpl. by rewrite Hrender.
Qed.

(** X21.  The states that a toolbar with dynamic grouping reaches when it
    is rendered first and then filled from configs and resized, whatever
    the layout of the page is at each call.  In each of them the items
    are the ungrouped ones followed by the grouped ones, no item is there
    twice, the items view shows the ungrouped ones, and the toolbar shows
    the items view alone when nothing is grouped and the items view, a
    separator and the dropdown otherwise.  When the last call has started
    a grouping pass and the toolbar was in the document then, the items do
    not overflow in the layout of that call. *)
Theorem rendered_toolbar_stays_arranged fuel L0 (cs : list (Layout * Call)) :
  Forall fills_or_resizes cs.*2 ->
  sum_list (mayAdd <$> cs.*2) <= fuel ->
  let v := history fuel true ((L0, CallRender) :: cs) in
  (items v = ungroupedItems v ++ groupedItems v /\
   itemsViewChildren v = ungroupedItems v /\
   NoDup (viewUid <$> items v) /\
   kind <$> children v =
     (if decide (groupedItems v = []) then [ItemsView]
      else [ItemsView; ToolbarSeparatorView; DropdownView])) /\
  (forall before L call,
     (L0, CallRender) :: cs = before ++ [(L, call)] ->
     measures (history fuel true before) call ->
     bodyContains L = true ->
     exists v', _areItemsOverflowing L v = Normal false v').
Proof.
  intros Hcs Hfuel v.
  destruct (history_from_render fuel L0 cs) as (v0 & Hr & Hempty & Hset0 & Hv).
  fold v in Hv. split.
  - destruct (fills_and_resizes_keep_arranged [itemsView] fuel cs v0 Hcs)
      as [(_ & _ & Hitems & Hok) _]; [by rewrite Hempty|apply Hset0|].
    rewrite <- Hv in Hitems, Hok.
    split; [done|]. split; [apply Hok|].
    split; [rewrite Hitems; apply Hok|].
    rewrite (shown_kinds [itemsView] v Hok). by destruct (groupedItems v).
  - intros before L call Hlast Hmeasures Hbody.
    assert (Hend : settled L [itemsView] v).
    { destruct (decide (cs = [])) as [->|Hne].
      - destruct before as [|? [|? ?]]; simplify_eq/=. apply Hset0.
      - destruct (exists_last Hne) as (cs' & [L' call'] & ->).
        rewrite app_comm_cons in Hlast.
        apply app_inj_tail in Hlast as [<- [= <- <-]].
        rewrite fmap_app, Forall_app in Hcs.
        destruct Hcs as [Hcs Hcall]. apply Forall_inv in Hcall.
        rewrite !fmap_app, sum_list_with_app in Hfuel.
        change (sum_list (mayAdd <$> [(L', call')].*2))
          with (mayAdd call' + 0) in Hfuel. simpl in Hcall.
        destruct (history_from_render fuel L0 cs') as (v0' & Hr' & _ & _ & Hbefore).
        assert (v0' = v0) as -> by congruence.
        rewrite Hbefore in Hmeasures.
        rewrite Hv, foldl_app. simpl.
        destruct (fills_and_resizes_keep_arranged [itemsView] fuel cs' v0 Hcs)
          as [Harr Hlen]; [rewrite Hempty; simpl; lia|apply Hset0|].
        rewrite Hempty in Hlen. simpl in Hlen.
        apply (perform_arranged L' [itemsView] fuel call' _ Hcall Harr);
          [lia|done]. }
    by destruct (settled_facts L _ _ Hend) as (_ & _ & _ & _ & Hfit);
      apply Hfit.
Qed.

End ArrangedHistories.

(** ** The focus tracker of a toolbar with dynamic grouping *)

Section Tracking.
Import ToolbarView.
Context (L : Layout).
Implicit Types (v : ToolbarView) (c u g base : list View) (x item : View).

Lemma post_and {S A} (m : Js S A) (s : S) (Q1 Q2 : A -> S -> Prop) :
  post m s Q1 -> post m s Q2 -> post m s (fun a s' => Q1 a s' /\ Q2 a s').
Proof. unfold post. by destruct (m s). Qed.

Lemma same_tracking_refl v : same_tracking v v.
Proof. by split. Qed.

Lemma same_tracking_trans v1 v2 v3 :
  same_tracking v1 v2 -> same_tracking v2 v3 -> same_tracking v1 v3.
Proof.
  intros [Hd1 Ht1] [Hd2 Ht2]. split; [congruence|].
  intros n Hn. rewrite Ht2 by congruence. by apply Ht1.
Qed.

(** The operations on the collections leave the focus tracker, the dropdown
    and, but for the named collection, the grouped items alone. *)
Lemma post_viewChildren_add_tracker item v :
  post (viewChildren_add item) v (fun _ v' =>
    focusTracker v' = focusTracker v /\
    groupedItemsDropdown v' = groupedItemsDropdown v /\
    groupedItems v' = groupedItems v).
Proof.
  unfold viewChildren_add. apply post_bind, post_add_to. intros i c' _.
  by apply post_updateFocusCycleableItems.
Qed.

Lemma post_viewChildren_remove_tracker subject v :
  post (viewChildren_remove subject) v (fun _ v' =>
    focusTracker v' = focusTracker v /\
    groupedItemsDropdown v' = groupedItemsDropdown v /\
    groupedItems v' = groupedItems v).
Proof.
  unfold viewChildren_remove. apply post_bind, post_remove_from.
  intros item i c' _. by apply post_updateFocusCycleableItems.
Qed.

Lemma post_ungroupedItems_remove_tracker subject v :
  post (ungroupedItems_remove subject) v (fun _ v' =>
    focusTracker v' = focusTracker v /\
    groupedItemsDropdown v' = groupedItemsDropdown v /\
    groupedItems v' = groupedItems v).
Proof.
  unfold ungroupedItems_remove.
  apply post_bind, post_remove_from. intros item i c' _.
  apply post_bind, post_remove_from. intros item' i' c'' _.
  apply post_bind, post_updateFocusCycleableItems, post_ret. done.
Qed.

Lemma post_ungroupedItems_add_tracker item index v :
  post (ungroupedItems_add item index) v (fun _ v' =>
    focusTracker v' = focusTracker v /\
    groupedItemsDropdown v' = groupedItemsDropdown v /\
    groupedItems v' = groupedItems v).
Proof.
  unfold ungroupedItems_add.
  apply post_bind, post_add_to. intros i c' _.
  apply post_bind, post_add_to. intros i' c'' _.
  by apply post_updateFocusCycleableItems.
Qed.

Lemma tracked_snoc v x : tracked_ids (set_focusTracker (focusTracker v ++ [x]) v)
                         = tracked_ids v ++ [viewUid x].
Proof. unfold tracked_ids. simpl. by rewrite fmap_app. Qed.

Lemma elem_of_tracked_filter n d (l : list View) :
  n ∈ viewUid <$> filter (fun x => viewUid x <> d) l <->
  n <> d /\ n ∈ viewUid <$> l.
Proof.
  rewrite !list_elem_of_fmap. split.
  - intros (x & -> & Hx). apply list_elem_of_filter in Hx as [Hne Hx].
    split; [done|]. by exists x.
  - intros (Hne & x & -> & Hx). exists x. split; [done|].
    by apply list_elem_of_filter.
Qed.

Lemma post_groupLastItem_tracker v :
  tracker_follows_grouping v ->
  post _groupLastItem v (fun _ v' =>
    tracker_follows_grouping v' /\ same_tracking v v').
Proof.
  intros HT. unfold _groupLastItem. apply post_bind, post_gets.
  apply post_bind.
  eapply post_weaken with (Q := fun _ v1 =>
    groupedItems v1 = groupedItems v /\
    groupedItemsDropdown v1 = groupedItemsDropdown v /\
    focusTracker v1 =
      focusTracker v ++
      (if decide (length (groupedItems v) = 0) then [groupedItemsDropdown v]
       else [])).
  { destruct (decide (length (groupedItems v) = 0));
      [|apply post_ret; by rewrite app_nil_r].
    apply post_bind. eapply post_runs; [apply runs_new_View|].
    apply post_bind. eapply post_weaken; [apply post_viewChildren_add_tracker|].
    intros _ v1 (Ht1 & Hd1 & Hg1). simpl in Ht1, Hd1, Hg1.
    apply post_bind, post_gets.
    apply post_bind. eapply post_weaken; [apply post_viewChildren_add_tracker|].
    intros _ v2 (Ht2 & Hd2 & Hg2). apply post_modify. simpl.
    split; [congruence|]. split; [congruence|]. congruence. }
  intros _ v1 (Hg1 & Hd1 & Ht1). apply post_bind, post_gets.
  apply post_bind.
  eapply post_weaken; [apply post_ungroupedItems_remove_tracker|].
  intros item v2 (Ht2 & Hd2 & Hg2). unfold groupedItems_add.
  apply post_bind, post_add_to. intros i c' Hadd.
  apply Collection_add_length in Hadd as [Hlen _].
  apply post_ret. simpl.
  assert (Hne : c' <> []) by (intros ->; simpl in Hlen; lia).
  assert (Htracked : tracked_ids (set_groupedItems c' v2) =
    tracked_ids v ++
    (if decide (length (groupedItems v) = 0)
     then [viewUid (groupedItemsDropdown v)] else [])).
  { unfold tracked_ids. simpl. rewrite Ht2, Ht1, fmap_app.
    by destruct (decide _). }
  split.
  - unfold tracker_follows_grouping. simpl. rewrite Htracked, Hd2, Hd1.
    split; [done|]. intros _. apply elem_of_app.
    destruct (decide (length (groupedItems v) = 0)) as [Hempty|Hsome].
    + right. apply list_elem_of_here.
    + left. apply HT. intros Hg. by rewrite Hg in Hsome.
  - split; [simpl; congruence|]. intros n Hn. rewrite Htracked.
    rewrite elem_of_app. split; [|by left].
    intros [?|Hin]; [done|]. destruct (decide _); [|by apply elem_of_nil in Hin].
    apply list_elem_of_singleton in Hin. done.
Qed.

Lemma post_ungroupFirstItem_tracker v :
  tracker_follows_grouping v ->
  post _ungroupFirstItem v (fun _ v' =>
    tracker_follows_grouping v' /\ same_tracking v v').
Proof.
  intros HT. unfold _ungroupFirstItem. apply post_bind, post_gets.
  apply post_bind. unfold groupedItems_remove.
  apply post_bind, post_remove_from. intros item i c' Hrem.
  apply Collection_remove_length in Hrem as [Hlen _]. apply post_ret.
  assert (Hg : groupedItems v <> []).
  { intros Hg. rewrite Hg in Hlen. simpl in Hlen. lia. }
  apply post_bind.
  eapply post_weaken; [apply post_ungroupedItems_add_tracker|].
  intros _ v2 (Ht2 & Hd2 & Hg2). simpl in Ht2, Hd2, Hg2.
  apply post_bind, post_gets. rewrite Hg2.
  destruct (decide (length c' = 0)) as [Hempty|Hsome].
  - apply post_bind, post_gets.
    apply post_bind.
    eapply post_weaken; [apply post_viewChildren_remove_tracker|].
    intros _ v3 (Ht3 & Hd3 & Hg3). apply post_bind, post_gets.
    apply post_bind.
    eapply post_weaken; [apply post_viewChildren_remove_tracker|].
    intros _ v4 (Ht4 & Hd4 & Hg4). apply post_modify.
    assert (Hd : groupedItemsDropdown v4 = groupedItemsDropdown v)
      by congruence.
    assert (Htracked : forall n,
      n ∈ tracked_ids
            (set_focusTracker
               (filter (fun x => viewUid x <> viewUid (groupedItemsDropdown v2))
                       (focusTracker v4)) v4) <->
      n <> viewUid (groupedItemsDropdown v) /\ n ∈ tracked_ids v).
    { intros n. unfold tracked_ids. simpl. rewrite elem_of_tracked_filter.
      by rewrite Hd2, Ht4, Ht3, Ht2. }
    split.
    + unfold tracker_follows_grouping. rewrite Htracked. simpl.
      rewrite Hd, Hg4, Hg3, Hg2.
      destruct c'; [|done]. split; [by intros [? _]|done].
    + split; [exact Hd|]. intros n Hn. rewrite Htracked.
      split; [by intros [_ ?]|by intros ?].
  - apply post_ret.
    split.
    + unfold tracker_follows_grouping, tracked_ids. rewrite Ht2, Hd2, Hg2.
      split; [intros _ ->; done|]. intros _. by apply HT.
    + split; [done|]. intros n _. unfold tracked_ids. by rewrite Ht2.
Qed.

Lemma tracker_follows_grouping_set_cachedPadding cp v :
  tracker_follows_grouping v ->
  tracker_follows_grouping (set_cachedPadding cp v).
Proof. done. Qed.

Lemma post_throw {S A} e (s : S) (Q : A -> S -> Prop) : post (throw e) s Q.
Proof. done. Qed.

Lemma groupWhileOverflowing_tracker fuel : forall v b,
  tracker_follows_grouping v -> length (ungroupedItems v) <= fuel ->
  post (groupWhileOverflowing L fuel b) v (fun res v' =>
    tracker_follows_grouping v' /\ same_tracking v v' /\
    (res = false ->
     b = false /\ groupedItems v' = groupedItems v /\
     ungroupedItems v' = ungroupedItems v)).
Proof.
  induction fuel as [|fuel IH]; intros v b HT Hfuel; simpl.
  all: apply post_bind; eapply post_weaken; [apply post_areItemsOverflowing|].
  all: intros [] v1 [[cp ->] Hne]; [specialize (Hne eq_refl)|].
  - destruct (ungroupedItems v); [done|simpl in Hfuel; lia].
  - apply post_ret. split; [done|]. split; [by split|]. by intros ->.
  - apply post_bind.
    eapply post_weaken;
      [apply post_and;
       [apply post_groupLastItem
       |apply post_groupLastItem_tracker,
          (tracker_follows_grouping_set_cachedPadding cp), HT]|].
    intros _ v2 [[Hu2 _] [HT2 Hs2]]. simpl in Hu2.
    eapply post_weaken; [apply IH; [done|lia]|].
    intros res v3 (HT3 & Hs3 & Hres). split; [done|]. split.
    + eapply same_tracking_trans; [|exact Hs3].
      eapply same_tracking_trans; [|exact Hs2]. by split.
    + intros ->. by destruct (Hres eq_refl).
  - apply post_ret. split; [done|]. split; [by split|]. by intros ->.
Qed.

Lemma ungroupWhileFitting_tracker fuel : forall v,
  tracker_follows_grouping v -> length (groupedItems v) <= fuel ->
  post (ungroupWhileFitting L fuel) v (fun _ v' =>
    tracker_follows_grouping v' /\ same_tracking v v').
Proof.
  induction fuel as [|fuel IH]; intros v HT Hfuel; simpl.
  all: apply post_bind, post_gets.
  all: destruct (decide (length (groupedItems v) = 0));
    [apply post_ret; split; [done|by split]|].
  { lia. }
  apply post_bind. eapply post_weaken; [apply post_areItemsOverflowing|].
  intros [] v1 [[cp ->] _]; [apply post_ret; split; [done|by split]|].
  apply post_bind.
  eapply post_weaken;
    [apply post_and;
     [apply post_ungroupFirstItem
     |apply post_ungroupFirstItem_tracker,
        (tracker_follows_grouping_set_cachedPadding cp), HT]|].
  intros _ v2 [[Hg2 _] [HT2 Hs2]]. simpl in Hg2.
  eapply post_weaken; [apply IH; [done|lia]|].
  intros _ v3 (HT3 & Hs3). split; [done|].
  eapply same_tracking_trans; [|exact Hs3].
  eapply same_tracking_trans; [|exact Hs2]. by split.
Qed.

Lemma post_updateGrouping_tracker fuel v :
  tracker_follows_grouping v ->
  length (ungroupedItems v) <= fuel -> length (groupedItems v) <= fuel ->
  post (_updateGrouping L fuel) v (fun _ v' =>
    tracker_follows_grouping v' /\ same_tracking v v').
Proof.
  intros HT Hu Hg. unfold _updateGrouping. apply post_bind, post_gets.
  destruct (viewElement v); [|apply post_throw].
  destruct (bodyContains L); simpl; [|apply post_ret; split; [done|by split]].
  apply post_bind.
  eapply post_weaken; [by apply groupWhileOverflowing_tracker|].
  intros res v1 (HT1 & Hs1 & Hres). apply post_bind, post_gets.
  destruct res; simpl; [by apply post_ret|].
  destruct (Hres eq_refl) as (_ & Hg1 & Hu1).
  case_bool_decide; simpl; [by apply post_ret|].
  apply post_bind.
  eapply post_weaken; [apply ungroupWhileFitting_tracker; [done|]|].
  { by rewrite Hg1. }
  intros _ v2 (HT2 & Hs2). apply post_bind.
  eapply post_weaken; [apply post_areItemsOverflowing|].
  intros overflowing v3 [[cp ->] _].
  assert (Hs3 : same_tracking v (set_cachedPadding cp v2)).
  { eapply same_tracking_trans; [exact Hs1|].
    eapply same_tracking_trans; [exact Hs2|]. by split. }
  destruct overflowing; [|by apply post_ret].
  eapply post_weaken;
    [apply post_groupLastItem_tracker,
       (tracker_follows_grouping_set_cachedPadding cp), HT2|].
  intros _ v4 [HT4 Hs4]. split; [done|].
  by eapply same_tracking_trans.
Qed.

(** X22.  The dropdown and the focus tracker in a grouping pass.  On a
    toolbar whose focus tracker knows the dropdown exactly when something
    is grouped, a pass ends, and when it returns that still holds; the
    dropdown is the same and no other identity has entered or left the
    focus tracker. *)
Theorem updateGrouping_tracks_dropdown fuel v :
  tracker_follows_grouping v ->
  length (ungroupedItems v) + length (groupedItems v) <= fuel ->
  is_Some (final_state (_updateGrouping L fuel v)) /\
  forall v',
    _updateGrouping L fuel v = Normal tt v' ->
    (viewUid (groupedItemsDropdown v') ∈ tracked_ids v' <-> groupedItems v' <> []) /\
    groupedItemsDropdown v' = groupedItemsDropdown v /\
    (forall n, n <> viewUid (groupedItemsDropdown v) ->
               n ∈ tracked_ids v' <-> n ∈ tracked_ids v).
Proof.
  intros HT Hfuel.
  pose proof (post_updateGrouping_tracker fuel v HT) as Hpost.
  split; [eapply post_finishes; apply Hpost; lia|].
  intros v' Hrun. unfold post in Hpost. rewrite Hrun in Hpost.
  destruct Hpost as [HT' [Hd Hs]]; [lia..|]. by split.
Qed.

Lemma post_keeps {S A} (P : S -> Prop) (m : Js S A) (s : S)
    (Q : A -> S -> Prop) :
  keeps P m -> P s -> post m s Q -> post m s (fun a s' => Q a s' /\ P s').
Proof.
  intros Hkeeps HP. specialize (Hkeeps s HP). unfold post.
  by destruct (m s).
Qed.

Lemma isRendered_untouched b : Untouched (fun v => isRendered v = b).
Proof. by constructor. Qed.

(** A new item at the end of the items of a toolbar with dynamic
    grouping. *)
Lemma post_items_add_tracker fuel item v :
  tracker_follows_grouping v -> shouldGroupWhenFull v = true ->
  items v = ungroupedItems v ++ groupedItems v ->
  viewUid item <> viewUid (groupedItemsDropdown v) ->
  S (length (items v)) <= fuel ->
  post (items_add L fuel item None) v (fun _ v' =>
    tracker_follows_grouping v' /\
    groupedItemsDropdown v' = groupedItemsDropdown v /\
    isRendered v' = isRendered v /\
    (isRendered v = true ->
     forall n, n <> viewUid (groupedItemsDropdown v) ->
               n ∈ tracked_ids v' <-> n ∈ tracked_ids v \/ n = viewUid item)).
Proof.
  intros HT Hdyn Hitems Hitem Hfuel. rewrite Hitems, length_app in Hfuel.
  unfold items_add. apply post_bind, post_add_to. intros i c' Hadd.
  rewrite Collection_add_end in Hadd. injection Hadd as <- <-.
  apply post_fire, post_bind, post_gets. simpl. rewrite Hdyn.
  apply post_bind.
  eapply post_weaken with (Q := fun _ v3 =>
    (tracker_follows_grouping v3 /\ same_tracking v v3) /\
    isRendered v3 = isRendered v).
  { apply (post_keeps (fun v3 => isRendered v3 = isRendered v)); [|done|].
    { pose proof (isRendered_untouched (isRendered v)) as Hun.
      unfold DynamicGrouping_onAdd.
      apply keeps_bind; [apply keeps_gets|intros ungrouped].
      apply keeps_bind; [|intros _; by apply keeps_updateGrouping].
      destruct (decide _);
        [by apply keeps_groupedItems_add|by apply keeps_ungroupedItems_add]. }
    unfold DynamicGrouping_onAdd. apply post_bind, post_gets. simpl.
    apply post_bind.
    eapply post_weaken with (Q := fun _ v2 =>
      tracker_follows_grouping v2 /\ same_tracking v v2 /\
      length (ungroupedItems v2) <= S (length (ungroupedItems v)) /\
      length (groupedItems v2) <= S (length (groupedItems v))).
    { destruct (decide (length (ungroupedItems v) < length (items v)))
        as [Hgrouped|Hungrouped].
      - unfold groupedItems_add. apply post_bind, post_add_to.
        intros j g2 Hadd. apply Collection_add_length in Hadd as [Hlen _].
        apply post_ret. simpl in *. split; [|split; [done|lia]].
        unfold tracker_follows_grouping. simpl.
        change (tracked_ids (set_groupedItems g2 (set_items (items v ++ [item]) v)))
          with (tracked_ids v).
        assert (Hg : groupedItems v <> []).
        { intros Hg. rewrite Hitems, Hg, app_nil_r in Hgrouped. lia. }
        split; [intros _ ->; simpl in Hlen; lia|]. intros _. by apply HT.
      - eapply post_weaken;
          [apply post_and;
           [apply post_ungroupedItems_add
           |apply post_ungroupedItems_add_tracker]|].
        intros _ v2 [[Hu2 Hg2] (Ht2 & Hd2 & _)]. simpl in *.
        split; [|split; [|rewrite Hg2; lia]].
        + unfold tracker_follows_grouping, tracked_ids. by rewrite Ht2, Hd2, Hg2.
        + split; [done|]. intros n _. unfold tracked_ids. by rewrite Ht2. }
    intros _ v2 (HT2 & Hs2 & Hu2 & Hg2).
    eapply post_weaken; [apply post_updateGrouping_tracker; [done|lia..]|].
    intros _ v3 [HT3 Hs3]. split; [done|].
    by apply (same_tracking_trans v v2 v3). }
  intros _ v3 [[HT3 [Hd3 Hs3]] Hr3]. apply post_bind, post_gets.
  destruct (isRendered v3) eqn:Hrendered.
  - apply post_modify.
    unfold tracker_follows_grouping in HT3 |- *. rewrite tracked_snoc. simpl.
    split; [|split; [done|split; [congruence|]]].
    + rewrite elem_of_app, list_elem_of_singleton, <- HT3.
      split; [|by left]. intros [?|Heq]; [done|]. congruence.
    + intros _ n Hn. by rewrite elem_of_app, list_elem_of_singleton, Hs3.
  - apply post_ret. split; [done|]. split; [done|]. split; [congruence|].
    congruence.
Qed.

Lemma add_new_tracker base fuel k v :
  arranged base v -> focus_follows v ->
  S (length (items v)) <= fuel ->
  exists v',
    runs (bind (new_View k) (fun item => items_add L fuel item None)) v tt v' /\
    length (items v') = S (length (items v)) /\ arranged base v' /\
    focus_follows v'.
Proof.
  intros Harr (Hrendered & HT & Hknown) Hfuel.
  set (item := {| viewUid := nextUid v; kind := k |}).
  destruct (items_add_arranged L base fuel item None
              (set_nextUid (S (nextUid v)) v))
    as (v' & Hrun & Hitems & Hset' & _).
  { apply arranged_set_nextUid; [lia|exact Harr]. }
  { simpl. destruct Harr as (_ & _ & -> & Hok). intros Hin.
    apply list_elem_of_fmap in Hin as (c & Hc & Hin).
    pose proof (ok_items_fresh base v Hok) as Hfresh.
    rewrite Forall_forall in Hfresh. specialize (Hfresh c Hin). lia. }
  { simpl. lia. }
  { simpl. lia. }
  { done. }
  simpl in Hitems. rewrite take_ge, drop_ge in Hitems by lia.
  exists v'. split; [eapply runs_bind; [apply runs_new_View|exact Hrun]|].
  split; [rewrite Hitems, length_app; simpl; lia|]. split; [apply Hset'|].
  destruct Harr as (Hdyn & _ & Hpart & Hok).
  assert (Hdropdown : nextUid v <> viewUid (groupedItemsDropdown v)).
  { pose proof (ok_fresh base v Hok) as Hfresh.
    rewrite Forall_app, Forall_singleton in Hfresh. lia. }
  pose proof (post_items_add_tracker fuel item (set_nextUid (S (nextUid v)) v))
    as Hpost.
  unfold post in Hpost. rewrite Hrun in Hpost.
  destruct Hpost as (HT' & Hd' & Hr' & Hs'); [done..|].
  simpl in Hd', Hr', Hs'. specialize (Hs' Hrendered).
  split; [congruence|]. split; [exact HT'|].
  rewrite Hitems, Forall_app, Forall_singleton, Hd'. split.
  - eapply Forall_impl; [exact Hknown|]. intros x [Hx Hne]. split; [|done].
    apply Hs'; [done|]. by left.
  - split; [|done]. apply Hs'; [done|]. by right.
Qed.

Lemma fillFromConfig_tracker base fuel factory config : forall v,
  arranged base v -> focus_follows v ->
  length (items v) + length config <= fuel ->
  exists v',
    fillFromConfig L fuel config factory v = Normal tt v' /\
    length (items v') <= length (items v) + length config /\
    arranged base v' /\ focus_follows v'.
Proof.
  induction config as [|name config IH]; intros v Harr HT Hfuel.
  { exists v. split; [done|]. split; [lia|done]. }
  simpl in Hfuel. unfold fillFromConfig. simpl forEach.
  assert (Hnew : forall k,
    exists v',
      (bind (bind (new_View k) (fun item => items_add L fuel item None))
            (fun _ => forEach config (fun name =>
               if decide (name = "|"%string) then
                 bind (new_View ToolbarSeparatorView)
                      (fun separator => items_add L fuel separator None)
               else if has factory name then
                 bind (new_View (Component name))
                      (fun item => items_add L fuel item None)
               else console_warn {| message := unavailable; name := name |})))
        v = Normal tt v' /\
      length (items v') <= length (items v) + S (length config) /\
      arranged base v' /\ focus_follows v').
  { intros k.
    destruct (add_new_tracker base fuel k v Harr HT)
      as (v1 & Hrun1 & Hlen1 & Harr1 & HT1); [lia|].
    destruct (IH v1 Harr1 HT1) as (v' & Hrun & Hlen & Harr' & HT'); [lia|].
    exists v'. split; [eapply runs_bind; [exact Hrun1|exact Hrun]|].
    split; [lia|done]. }
  destruct (decide (name = "|"%string)) as [Hsep|Hsep]; [apply Hnew|].
  destruct (has factory name) eqn:Hhas; [apply Hnew|].
  destruct (IH (set_console
                  (console v ++ [{| message := unavailable; name := name |}]) v))
    as (v' & Hrun & Hlen & Harr' & HT').
  { by apply arranged_set_console. }
  { done. }
  { simpl. lia. }
  exists v'. split; [eapply runs_bind; [apply runs_modify|exact Hrun]|].
  split; [simpl in *; lia|done].
Qed.

(** A grouping pass on a rendered toolbar. *)
Lemma pass_focus_follows fuel v v1 :
  focus_follows v ->
  length (ungroupedItems v) + length (groupedItems v) <= fuel ->
  _updateGrouping L fuel v = Normal tt v1 -> items v1 = items v ->
  focus_follows v1.
Proof.
  intros (Hrendered & HT & Hknown) Hfuel Hrun Hitems.
  pose proof (post_updateGrouping_tracker fuel v HT) as Hpost.
  pose proof (keeps_updateGrouping L _ (isRendered_untouched true) fuel v
                Hrendered) as Hkeeps.
  unfold post in Hpost. rewrite Hrun in Hpost, Hkeeps.
  destruct Hpost as [HT1 [Hd1 Hs1]]; [lia..|].
  split; [exact Hkeeps|]. split; [exact HT1|].
  rewrite Hitems, Hd1. eapply Forall_impl; [exact Hknown|].
  intros x [Hx Hne]. split; [|done]. by apply Hs1.
Qed.

Lemma onResize_tracker base fuel width v :
  arranged base v -> focus_follows v -> length (items v) <= fuel ->
  exists v',
    onResize L fuel width v = Normal tt v' /\
    items v' = items v /\ arranged base v' /\ focus_follows v'.
Proof.
  intros Harr HT Hfuel.
  destruct (onResize_arranged L base fuel width v Harr Hfuel)
    as (v' & Hrun & Hi & Harr' & _).
  exists v'. split; [exact Hrun|]. split; [exact Hi|]. split; [exact Harr'|].
  destruct Harr as (_ & _ & Hitems & _).
  rewrite Hitems, length_app in Hfuel.
  rewrite onResize_cases in Hrun.
  destruct (resizeObserver v) as [o|]; [|by injection Hrun as <-].
  destruct (bool_decide _); [by injection Hrun as <-|].
  destruct (_updateGrouping L fuel v) as [[] v1|e v1|] eqn:Hpass; [|done..].
  assert (Hi1 : items v1 = items v).
  { injection Hrun as <-. rewrite <- Hi. by destruct (resizeObserver v1). }
  pose proof (pass_focus_follows fuel v v1 HT Hfuel Hpass Hi1) as HT1.
  injection Hrun as <-. by destruct (resizeObserver v1).
Qed.

Lemma render_focus_follows fuel :
  exists v',
    render L fuel (newToolbarView true) = Normal tt v' /\
    items v' = [] /\ arranged [itemsView] v' /\ focus_follows v'.
Proof.
  destruct (render_settles L fuel) as (v' & Hrun & Hempty & Hset).
  exists v'. split; [exact Hrun|]. split; [exact Hempty|]. split; [apply Hset|].
  rewrite render_dynamic in Hrun by done.
  eapply (fun Hfocus Hfuel => pass_focus_follows fuel _ v' Hfocus Hfuel Hrun);
    [|simpl; lia|by rewrite Hempty].
  split; [done|]. split; [|by apply Forall_nil].
  unfold tracker_follows_grouping, tracked_ids. simpl.
  split; [by intros ?%elem_of_nil|done].
Qed.

End Tracking.

(** The focus tracker over histories of calls, under any layouts. *)

Section TrackingHistories.
Import ToolbarView.
Implicit Types (v : ToolbarView) (c u g base : list View) (x item : View).

Lemma rendered_toolbar_focus_follows base fuel (cs : list (Layout * Call)) :
  forall v,
  Forall fills_or_resizes cs.*2 ->
  length (items v) + sum_list (mayAdd <$> cs.*2) <= fuel ->
  arranged base v -> focus_follows v ->
  focus_follows (foldl (performAt fuel) v cs).
Proof.
  induction cs as [|[L call] cs IH]; intros v Hcs Hfuel Harr HT; [done|].
  change (Forall fills_or_resizes (call :: cs.*2)) in Hcs.
  change (sum_list (mayAdd <$> ((L, call) :: cs).*2))
    with (mayAdd call + sum_list (mayAdd <$> cs.*2)) in Hfuel.
  apply Forall_cons in Hcs as [Hcall Hcs].
  destruct call as [| |config factory|width| |]; try done;
    simpl foldl; unfold performAt at 2; simpl in Hfuel |- *.
  - destruct (fillFromConfig_tracker L base fuel factory config v Harr HT)
      as (v' & Hrun & Hlen & Harr' & HT'); [lia|].
    rewrite Hrun. apply IH; [done| |done..].
    change (after (Normal tt v') v) with v'. lia.
  - destruct (onResize_tracker L base fuel width v Harr HT)
      as (v' & Hrun & Hi & Harr' & HT'); [lia|].
    rewrite Hrun. apply IH; [done| |done..].
    change (after (Normal tt v') v) with v'. rewrite Hi. lia.
Qed.

(** X23.  On a toolbar with dynamic grouping that is rendered first and
    then filled from configs and resized, whatever the layout of the page
    is at each call, the focus tracker knows every item, grouped or not,
    and it knows the dropdown exactly when something is grouped. *)
Theorem rendered_toolbar_tracks_focus fuel L0 (cs : list (Layout * Call)) :
  Forall fills_or_resizes cs.*2 ->
  sum_list (mayAdd <$> cs.*2) <= fuel ->
  let v := history fuel true ((L0, CallRender) :: cs) in
  (forall x, x ∈ items v -> viewUid x ∈ viewUid <$> focusTracker v) /\
  (viewUid (groupedItemsDropdown v) ∈ viewUid <$> focusTracker v <->
   groupedItems v <> []).
Proof.
  intros Hcs Hfuel v.
  assert (Hend : focus_follows v).
  { subst v. unfold history. simpl. unfold performAt at 2. simpl.
    destruct (render_focus_follows L0 fuel) as (v' & -> & Hempty & Harr & HT).
    apply (rendered_toolbar_focus_follows [itemsView]); [done| |done..].
    change (after (Normal tt v') (newToolbarView true)) with v'.
    by rewrite Hempty. }
  destruct Hend as (_ & HT & Hknown). split; [|exact HT].
  intros x Hx. rewrite Forall_forall in Hknown. by apply Hknown.
Qed.

End TrackingHistories.

(** ** More toolbars on concrete layouts *)

Module ToolbarScenarios.
Import ToolbarView Examples ToolbarExamples.

Lemma narrow_arranged : arranged [itemsView] narrow.
Proof. split_and!; try reflexivity. apply narrow_grouping_ok. Qed.

Lemma static_toolbar_tracks_items_witness :
  let cs := [(row 100 false, CallFillFromConfig ["Bold"]%string basicStyles);
             (row 100 true, CallRender);
             (row 60 true,
              CallFillFromConfig ["|"; "Link"]%string basicStyles)] in
  focusTracker (history 0 false cs) = items (history 0 false cs).
Proof.
  apply (static_toolbar_tracks_items_from_render 0 (row 100 true)
           [(row 100 false, CallFillFromConfig ["Bold"]%string basicStyles)]
           [(row 60 true,
             CallFillFromConfig ["|"; "Link"]%string basicStyles)]);
    by repeat constructor.
Defined.

Lemma toolbar_outside_document_witness :
  let v := history 8 true
             [(row 100 false, CallRender);
              (row 60 false,
               CallFillFromConfig ["Bold"; "Italic"; "|"; "Link"]%string
                 basicStyles);
              (row 30 false, CallResize 30)] in
  groupedItems v = [] /\ ungroupedItems v = items v.
Proof.
  destruct (toolbar_outside_document_groups_nothing 8
              [(row 100 false, CallRender);
               (row 60 false,
                CallFillFromConfig ["Bold"; "Italic"; "|"; "Link"]%string
                  basicStyles);
               (row 30 false, CallResize 30)]) as (Hg & Hu & _);
    [by repeat constructor|].
  split; [exact Hg|exact Hu].
Defined.

Lemma items_change_before_render_witness :
  exists v',
    items_add (row 100 true) 8 bold None (newToolbarView true) =
      Throw (CKEditorError "Cannot read property 'ownerDocument' of undefined") v' /\
    items v' = [bold].
Proof.
  destruct (items_change_before_render_throws (row 100 true) 8 [])
    as (_ & Hadd & _); [apply not_elem_of_nil|].
  destruct (Hadd bold None) as (v' & Hrun & Hitems & _);
    [apply not_elem_of_nil|simpl; lia|].
  exists v'. split; [exact Hrun|exact Hitems].
Defined.

Lemma fillFromConfig_before_render_witness :
  exists v',
    fillFromConfig (row 100 true) 8 ["foo"; "Bold"; "Italic"]%string basicStyles
      (newToolbarView true) =
      Throw (CKEditorError "Cannot read property 'ownerDocument' of undefined") v' /\
    items v' = [bold] /\
    console v' = [{| message := unavailable; name := "foo" |}].
Proof.
  destruct (fillFromConfig_before_render_adds_one (row 100 true) 8 []
              basicStyles ["foo"]%string "Bold" ["Italic"]%string
              (Component "Bold"))
    as (v' & Hrun & Hitems & _ & Hconsole);
    [apply not_elem_of_nil|reflexivity|reflexivity|].
  exists v'. split; [exact Hrun|]. split; [exact Hitems|exact Hconsole].
Defined.

Lemma updateGrouping_groups_no_more_witness :
  exists v',
    _updateGrouping (row 100 true) 8 narrow = Normal tt v' /\
    (groupedItems v' = [] \/
     exists v1 v2,
       _ungroupFirstItem v' = Normal tt v1 /\
       _areItemsOverflowing (row 100 true) v1 = Normal true v2).
Proof.
  apply (updateGrouping_groups_no_more_than_needed (row 100 true) [itemsView]).
  - apply narrow_grouping_ok.
  - split; reflexivity.
  - vm_compute. lia.
Defined.

Lemma updateGrouping_moves_one_way_witness :
  exists (overflowing : bool) v0 v',
    _areItemsOverflowing (row 30 true) narrow = Normal overflowing v0 /\
    _updateGrouping (row 30 true) 8 narrow = Normal tt v' /\
    if overflowing
    then ungroupedItems v' `prefix_of` ungroupedItems narrow /\
         groupedItems narrow `suffix_of` groupedItems v'
    else ungroupedItems narrow `prefix_of` ungroupedItems v' /\
         groupedItems v' `suffix_of` groupedItems narrow.
Proof.
  apply (updateGrouping_moves_one_way (row 30 true) [itemsView]).
  - apply narrow_grouping_ok.
  - split; reflexivity.
  - vm_compute. lia.
Defined.

Lemma unreadable_padding_witness :
  exists v',
    _updateGrouping (unstyledRow 100) 8 narrow = Normal tt v' /\
    ungroupedItems v' = [bold; italic; separator; link] /\
    groupedItems v' = [].
Proof.
  destruct (unreadable_padding_groups_nothing (unstyledRow 100) [itemsView] 8
              narrow) as (_ & v' & Hrun & Hu & Hg).
  - apply narrow_grouping_ok.
  - split; reflexivity.
  - vm_compute. lia.
  - reflexivity.
  - reflexivity.
  - reflexivity.
  - exists v'. split; [exact Hrun|]. split; [exact Hu|exact Hg].
Defined.

Lemma group_then_ungroup_witness :
  exists v1 v2,
    _groupLastItem narrow = Normal tt v1 /\
    _ungroupFirstItem v1 = Normal tt v2 /\
    ungroupedItems v2 = [bold] /\
    groupedItems v2 = [italic; separator; link].
Proof.
  destruct (group_then_ungroup_restores [itemsView] [] bold narrow)
    as (v1 & v2 & H1 & H2 & Hu & Hg & _);
    [apply narrow_grouping_ok|reflexivity|].
  exists v1, v2. split; [exact H1|]. split; [exact H2|].
  split; [exact Hu|exact Hg].
Defined.

Lemma ungroup_then_group_witness :
  exists v1 v2,
    _ungroupFirstItem narrow = Normal tt v1 /\
    _groupLastItem v1 = Normal tt v2 /\
    ungroupedItems v2 = [bold] /\
    groupedItems v2 = [italic; separator; link].
Proof.
  destruct (ungroup_then_group_restores [itemsView] italic [separator; link]
              narrow)
    as (v1 & v2 & H1 & H2 & Hu & Hg & _);
    [apply narrow_grouping_ok|reflexivity|].
  exists v1, v2. split; [exact H1|]. split; [exact H2|].
  split; [exact Hu|exact Hg].
Defined.

Lemma wide_grouping_ok : grouping_ok [itemsView] wide.
Proof.
  constructor; simpl.
  - reflexivity.
  - compute_done.
  - reflexivity.
  - compute_done.
  - repeat constructor.
  - repeat constructor.
  - reflexivity.
Qed.

Lemma groupLastItem_focusables_lag_witness :
  groupedItems wide = [] /\
  exists v',
    _groupLastItem wide = Normal tt v' /\
    groupedItems v' = [italic] /\
    groupedItemsDropdown v' ∈ children v' /\
    focusables v' = [bold].
Proof.
  split; [reflexivity|].
  destruct (groupLastItem_focusables_lag [itemsView] [bold] italic wide)
    as (v' & Hrun & _ & Hg & Hshown & Hcycle);
    [apply wide_grouping_ok|reflexivity|].
  exists v'. split; [exact Hrun|]. split; [exact Hg|].
  split; [exact Hshown|exact Hcycle].
Defined.

Lemma onResize_ignores_repeated_width_witness :
  exists v',
    onResize (row 100 true) 8 100 narrow = Normal tt v' /\
    onResize (row 100 true) 8 100 v' = Normal tt v'.
Proof.
  eexists. split; [vm_compute; reflexivity|].
  eapply proj1.
  apply (onResize_ignores_repeated_width (row 100 true) 8 100 narrow);
    [done|vm_compute; reflexivity].
Defined.

Lemma items_add_keeps_arrangement_witness :
  exists v',
    items_add (row 100 true) 8 undo (Some 0) (set_nextUid 8 narrow) =
      Normal tt v' /\
    items v' = [undo; bold; italic; separator; link] /\
    items v' = ungroupedItems v' ++ groupedItems v'.
Proof.
  destruct (items_add_keeps_arrangement (row 100 true) [itemsView] 8 undo
              (Some 0) (set_nextUid 8 narrow))
    as (v' & Hrun & Hitems & Hpart & _).
  - apply arranged_set_nextUid; [vm_compute; lia|apply narrow_arranged].
  - compute_done.
  - vm_compute. lia.
  - vm_compute. lia.
  - vm_compute. lia.
  - exists v'. split; [exact Hrun|]. split; [exact Hitems|exact Hpart].
Defined.

Lemma items_remove_keeps_arrangement_witness :
  exists v',
    items_remove (row 100 true) 8 (Some link) narrow = Normal link v' /\
    items v' = [bold; italic; separator] /\
    items v' = ungroupedItems v' ++ groupedItems v'.
Proof.
  destruct (items_remove_keeps_arrangement (row 100 true) [itemsView] 8 link 3
              narrow)
    as (v' & Hrun & Hitems & Hpart & _).
  - apply narrow_arranged.
  - reflexivity.
  - vm_compute. lia.
  - vm_compute. lia.
  - exists v'. split; [exact Hrun|]. split; [exact Hitems|exact Hpart].
Defined.

(** The toolbar is rendered outside the document and filled there, where
    nothing is measured; then it is in a row of 200 units, where a
    callback finds that everything fits; then the row shrinks to 100
    units and the next callback groups three items. *)
Lemma rendered_toolbar_stays_arranged_witness :
  let fill :=
    CallFillFromConfig ["Bold"; "Italic"; "|"; "Link"]%string basicStyles in
  let v := history 8 true
             [(row 200 false, CallRender); (row 200 false, fill);
              (row 200 true, CallResize 200); (row 100 true, CallResize 100)] in
  items v = ungroupedItems v ++ groupedItems v /\
  viewUid <$> groupedItems v = [3; 4; 5] /\
  exists v', _areItemsOverflowing (row 100 true) v = Normal false v'.
Proof.
  intros fill.
  destruct (rendered_toolbar_stays_arranged 8 (row 200 false)
              [(row 200 false, fill); (row 200 true, CallResize 200);
               (row 100 true, CallResize 100)]) as ((Hpart & _) & Hfit).
  - by repeat constructor.
  - vm_compute. lia.
  - split; [exact Hpart|]. split; [reflexivity|].
    apply (Hfit [(row 200 false, CallRender); (row 200 false, fill);
                 (row 200 true, CallResize 200)]
                (row 100 true) (CallResize 100)); [reflexivity| |reflexivity].
    eexists. split; [vm_compute; reflexivity|]. by intros [[=] _].
Defined.

Lemma wide_tracker_follows_grouping : tracker_follows_grouping wide.
Proof.
  split; [|done]. intros Hin. exfalso. vm_compute in Hin.
  by repeat (apply elem_of_cons in Hin as [?|Hin]; [done|]);
     apply elem_of_nil in Hin.
Qed.

Lemma updateGrouping_tracks_dropdown_witness :
  is_Some (final_state (_updateGrouping (row 30 true) 8 wide)) /\
  forall v',
    _updateGrouping (row 30 true) 8 wide = Normal tt v' ->
    (viewUid (groupedItemsDropdown v') ∈ tracked_ids v' <-> groupedItems v' <> []) /\
    groupedItemsDropdown v' = groupedItemsDropdown wide /\
    (forall n, n <> viewUid (groupedItemsDropdown wide) ->
               n ∈ tracked_ids v' <-> n ∈ tracked_ids wide).
Proof.
  apply (updateGrouping_tracks_dropdown (row 30 true) 8 wide).
  - apply wide_tracker_follows_grouping.
  - vm_compute. lia.
Defined.

Lemma rendered_toolbar_tracks_focus_witness :
  let fill :=
    CallFillFromConfig ["Bold"; "Italic"; "|"; "Link"]%string basicStyles in
  let v := history 8 true
             [(row 200 true, CallRender); (row 200 true, fill);
              (row 100 true, CallResize 100); (row 300 true, CallResize 300)] in
  (forall x, x ∈ items v -> viewUid x ∈ viewUid <$> focusTracker v) /\
  (viewUid (groupedItemsDropdown v) ∈ viewUid <$> focusTracker v <->
   groupedItems v <> []).
Proof.
  intros fill.
  apply (rendered_toolbar_tracks_focus 8 (row 200 true)
           [(row 200 true, fill); (row 100 true, CallResize 100);
            (row 300 true, CallResize 300)]).
  - by repeat constructor.
  - vm_compute. lia.
Defined.

End ToolbarScenarios.
